(** * Global map refinement (bs_models/global_mapping/global_map_refinement.cpp)

    A shallow embedding of [GlobalMapRefinement]: the three stages
    ([RunSubmapRefinement], [RunSubmapAlignment], [RunPoseGraphOptimization]),
    the per-submap workers ([RefineSubmap], [AlignSubmaps]), the configuration
    loader ([Params::LoadJson]), [Setup] and the two constructors that are
    handed a global map.

    The numerical collaborators (Eigen, PCL, the matchers of libbeam, the fuse
    solver, the loop-closure search and refinement) are opaque services of the
    source; they enter the model as the fields of two type classes.  Member
    functions become computations in a state monad over the object, with
    C++ exceptions as an outcome and the calls to the collaborators and the
    error log recorded as an event list.

    [Summary::Save] is modelled by the values it puts in the file.

    Left out: the two constructors that load the global map from a directory
    (they differ from the other two in that load only), [SaveResults] and
    [SaveGlobalMapData], which only hand the output path to the writers of
    the global map.  Whether a directory can be created is for the file
    system to say: [std::filesystem::create_directory] either throws or is
    recorded as an event. *)

From stdpp Require Import gmap strings list fin_maps sorting.
From Stdlib Require Import ZArith Lia.

Set Warnings "-register-all".

Local Open Scope string_scope.
Local Open Scope list_scope.
Local Open Scope Z_scope.

(** ** Integer types of the source *)

Definition to_size_t (z : Z) : Z := z mod 2 ^ 64.
Definition to_int (z : Z) : Z := (z + 2 ^ 31) mod 2 ^ 32 - 2 ^ 31.
Definition to_uint16_t (z : Z) : Z := z mod 2 ^ 16.

(** ** Outcomes, events and the monad *)

Inductive exception : Type :=
| runtime_error (what : string)
| invalid_argument (what : string)
| out_of_range
| json_missing_key (key : string)
| json_type_error
| null_dereference
| filesystem_error (path1 : string).

Inductive outcome (A : Type) : Type :=
| Returned (a : A)
| Thrown (e : exception)
| Timeout.
Arguments Returned {A} a.
Arguments Thrown {A} e.
Arguments Timeout {A}.

(** [ros::Time]: seconds and nanoseconds. *)
Definition Time : Type := (Z * Z)%type.
Definition sec (t : Time) : Z := fst t.
Definition nsec (t : Time) : Z := snd t.

(** What a run leaves behind besides the object state: BEAM_ERROR and
    BEAM_WARN lines (the format string of the source, its arguments not
    filled in), directories created, and the calls made to the
    collaborators, oldest first.  BEAM_INFO lines are not recorded. *)
Inductive Event : Type :=
| BEAM_ERROR (msg : string)
| BEAM_WARN (msg : string)
| create_directory (path : string)
| RegisterNewScan_call (stamp : Time) (registered : bool)
| Match_call (match_success : bool)
| SaveResults_call (path prefix : string)
| graph_update (n_variables n_constraints : nat)
| graph_optimize
| FindRelocCandidates_call (query_index ignore_last_n_submaps : Z)
    (use_initial_poses : bool) (n_matched : nat)
| RunRefinement_call (matched_index query_index : Z) (successful : bool)
| UpdateSubmapPoses_call.

Definition M (St A : Type) : Type := St -> outcome A * St * list Event.

Definition ret {St A} (a : A) : M St A := fun s => (Returned a, s, []).

Definition bind {St A B} (m : M St A) (f : A -> M St B) : M St B :=
  fun s =>
    match m s with
    | (Returned a, s1, e1) =>
        match f a s1 with
        | (o, s2, e2) => (o, s2, e1 ++ e2)
        end
    | (Thrown e, s1, e1) => (Thrown e, s1, e1)
    | (Timeout, s1, e1) => (Timeout, s1, e1)
    end.

Definition throw {St A} (e : exception) : M St A := fun s => (Thrown e, s, []).
Definition timeout {St A} : M St A := fun s => (Timeout, s, []).
Definition emit {St} (ev : Event) : M St unit := fun s => (Returned tt, s, [ev]).
Definition get {St} : M St St := fun s => (Returned s, s, []).
Definition modify {St} (f : St -> St) : M St unit := fun s => (Returned tt, f s, []).

Notation "'let*' x ':=' m 'in' k" := (bind m (fun x => k))
  (at level 10, x name, m at level 100, k at level 200).
Notation "m ;;; k" := (bind m (fun _ => k))
  (at level 100, k at level 200, right associativity).

(** The result, final state and event list of a computation. *)
Definition result_of {St A} (r : outcome A * St * list Event) : outcome A := fst (fst r).
Definition state_of {St A} (r : outcome A * St * list Event) : St := snd (fst r).
Definition events_of {St A} (r : outcome A * St * list Event) : list Event := snd r.

(** ** Loops

    [for (T i = i0; cond(i); i = incr(i)) body], with the local variables
    the body updates passed along as [a].  The source's counters are
    fixed-width, so termination is not structural: the loop carries fuel
    and ends in [Timeout] when it is used up. *)
Fixpoint for_loop {St A} (fuel : nat) (cond : Z -> bool) (incr : Z -> Z)
    (body : Z -> A -> M St A) (i : Z) (a : A) : M St A :=
  if cond i then
    match fuel with
    | O => timeout
    | S fuel' =>
        let* a' := body i a in
        for_loop fuel' cond incr body (incr i) a'
    end
  else ret a.

(** The same loop for a body that may [return r] from the enclosing
    function: [Some r] stops the loop, [None] goes on.  The loop yields
    [None] when its condition fails. *)
Fixpoint for_loop_return {St R} (fuel : nat) (cond : Z -> bool) (incr : Z -> Z)
    (body : Z -> M St (option R)) (i : Z) : M St (option R) :=
  if cond i then
    match fuel with
    | O => timeout
    | S fuel' =>
        let* r := body i in
        match r with
        | Some v => ret (Some v)
        | None => for_loop_return fuel' cond incr body (incr i)
        end
    end
  else ret None.

(** ** Geometry

    [Eigen::Matrix4d] transforms, point clouds and the double-valued
    quantities computed from them.  The source computes them in floating
    point through Eigen, PCL and libbeam; the model keeps them abstract. *)
Class Geometry : Type := {
  Matrix4d : Type;
  Matrix4d_mul : Matrix4d -> Matrix4d -> Matrix4d;
  (** beam::InvertTransform *)
  InvertTransform : Matrix4d -> Matrix4d;
  (** double *)
  scalar : Type;
  (** beam::Rad2Deg(abs(AngleAxis(R).angle())) of the rotation block *)
  rotation_deg : Matrix4d -> scalar;
  (** norm of the translation block, times 1000 *)
  translation_mm : Matrix4d -> scalar;
  (** Eigen::Matrix<double, 6, 6> *)
  Matrix6d : Type;
  (** Identity() * d *)
  Identity6_times : scalar -> Matrix6d;
  (** bs_common::TransformMatrixToVectorWithQuaternion *)
  Vector7d : Type;
  TransformMatrixToVectorWithQuaternion : Matrix4d -> Vector7d;
  (** pcl::PointCloud and pcl::transformPointCloud *)
  PointCloud : Type;
  transformPointCloud : PointCloud -> Matrix4d -> PointCloud;
  (** beam_matching::LoamPointCloud and its TransformPointCloud *)
  LoamPointCloud : Type;
  TransformPointCloud : LoamPointCloud -> Matrix4d -> LoamPointCloud;
}.

Infix "**" := Matrix4d_mul (at level 40, left associativity).

Section DataModel.
Context `{Geometry}.

(** *** RegistrationResult (lines 90-96) *)
Record RegistrationResult : Type := {
  dR : scalar;
  dt : scalar;
}.

Definition RegistrationResult_new (Ti Tf : Matrix4d) : RegistrationResult :=
  let T_DIFF := InvertTransform Ti ** Tf in
  {| dR := rotation_deg T_DIFF; dt := translation_mm T_DIFF |}.

(** *** Summary *)

(** Modelled from the spec: the declaration of [Summary] is in the header,
    which is not among the sources.  The spec has it as a mapping from
    timestamp to RegistrationResult, one for each stage; the source fills
    it with [emplace(stamp, result)] and reads it as key/value pairs, which
    is [std::map]: [emplace] on a key that is present changes nothing. *)
Record Summary : Type := {
  submap_refinement : gmap Time RegistrationResult;
  submap_alignment : gmap Time RegistrationResult;
}.

Definition emplace {V} (k : Time) (v : V) (m : gmap Time V) : gmap Time V :=
  match m !! k with
  | Some _ => m
  | None => <[k := v]> m
  end.

(** *** Pose graph (fuse_graphs::HashGraph, fuse_core::Transaction,
    bs_constraints::Pose3DStampedTransaction) *)

(** Modelled from the spec: none of these is among the sources.  A pose
    variable (the position and orientation pair of one stamp) is named by
    its stamp; its value is the pose.  A constraint is an absolute prior on
    one variable or a relative pose between two. *)
Inductive Constraint : Type :=
| AbsolutePose3DStampedConstraint (variable : Time) (mean : Matrix4d)
    (prior_noise : scalar) (source : string)
| RelativePose3DStampedConstraint (variable1 variable2 : Time)
    (delta : Vector7d) (covariance : Matrix6d) (source : string).

Record Transaction : Type := {
  added_variables : list (Time * Matrix4d);
  added_constraints : list Constraint;
}.

Definition Transaction_new : Transaction :=
  {| added_variables := []; added_constraints := [] |}.

Definition AddPoseVariables (stamp : Time) (pose : Matrix4d) (t : Transaction)
    : Transaction :=
  {| added_variables := added_variables t ++ [(stamp, pose)];
     added_constraints := added_constraints t |}.

Definition AddPosePrior (stamp : Time) (pose : Matrix4d) (prior_noise : scalar)
    (source : string) (t : Transaction) : Transaction :=
  {| added_variables := added_variables t;
     added_constraints := added_constraints t ++
       [AbsolutePose3DStampedConstraint stamp pose prior_noise source] |}.

Definition AddPoseConstraint (stamp1 stamp2 : Time) (delta : Vector7d)
    (covariance : Matrix6d) (source : string) (t : Transaction) : Transaction :=
  {| added_variables := added_variables t;
     added_constraints := added_constraints t ++
       [RelativePose3DStampedConstraint stamp1 stamp2 delta covariance source] |}.

Definition Transaction_merge (t other : Transaction) : Transaction :=
  {| added_variables := added_variables t ++ added_variables other;
     added_constraints := added_constraints t ++ added_constraints other |}.

Record HashGraph : Type := {
  variables : gmap Time Matrix4d;
  constraints : list Constraint;
}.

Definition HashGraph_new : HashGraph :=
  {| variables := ∅; constraints := [] |}.

(** A variable that the graph already holds keeps its value. *)
Definition HashGraph_update (g : HashGraph) (t : Transaction) : HashGraph :=
  {| variables := foldl (fun vs kv => emplace (fst kv) (snd kv) vs)
                    (variables g) (added_variables t);
     constraints := constraints g ++ added_constraints t |}.

(** *** ScanPose and Submap *)

(** Modelled from the spec: scan_pose.h and submap.h are not among the
    sources.  A scan keyframe has a stamp, a cloud and a pose in the submap
    frame; a submap has a stamp, its keyframes ordered by key, the current
    pose T_WORLD_SUBMAP and the initial pose T_WORLD_SUBMAP_INIT. *)
Record ScanPose : Type := {
  ScanPose_Stamp : Time;
  T_REFFRAME_BASELINK : Matrix4d;
  Cloud : PointCloud;
}.

(** [ScanPose::UpdatePose(graph)]: takes the value of the scan's variable
    when the graph has it, and leaves the pose alone otherwise. *)
Definition ScanPose_UpdatePose (graph : HashGraph) (s : ScanPose) : ScanPose :=
  match variables graph !! ScanPose_Stamp s with
  | Some T => {| ScanPose_Stamp := ScanPose_Stamp s;
                 T_REFFRAME_BASELINK := T;
                 Cloud := Cloud s |}
  | None => s
  end.

Record Submap : Type := {
  Stamp : Time;
  T_WORLD_SUBMAP : Matrix4d;
  T_WORLD_SUBMAP_INIT : Matrix4d;
  lidar_keyframe_poses : list (Z * ScanPose);
}.

(** [Submap::UpdatePose(T)] *)
Definition Submap_UpdatePose (T : Matrix4d) (s : Submap) : Submap :=
  {| Stamp := Stamp s;
     T_WORLD_SUBMAP := T;
     T_WORLD_SUBMAP_INIT := T_WORLD_SUBMAP_INIT s;
     lidar_keyframe_poses := lidar_keyframe_poses s |}.

Definition Submap_set_keyframes (kfs : list (Z * ScanPose)) (s : Submap) : Submap :=
  {| Stamp := Stamp s;
     T_WORLD_SUBMAP := T_WORLD_SUBMAP s;
     T_WORLD_SUBMAP_INIT := T_WORLD_SUBMAP_INIT s;
     lidar_keyframe_poses := kfs |}.

(** [GlobalMap::UpdateSubmapPoses(graph, now)]: every submap whose variable
    is in the graph takes its value. *)
Definition UpdateSubmapPoses (graph : HashGraph) (submaps : list Submap)
    : list Submap :=
  map (fun s => match variables graph !! Stamp s with
                | Some T => Submap_UpdatePose T s
                | None => s
                end) submaps.

(** *** Collaborator objects *)

(** A matcher after SetRef and SetTarget: the result of [Match()] and the
    function [ApplyResult] then computes. *)
Definition LoamMatcher : Type :=
  LoamPointCloud -> LoamPointCloud -> bool * (Matrix4d -> Matrix4d).
Definition Matcher : Type :=
  PointCloud -> PointCloud -> bool * (Matrix4d -> Matrix4d).

(** [FindRelocCandidates(submaps, query, matched_indices, Ts_MATCH_QUERY,
    ignore_last_n_submaps, use_initial_poses, output_path)]: the two output
    vectors, kept in step, as one list of pairs. *)
Definition RelocCandidateSearch : Type :=
  list Submap -> Submap -> Z -> bool -> string -> list (Z * Matrix4d).

Record RelocRefinementResults : Type := {
  T_MATCH_QUERY : Matrix4d;
  successful : bool;
}.

Definition RelocRefinement : Type :=
  Submap -> Submap -> Matrix4d -> string -> RelocRefinementResults.

(** [RegisterNewScan(scan).GetTransaction()], given the scans registered
    since the map was cleared; [None] is the null transaction. *)
Definition ScanRegistration : Type :=
  list ScanPose -> ScanPose -> option Transaction.

Inductive MatcherType : Type := LOAM | ICP | GICP | NDT | UNKNOWN.

(** *** Params *)
Record LoopClosureParams : Type := {
  candidate_search_config : string;
  refinement_config : string;
  local_mapper_covariance : Matrix6d;
  loop_closure_covariance : Matrix6d;
}.

Record SubmapRefinementParams : Type := {
  scan_registration_config : string;
  refinement_matcher_config : string;
}.

Record SubmapAlignmentParams : Type := {
  alignment_matcher_config : string;
}.

Record Params : Type := {
  loop_closure : LoopClosureParams;
  submap_refinement_params : SubmapRefinementParams;
  submap_alignment_params : SubmapAlignmentParams;
}.

(** nlohmann::json, as far as the loader looks into it. *)
Inductive json : Type :=
| json_null
| json_string (s : string)
| json_number (x : scalar)
| json_object (members : list (string * json)).

(** *** The object *)
Record GlobalMapRefinement : Type := {
  params_ : Params;
  global_map_ : list Submap;
  matcher_loam_ : option LoamMatcher;
  matcher_ : option Matcher;
  loop_closure_candidate_search_ : option RelocCandidateSearch;
  loop_closure_refinement_ : option RelocRefinement;
  summary_ : Summary;
  pgo_skip_first_n_submaps_ : Z;
  pose_prior_noise_ : scalar;
}.

End DataModel.

Abbreviation GMR := GlobalMapRefinement.

(** ** Collaborators

    What the source calls and does not define: the filesystem, libbeam's
    JSON and path helpers, the factories of the matchers, of the scan
    registration and of the loop-closure search and refinement, the cloud
    accessors of a submap, the solver behind [HashGraph::optimize], and the
    defaults the header gives the members. *)
Class Collaborators `{Geometry} : Type := {
  (** std::filesystem::exists *)
  path_exists : string -> bool;
  (** std::filesystem::create_directory(p) throws filesystem_error: the
      overload without an error_code throws when the directory can neither
      be made nor is there already *)
  create_directory_fails : string -> bool;
  (** mkdir fails with ENOENT on the empty path *)
  create_directory_empty : create_directory_fails "" = true;
  (** beam::CombinePaths *)
  CombinePaths : string -> string -> string;
  (** beam::ReadJson; [None] when it returns false *)
  ReadJson : string -> option json;
  (** bs_common::GetBeamSlamConfigPath *)
  GetBeamSlamConfigPath : string;
  (** bs_common::GetAbsoluteConfigPathFromJson *)
  GetAbsoluteConfigPathFromJson : string -> string -> string;
  (** std::to_string(stamp.toSec()) *)
  toSec_to_string : Time -> string;
  (** beam_matching::GetTypeFromConfig *)
  GetTypeFromConfig : string -> MatcherType;
  LoamMatcher_new : string -> string -> LoamMatcher;
  IcpMatcher_new : string -> Matcher;
  GicpMatcher_new : string -> Matcher;
  NdtMatcher_new : string -> Matcher;
  RelocCandidateSearchBase_Create : string -> RelocCandidateSearch;
  RelocRefinementBase_Create : string -> RelocRefinement;
  (** sr::ScanRegistrationBase::Create, which throws on a configuration it
      cannot build an engine from *)
  ScanRegistrationBase_Create :
    string -> string -> string -> bool -> exception + ScanRegistration;
  GetLidarLoamPointsInWorldFrame : Submap -> bool -> LoamPointCloud;
  GetLidarPointsInWorldFrameCombined : Submap -> bool -> PointCloud;
  (** the value the solver gives a variable of the graph *)
  solve : HashGraph -> Time -> Matrix4d;
  default_Params : Params;
  default_pgo_skip_first_n_submaps : Z;
  default_pose_prior_noise : scalar;
}.

Section Program.
Context `{Collaborators}.

(** [graph->optimize()]: the variables stay, their values are the solver's. *)
Definition HashGraph_optimize (g : HashGraph) : HashGraph :=
  {| variables := map_imap (fun k _ => Some (solve g k)) (variables g);
     constraints := constraints g |}.

Definition when {St} (b : bool) (m : M St unit) : M St unit :=
  if b then m else ret tt.

(** [std::filesystem::create_directory(p)] *)
Definition fs_create_directory {St} (p : string) : M St unit :=
  if create_directory_fails p then throw (filesystem_error p)
  else emit (create_directory p).

(** *** JSON access *)

Fixpoint members_find (k : string) (ms : list (string * json)) : option json :=
  match ms with
  | [] => None
  | (k', v) :: rest => if String.eqb k k' then Some v else members_find k rest
  end.

Definition json_contains (J : json) (k : string) : bool :=
  match J with
  | json_object ms => match members_find k ms with Some _ => true | None => false end
  | _ => false
  end.

(** beam::ValidateJsonKeysOrThrow: throws at the first key that is missing. *)
Fixpoint ValidateJsonKeysOrThrow {St} (keys : list string) (J : json) : M St unit :=
  match keys with
  | [] => ret tt
  | k :: rest =>
      if json_contains J k then ValidateJsonKeysOrThrow rest J
      else throw (json_missing_key k)
  end.

(** [J[key]] *)
Definition json_at {St} (J : json) (k : string) : M St json :=
  match J with
  | json_object ms =>
      match members_find k ms with Some v => ret v | None => ret json_null end
  | json_null => ret json_null
  | _ => throw json_type_error
  end.

Definition as_string {St} (J : json) : M St string :=
  match J with json_string s => ret s | _ => throw json_type_error end.

Definition as_double {St} (J : json) : M St scalar :=
  match J with json_number x => ret x | _ => throw json_type_error end.

(** *** Params::LoadJson (lines 17-88) *)

Definition set_loop_closure (f : LoopClosureParams -> LoopClosureParams)
    (p : Params) : Params :=
  {| loop_closure := f (loop_closure p);
     submap_refinement_params := submap_refinement_params p;
     submap_alignment_params := submap_alignment_params p |}.

Definition set_submap_refinement (f : SubmapRefinementParams -> SubmapRefinementParams)
    (p : Params) : Params :=
  {| loop_closure := loop_closure p;
     submap_refinement_params := f (submap_refinement_params p);
     submap_alignment_params := submap_alignment_params p |}.

Definition set_submap_alignment (f : SubmapAlignmentParams -> SubmapAlignmentParams)
    (p : Params) : Params :=
  {| loop_closure := loop_closure p;
     submap_refinement_params := submap_refinement_params p;
     submap_alignment_params := f (submap_alignment_params p) |}.

Definition LoadJson (config_path : string) : M Params unit :=
  if String.eqb config_path "" then ret tt
  else
    match ReadJson config_path with
    | None =>
        emit (BEAM_ERROR "Unable to read global map refinement config") ;;;
        throw (runtime_error "Unable to read global map refinement config")
    | Some J =>
        ValidateJsonKeysOrThrow
          ["loop_closure"; "submap_refinement"; "submap_alignment"] J ;;;
        (* load loop closure params *)
        let* J_loop_closure := json_at J "loop_closure" in
        ValidateJsonKeysOrThrow
          ["candidate_search_config"; "refinement_config";
           "local_mapper_covariance"; "loop_closure_covariance"]
          J_loop_closure ;;;
        let* J_cs := json_at J_loop_closure "candidate_search_config" in
        let* candidate_search_config_rel := as_string J_cs in
        when (negb (String.eqb candidate_search_config_rel ""))
          (modify (set_loop_closure (fun lc =>
             {| candidate_search_config :=
                  CombinePaths GetBeamSlamConfigPath candidate_search_config_rel;
                refinement_config := refinement_config lc;
                local_mapper_covariance := local_mapper_covariance lc;
                loop_closure_covariance := loop_closure_covariance lc |}))) ;;;
        let* J_lc := json_at J_loop_closure "loop_closure_covariance" in
        let* lc_cov_dia := as_double J_lc in
        let* J_lm := json_at J_loop_closure "local_mapper_covariance" in
        let* lm_cov_dia := as_double J_lm in
        modify (set_loop_closure (fun lc =>
          {| candidate_search_config := candidate_search_config lc;
             refinement_config := refinement_config lc;
             local_mapper_covariance := Identity6_times lm_cov_dia;
             loop_closure_covariance := Identity6_times lc_cov_dia |})) ;;;
        let* J_rc := json_at J_loop_closure "refinement_config" in
        let* refinement_config_rel := as_string J_rc in
        when (negb (String.eqb refinement_config_rel ""))
          (modify (set_loop_closure (fun lc =>
             {| candidate_search_config := candidate_search_config lc;
                refinement_config :=
                  CombinePaths GetBeamSlamConfigPath refinement_config_rel;
                local_mapper_covariance := local_mapper_covariance lc;
                loop_closure_covariance := loop_closure_covariance lc |}))) ;;;
        (* load submap refinement params *)
        let* J_submap_refinement := json_at J "submap_refinement" in
        ValidateJsonKeysOrThrow ["scan_registration_config"; "matcher_config"]
          J_submap_refinement ;;;
        let* J_sr := json_at J_submap_refinement "scan_registration_config" in
        let* scan_registration_config_rel := as_string J_sr in
        when (negb (String.eqb scan_registration_config_rel ""))
          (modify (set_submap_refinement (fun sr =>
             {| scan_registration_config :=
                  CombinePaths GetBeamSlamConfigPath scan_registration_config_rel;
                refinement_matcher_config := refinement_matcher_config sr |}))) ;;;
        let* J_mc := json_at J_submap_refinement "matcher_config" in
        let* matcher_config_rel := as_string J_mc in
        when (negb (String.eqb matcher_config_rel ""))
          (modify (set_submap_refinement (fun sr =>
             {| scan_registration_config := scan_registration_config sr;
                refinement_matcher_config :=
                  CombinePaths GetBeamSlamConfigPath matcher_config_rel |}))) ;;;
        (* load submap alignment params *)
        let* J_submap_alignment := json_at J "submap_alignment" in
        ValidateJsonKeysOrThrow ["matcher_config"] J_submap_alignment ;;;
        let* J_amc := json_at J_submap_alignment "matcher_config" in
        let* matcher_config_rel := as_string J_amc in
        when (negb (String.eqb matcher_config_rel ""))
          (modify (set_submap_alignment (fun _ =>
             {| alignment_matcher_config :=
                  CombinePaths GetBeamSlamConfigPath matcher_config_rel |})))
    end.

(** *** Setters for the members that change *)

Definition set_params (f : Params -> Params) (self : GMR) : GMR :=
  {| params_ := f (params_ self);
     global_map_ := global_map_ self;
     matcher_loam_ := matcher_loam_ self;
     matcher_ := matcher_ self;
     loop_closure_candidate_search_ := loop_closure_candidate_search_ self;
     loop_closure_refinement_ := loop_closure_refinement_ self;
     summary_ := summary_ self;
     pgo_skip_first_n_submaps_ := pgo_skip_first_n_submaps_ self;
     pose_prior_noise_ := pose_prior_noise_ self |}.

Definition set_global_map (f : list Submap -> list Submap) (self : GMR) : GMR :=
  {| params_ := params_ self;
     global_map_ := f (global_map_ self);
     matcher_loam_ := matcher_loam_ self;
     matcher_ := matcher_ self;
     loop_closure_candidate_search_ := loop_closure_candidate_search_ self;
     loop_closure_refinement_ := loop_closure_refinement_ self;
     summary_ := summary_ self;
     pgo_skip_first_n_submaps_ := pgo_skip_first_n_submaps_ self;
     pose_prior_noise_ := pose_prior_noise_ self |}.

Definition set_matcher_loam (m : LoamMatcher) (self : GMR) : GMR :=
  {| params_ := params_ self;
     global_map_ := global_map_ self;
     matcher_loam_ := Some m;
     matcher_ := matcher_ self;
     loop_closure_candidate_search_ := loop_closure_candidate_search_ self;
     loop_closure_refinement_ := loop_closure_refinement_ self;
     summary_ := summary_ self;
     pgo_skip_first_n_submaps_ := pgo_skip_first_n_submaps_ self;
     pose_prior_noise_ := pose_prior_noise_ self |}.

Definition set_matcher (m : Matcher) (self : GMR) : GMR :=
  {| params_ := params_ self;
     global_map_ := global_map_ self;
     matcher_loam_ := matcher_loam_ self;
     matcher_ := Some m;
     loop_closure_candidate_search_ := loop_closure_candidate_search_ self;
     loop_closure_refinement_ := loop_closure_refinement_ self;
     summary_ := summary_ self;
     pgo_skip_first_n_submaps_ := pgo_skip_first_n_submaps_ self;
     pose_prior_noise_ := pose_prior_noise_ self |}.

Definition set_loop_closure_objects (cs : RelocCandidateSearch)
    (rf : RelocRefinement) (self : GMR) : GMR :=
  {| params_ := params_ self;
     global_map_ := global_map_ self;
     matcher_loam_ := matcher_loam_ self;
     matcher_ := matcher_ self;
     loop_closure_candidate_search_ := Some cs;
     loop_closure_refinement_ := Some rf;
     summary_ := summary_ self;
     pgo_skip_first_n_submaps_ := pgo_skip_first_n_submaps_ self;
     pose_prior_noise_ := pose_prior_noise_ self |}.

Definition set_summary (f : Summary -> Summary) (self : GMR) : GMR :=
  {| params_ := params_ self;
     global_map_ := global_map_ self;
     matcher_loam_ := matcher_loam_ self;
     matcher_ := matcher_ self;
     loop_closure_candidate_search_ := loop_closure_candidate_search_ self;
     loop_closure_refinement_ := loop_closure_refinement_ self;
     summary_ := f (summary_ self);
     pgo_skip_first_n_submaps_ := pgo_skip_first_n_submaps_ self;
     pose_prior_noise_ := pose_prior_noise_ self |}.

Definition emplace_submap_refinement (k : Time) (r : RegistrationResult)
    (sm : Summary) : Summary :=
  {| submap_refinement := emplace k r (submap_refinement sm);
     submap_alignment := submap_alignment sm |}.

Definition emplace_submap_alignment (k : Time) (r : RegistrationResult)
    (sm : Summary) : Summary :=
  {| submap_refinement := submap_refinement sm;
     submap_alignment := emplace k r (submap_alignment sm) |}.

(** *** Setup (lines 161-185) *)
Definition Setup : M GMR unit :=
  let* self := get in
  (* setup submap alignment *)
  let m_conf := alignment_matcher_config (submap_alignment_params (params_ self)) in
  let matcher_type := GetTypeFromConfig m_conf in
  match matcher_type with
  | LOAM =>
      let ceres_config := GetAbsoluteConfigPathFromJson m_conf "ceres_config" in
      modify (set_matcher_loam (LoamMatcher_new m_conf ceres_config))
  | ICP => modify (set_matcher (IcpMatcher_new m_conf))
  | GICP => modify (set_matcher (GicpMatcher_new m_conf))
  | NDT => modify (set_matcher (NdtMatcher_new m_conf))
  | UNKNOWN =>
      emit (BEAM_ERROR "Invalid matcher type") ;;;
      throw (invalid_argument "invalid json")
  end ;;;
  modify (set_loop_closure_objects
    (RelocCandidateSearchBase_Create
       (candidate_search_config (loop_closure (params_ self))))
    (RelocRefinementBase_Create
       (refinement_config (loop_closure (params_ self))))).

(** *** Constructors (lines 148-159)

    The object before the constructor body runs: the members hold what
    their initialisers give them, the pointers are null and the summary is
    empty. *)
Definition uninitialised (global_map : list Submap) (params : Params) : GMR :=
  {| params_ := params;
     global_map_ := global_map;
     matcher_loam_ := None;
     matcher_ := None;
     loop_closure_candidate_search_ := None;
     loop_closure_refinement_ := None;
     summary_ := {| submap_refinement := ∅; submap_alignment := ∅ |};
     pgo_skip_first_n_submaps_ := default_pgo_skip_first_n_submaps;
     pose_prior_noise_ := default_pose_prior_noise |}.

(** [params_.LoadJson(config_path)] inside a member function. *)
Definition params_LoadJson (config_path : string) : M GMR unit :=
  fun self =>
    match LoadJson config_path (params_ self) with
    | (o, p, evs) => (o, set_params (fun _ => p) self, evs)
    end.

(** GlobalMapRefinement(global_map, params) *)
Definition GlobalMapRefinement_new (global_map : list Submap) (params : Params)
    : outcome unit * GMR * list Event :=
  Setup (uninitialised global_map params).

(** GlobalMapRefinement(global_map, config_path) *)
Definition GlobalMapRefinement_new_from_config (global_map : list Submap)
    (config_path : string) : outcome unit * GMR * list Event :=
  (params_LoadJson config_path ;;; Setup) (uninitialised global_map default_Params).

(** *** Access to the submaps

    A [SubmapPtr] is the position of the submap in the global map. *)
Definition submaps_at {St} (size : nat) (i : Z) : M St nat :=
  if to_size_t i <? Z.of_nat size then ret (Z.to_nat (to_size_t i))
  else throw out_of_range.

Definition deref (p : nat) : M GMR Submap :=
  let* self := get in
  match global_map_ self !! p with
  | Some s => ret s
  | None => throw null_dereference
  end.

Definition graph_update_with (graph : HashGraph) (t : Transaction) : M GMR HashGraph :=
  emit (graph_update (length (added_variables t)) (length (added_constraints t))) ;;;
  ret (HashGraph_update graph t).

(** *** RefineSubmap (lines 218-271) *)

(** lines 243-249 *)
Fixpoint register_scans (scan_registration : ScanRegistration)
    (registered : list ScanPose) (keyframes : list (Z * ScanPose))
    (graph : HashGraph) : M GMR HashGraph :=
  match keyframes with
  | [] => ret graph
  | (_, scan_pose) :: rest =>
      let transaction := scan_registration registered scan_pose in
      emit (RegisterNewScan_call (ScanPose_Stamp scan_pose)
              (bool_decide (is_Some transaction))) ;;;
      let* graph' :=
        match transaction with
        | Some t => graph_update_with graph t
        | None => ret graph
        end in
      register_scans scan_registration (registered ++ [scan_pose]) rest graph'
  end.

(** lines 258-266 *)
Fixpoint update_scan_poses (graph : HashGraph) (keyframes : list (Z * ScanPose))
    (summary : Summary) : list (Z * ScanPose) * Summary :=
  match keyframes with
  | [] => ([], summary)
  | (key, scan_pose) :: rest =>
      let T_W_B_init := T_REFFRAME_BASELINK scan_pose in
      let scan_pose' := ScanPose_UpdatePose graph scan_pose in
      let T_W_B_after := T_REFFRAME_BASELINK scan_pose' in
      let result := RegistrationResult_new T_W_B_init T_W_B_after in
      let summary' :=
        emplace_submap_refinement (ScanPose_Stamp scan_pose') result summary in
      let '(rest', summary'') := update_scan_poses graph rest summary' in
      ((key, scan_pose') :: rest', summary'')
  end.

Definition RefineSubmap (submap : nat) (output_path : string) : M GMR bool :=
  if negb (String.eqb output_path "") && negb (path_exists output_path) then
    emit (BEAM_ERROR "Invalid output path for submap refinement: {}") ;;;
    throw (runtime_error "invalid path")
  else
    let* s := deref submap in
    let dir := String.append "submap_" (toSec_to_string (Stamp s)) in
    let submap_output :=
      if String.eqb output_path "" then output_path
      else CombinePaths output_path dir in
    fs_create_directory submap_output ;;;
    (* Create optimization graph *)
    let graph := HashGraph_new in
    let* self := get in
    let* scan_registration :=
      match ScanRegistrationBase_Create
              (scan_registration_config (submap_refinement_params (params_ self)))
              (refinement_matcher_config (submap_refinement_params (params_ self)))
              submap_output true with
      | inl e => throw e
      | inr sr => ret sr
      end in
    (* the lidar map is cleared: nothing is registered yet *)
    let* graph := register_scans scan_registration [] (lidar_keyframe_poses s) graph in
    (* Optimize graph and update data *)
    emit graph_optimize ;;;
    let graph := HashGraph_optimize graph in
    modify (fun self =>
      let '(keyframes, summary) :=
        update_scan_poses graph (lidar_keyframe_poses s) (summary_ self) in
      set_summary (fun _ => summary)
        (set_global_map (fun submaps =>
           <[submap := Submap_set_keyframes keyframes s]> submaps) self)) ;;;
    ret true.

(** *** AlignSubmaps (lines 273-362) *)
Definition AlignSubmaps (submap_ref submap_tgt : nat) (output_path : string)
    : M GMR bool :=
  if negb (String.eqb output_path "") && negb (path_exists output_path) then
    emit (BEAM_ERROR "Invalid output path for submap alignment: {}") ;;;
    throw (runtime_error "invalid path")
  else
    let* tgt := deref submap_tgt in
    let dir := String.append "submap_" (toSec_to_string (Stamp tgt)) in
    let submap_output :=
      if String.eqb output_path "" then output_path
      else CombinePaths output_path dir in
    fs_create_directory submap_output ;;;
    let* ref := deref submap_ref in
    let T_World_SubmapRef := T_WORLD_SUBMAP ref in
    let T_World_SubmapRef_Init := T_WORLD_SUBMAP_INIT ref in
    let T_World_SubmapTgt_Init := T_WORLD_SUBMAP_INIT tgt in
    (* get initial relative pose *)
    let T_SubmapRef_SubmapTgt_Init :=
      InvertTransform T_World_SubmapRef_Init ** T_World_SubmapTgt_Init in
    let T_W_B_i := T_WORLD_SUBMAP tgt in
    let use_initials := true in
    let* self := get in
    match matcher_loam_ self with
    | Some matcher_loam =>
        (* first get maps in their initial world frame *)
        let ref_in_world := GetLidarLoamPointsInWorldFrame ref use_initials in
        let tgt_in_world := GetLidarLoamPointsInWorldFrame tgt use_initials in
        (* then transform to the reference submap frame *)
        let T_SubmapRef_WorldInit := InvertTransform T_World_SubmapRef_Init in
        let ref_in_ref_submap_frame :=
          TransformPointCloud ref_in_world T_SubmapRef_WorldInit in
        let tgt_in_ref_submap_frame :=
          TransformPointCloud tgt_in_world T_SubmapRef_WorldInit in
        (* align *)
        let '(match_success, ApplyResult) :=
          matcher_loam ref_in_ref_submap_frame tgt_in_ref_submap_frame in
        emit (Match_call match_success) ;;;
        let T_SubmapRef_SubmapTgt := ApplyResult T_SubmapRef_SubmapTgt_Init in
        when (negb (String.eqb output_path ""))
          (emit (SaveResults_call submap_output "submap_cloud_")) ;;;
        (* set new submap pose *)
        let T_World_SubmapTgt := T_World_SubmapRef ** T_SubmapRef_SubmapTgt in
        modify (set_global_map (fun submaps =>
          <[submap_tgt := Submap_UpdatePose T_World_SubmapTgt tgt]> submaps))
    | None =>
        match matcher_ self with
        | None => throw null_dereference
        | Some matcher =>
            (* first get maps in their initial world frame *)
            let ref_in_world := GetLidarPointsInWorldFrameCombined ref use_initials in
            let tgt_in_world := GetLidarPointsInWorldFrameCombined tgt use_initials in
            (* then transform to the reference submap frame *)
            let T_SubmapRef_WorldInit := InvertTransform T_World_SubmapRef_Init in
            let ref_in_ref_submap_frame :=
              transformPointCloud ref_in_world T_SubmapRef_WorldInit in
            let tgt_in_ref_submap_frame :=
              transformPointCloud tgt_in_world T_SubmapRef_WorldInit in
            (* align *)
            let '(match_success, ApplyResult) :=
              matcher ref_in_ref_submap_frame tgt_in_ref_submap_frame in
            emit (Match_call match_success) ;;;
            let T_SubmapRef_SubmapTgt := ApplyResult T_SubmapRef_SubmapTgt_Init in
            when (negb (String.eqb output_path ""))
              (emit (SaveResults_call submap_output "submap_cloud_")) ;;;
            (* set new submap pose *)
            let T_World_SubmapTgt := T_World_SubmapRef ** T_SubmapRef_SubmapTgt in
            modify (set_global_map (fun submaps =>
              <[submap_tgt := Submap_UpdatePose T_World_SubmapTgt tgt]> submaps))
        end
    end ;;;
    let* tgt' := deref submap_tgt in
    let T_W_B_f := T_WORLD_SUBMAP tgt' in
    let result := RegistrationResult_new T_W_B_i T_W_B_f in
    modify (set_summary (emplace_submap_alignment (Stamp tgt') result)) ;;;
    ret true.

(** *** RunSubmapRefinement (lines 187-197) *)
Definition RunSubmapRefinement (output_path : string) : M GMR bool :=
  let* self := get in
  let size := length (global_map_ self) in
  let* r :=
    for_loop_return size
      (fun i => to_size_t i <? Z.of_nat size)
      (fun i => to_uint16_t (i + 1))
      (fun i =>
         let* submap := submaps_at size i in
         let* ok := RefineSubmap submap output_path in
         if negb ok then
           emit (BEAM_ERROR "Submap refinement failed, exiting.") ;;;
           ret (Some false)
         else ret None)
      0 in
  match r with
  | Some b => ret b
  | None => ret true
  end.

(** *** RunSubmapAlignment (lines 199-216) *)
Definition RunSubmapAlignment (output_path : string) : M GMR bool :=
  let* self := get in
  let size := length (global_map_ self) in
  if Z.of_nat size <? 2 then
    emit (BEAM_WARN
      "Not enough submaps to run submap alignment, at least two are needed") ;;;
    ret true
  else
    let* r :=
      for_loop_return size
        (fun i => to_size_t i <? Z.of_nat size)
        (fun i => to_uint16_t (i + 1))
        (fun i =>
           let* submap_ref := submaps_at size (to_int (i - 1)) in
           let* submap_tgt := submaps_at size i in
           let* ok := AlignSubmaps submap_ref submap_tgt output_path in
           if negb ok then
             emit (BEAM_ERROR "Submap alignment failed, exiting.") ;;;
             ret (Some false)
           else ret None)
        1 in
    match r with
    | Some b => ret b
    | None => ret true
    end.

(** *** RunPoseGraphOptimization (lines 364-484) *)

(** lines 385-397: add first pose prior *)
Definition pgo_add_prior (size : nat) (graph : HashGraph) : M GMR HashGraph :=
  let* p := submaps_at size 0 in
  let* first_submap := deref p in
  let* self := get in
  let prior_transaction :=
    AddPosePrior (Stamp first_submap) (T_WORLD_SUBMAP first_submap)
      (pose_prior_noise_ self) "GlobalMapRefinement::RunPoseGraphOptimization"
      (AddPoseVariables (Stamp first_submap) (T_WORLD_SUBMAP first_submap)
         Transaction_new) in
  graph_update_with graph prior_transaction.

(** lines 403-423: the body of the loop over the submaps after the first *)
Definition pgo_add_relative (size : nat) (i : Z) (graph : HashGraph)
    : M GMR HashGraph :=
  let* pc := submaps_at size i in
  let* current_submap := deref pc in
  let new_transaction :=
    AddPoseVariables (Stamp current_submap) (T_WORLD_SUBMAP current_submap)
      Transaction_new in
  (* If not first submap add constraint to previous *)
  if i <? 1 then ret graph
  else
    let* pp := submaps_at size (to_int (i - 1)) in
    let* previous_submap := deref pp in
    let* self := get in
    let T_PREVIOUS_CURRENT :=
      InvertTransform (T_WORLD_SUBMAP previous_submap)
      ** T_WORLD_SUBMAP current_submap in
    let new_transaction :=
      AddPoseConstraint (Stamp previous_submap) (Stamp current_submap)
        (TransformMatrixToVectorWithQuaternion T_PREVIOUS_CURRENT)
        (local_mapper_covariance (loop_closure (params_ self)))
        "GlobalMap::InitiateNewSubmapPose" new_transaction in
    graph_update_with graph new_transaction.

(** lines 382-424: the graph of the chain, before the sweep *)
Definition pgo_chain_graph (size : nat) : M GMR HashGraph :=
  let graph := HashGraph_new in
  let* graph := pgo_add_prior size graph in
  (* add all relative pose transactions *)
  for_loop size
    (fun i => to_size_t i <? Z.of_nat size)
    (fun i => to_int (i + 1))
    (pgo_add_relative size) 1 graph.

(** lines 453-478: the candidates of one query, in the order returned *)
Fixpoint pgo_candidates (size : nat) (lc_results_path_refinement : string)
    (query_index : Z) (candidates : list (Z * Matrix4d))
    (transaction : Transaction) : M GMR Transaction :=
  match candidates with
  | [] => ret transaction
  | (matched_index, T_MATCH_QUERY_i) :: rest =>
      if query_index - 1 <=? matched_index then
        emit (BEAM_ERROR "Error in candidate search implementation, please fix!") ;;;
        pgo_candidates size lc_results_path_refinement query_index rest transaction
      else
        let* pm := submaps_at size matched_index in
        let* matched_submap := deref pm in
        let* pq := submaps_at size query_index in
        let* query_submap := deref pq in
        let* self := get in
        let* refinement :=
          match loop_closure_refinement_ self with
          | Some r => ret r
          | None => throw null_dereference
          end in
        let results :=
          refinement matched_submap query_submap T_MATCH_QUERY_i
            lc_results_path_refinement in
        emit (RunRefinement_call matched_index query_index (successful results)) ;;;
        if negb (successful results) then
          pgo_candidates size lc_results_path_refinement query_index rest transaction
        else
          let new_transaction :=
            AddPoseConstraint (Stamp matched_submap) (Stamp query_submap)
              (TransformMatrixToVectorWithQuaternion (T_MATCH_QUERY results))
              (loop_closure_covariance (loop_closure (params_ self)))
              "GlobalMap::RunLoopClosure" Transaction_new in
          pgo_candidates size lc_results_path_refinement query_index rest
            (Transaction_merge transaction new_transaction)
  end.

(** lines 430-481: the body of the sweep *)
Definition pgo_query (size : nat)
    (lc_results_path_refinement lc_results_path_candidate_search : string)
    (query_index : Z) (graph : HashGraph) : M GMR HashGraph :=
  let use_initial_poses := false in
  (* ignore all submaps equal to or after the submap before query. *)
  let ignore_last_n_submaps :=
    to_int (to_size_t (Z.of_nat size - to_size_t query_index + 1)) in
  let* pq := submaps_at size query_index in
  let* query_submap := deref pq in
  let* self := get in
  let* candidate_search :=
    match loop_closure_candidate_search_ self with
    | Some c => ret c
    | None => throw null_dereference
    end in
  let candidates :=
    candidate_search (global_map_ self) query_submap ignore_last_n_submaps
      use_initial_poses lc_results_path_candidate_search in
  emit (FindRelocCandidates_call query_index ignore_last_n_submaps
          use_initial_poses (length candidates)) ;;;
  match candidates with
  | [] => ret graph
  | _ :: _ =>
      let* transaction :=
        pgo_candidates size lc_results_path_refinement query_index candidates
          Transaction_new in
      let* graph := graph_update_with graph transaction in
      emit graph_optimize ;;;
      let graph := HashGraph_optimize graph in
      emit UpdateSubmapPoses_call ;;;
      modify (set_global_map (UpdateSubmapPoses graph)) ;;;
      ret graph
  end.

Definition RunPoseGraphOptimization (output_path : string) : M GMR bool :=
  let* self := get in
  let size := length (global_map_ self) in
  let num_submaps := Z.of_nat size in
  when (num_submaps <=? to_size_t (pgo_skip_first_n_submaps_ self))
    (emit (BEAM_ERROR "Global map size {} not large enough to run PGO, must have at least {} submaps")) ;;;
  let lc_results_path_refinement := CombinePaths output_path "refinement" in
  let lc_results_path_candidate_search :=
    CombinePaths output_path "candidate_search" in
  fs_create_directory lc_results_path_refinement ;;;
  fs_create_directory lc_results_path_candidate_search ;;;
  let* graph := pgo_chain_graph size in
  (* now iterate through all submaps, check if loop closures can be run, and
     if so, update graph after each loop closure *)
  for_loop size
    (fun query_index => to_size_t query_index <? to_size_t (num_submaps - 1))
    (fun query_index => to_int (query_index + 1))
    (pgo_query size lc_results_path_refinement lc_results_path_candidate_search)
    (to_int (pgo_skip_first_n_submaps_ self)) graph ;;;
  ret true.

End Program.

(** ** Summary::Save (lines 98-125)

    The file [summary.json] as the values it holds: one object with the
    two arrays, each entry an object with the four keys. *)
Section SummarySave.
Context `{Collaborators}.

(** [ros::Time] is ordered by seconds, then nanoseconds; a [std::map] is
    iterated in ascending order of its keys. *)
Definition Time_le (a b : Time) : Prop :=
  sec a < sec b \/ (sec a = sec b /\ nsec a <= nsec b).

#[export] Instance Time_le_dec : RelDecision Time_le.
Proof. intros a b. unfold Time_le. apply _. Defined.

Definition key_le {V} (a b : Time * V) : Prop := Time_le (fst a) (fst b).

#[export] Instance key_le_dec {V} : RelDecision (@key_le V).
Proof. intros a b. unfold key_le. apply _. Defined.

Definition entries_in_order {V} (m : gmap Time V) : list (Time * V) :=
  merge_sort key_le (map_to_list m).

Record J_result : Type := {
  dt_mm : scalar;
  dR_deg : scalar;
  J_sec : Z;
  J_nsec : Z;
}.

Definition J_result_of (entry : Time * RegistrationResult) : J_result :=
  let '(stamp, result) := entry in
  {| dt_mm := dt result;
     dR_deg := dR result;
     J_sec := sec stamp;
     J_nsec := nsec stamp |}.

Record SummaryFile : Type := {
  summary_path : string;
  J_submap_refinement : list J_result;
  J_submap_alignment : list J_result;
}.

Definition Summary_Save (output_path : string) (summary : Summary) : SummaryFile :=
  {| summary_path := CombinePaths output_path "summary.json";
     J_submap_refinement := J_result_of <$> entries_in_order (submap_refinement summary);
     J_submap_alignment := J_result_of <$> entries_in_order (submap_alignment summary) |}.

End SummarySave.

(** ** Notions the statements use *)

(** A result with further events in front of its own. *)
Definition prepend {St A} (evs : list Event) (r : outcome A * St * list Event)
    : outcome A * St * list Event :=
  match r with (o, s, e) => (o, s, evs ++ e) end.

(** *** Reading the event list *)

Definition is_search (e : Event) : bool :=
  match e with FindRelocCandidates_call _ _ _ _ => true | _ => false end.

Definition is_solve (e : Event) : bool :=
  match e with graph_optimize => true | _ => false end.

Definition is_graph_update (e : Event) : bool :=
  match e with graph_update _ _ => true | _ => false end.

(** What the candidates of one query can leave: the error line of a
    rejected candidate, or a call of the refinement. *)
Definition is_candidate_event (e : Event) : bool :=
  match e with
  | BEAM_ERROR _ => true
  | RunRefinement_call _ _ _ => true
  | _ => false
  end.

Definition solves (evs : list Event) : nat := length (List.filter is_solve evs).

(** The searches that returned at least one candidate. *)
Definition fruitful_searches (evs : list Event) : nat :=
  length (List.filter (fun e => match e with
                           | FindRelocCandidates_call _ _ _ (S _) => true
                           | _ => false
                           end) evs).

(** The events up to the first candidate search, which is where the sweep
    begins. *)
Fixpoint before_first_search (evs : list Event) : list Event :=
  match evs with
  | [] => []
  | e :: rest => if is_search e then [] else e :: before_first_search rest
  end.

(** The searches made, as (query index, ignore window). *)
Definition find_calls (evs : list Event) : list (Z * Z) :=
  omap (fun e => match e with
                 | FindRelocCandidates_call q n _ _ => Some (q, n)
                 | _ => None
                 end) evs.

(** The refinements attempted, as (matched index, query index). *)
Definition refinement_calls (evs : list Event) : list (Z * Z) :=
  omap (fun e => match e with
                 | RunRefinement_call m q _ => Some (m, q)
                 | _ => None
                 end) evs.

Definition is_Returned {A} (o : outcome A) : bool :=
  match o with Returned _ => true | _ => false end.

Definition rejection : Event :=
  BEAM_ERROR "Error in candidate search implementation, please fix!".

(** What the candidates of query [q] may leave behind: error lines, and
    refinement calls for matched indices below [q - 1]. *)
Definition candidate_trace (q : Z) (e : Event) : Prop :=
  match e with
  | BEAM_ERROR _ => True
  | RunRefinement_call m q' _ => m < q - 1 /\ q' = q
  | _ => False
  end.

Definition ignore_window (size : nat) (q : Z) : Z :=
  to_int (to_size_t (Z.of_nat size - to_size_t q + 1)).

Definition returned_true {A} (o : outcome A) : outcome bool :=
  match o with
  | Returned _ => Returned true
  | Thrown e => Thrown e
  | Timeout => Timeout
  end.

Section Specification.
Context `{Collaborators}.

(** The guard at the head of RefineSubmap and AlignSubmaps. *)
Definition invalid_output_path (output_path : string) : bool :=
  negb (String.eqb output_path "") && negb (path_exists output_path).

Definition submap_output_of (output_path : string) (s : Submap) : string :=
  if String.eqb output_path "" then output_path
  else CombinePaths output_path (String.append "submap_" (toSec_to_string (Stamp s))).

(** The directory of the submap cannot be created. *)
Definition directory_fails (output_path : string) (s : Submap) : bool :=
  create_directory_fails (submap_output_of output_path s).

(** The pose AlignSubmaps gives the target: the current pose of the
    reference, composed with what the matcher makes of the initial relative
    pose. *)
Definition aligned (ref tgt : Submap) (ApplyResult : Matrix4d -> Matrix4d) : Matrix4d :=
  T_WORLD_SUBMAP ref **
  ApplyResult (InvertTransform (T_WORLD_SUBMAP_INIT ref) ** T_WORLD_SUBMAP_INIT tgt).

Definition after_alignment (pt : nat) (tgt : Submap) (T : Matrix4d) (self : GMR) : GMR :=
  set_summary
    (emplace_submap_alignment (Stamp tgt)
       (RegistrationResult_new (T_WORLD_SUBMAP tgt) T))
    (set_global_map (fun submaps => <[pt := Submap_UpdatePose T tgt]> submaps) self).

Definition alignment_events (output_path : string) (tgt : Submap) (ok : bool)
    : list Event :=
  create_directory (submap_output_of output_path tgt) :: Match_call ok ::
  (if negb (String.eqb output_path "")
   then [SaveResults_call (submap_output_of output_path tgt) "submap_cloud_"]
   else []).

(** *** The keys LoadJson requires *)

Definition json_section (J : json) (k : string) : json :=
  match J with
  | json_object ms => default json_null (members_find k ms)
  | _ => json_null
  end.

Definition required_keys_present (J : json) : bool :=
  forallb (json_contains J) ["loop_closure"; "submap_refinement"; "submap_alignment"]
  && forallb (json_contains (json_section J "loop_closure"))
       ["candidate_search_config"; "refinement_config";
        "local_mapper_covariance"; "loop_closure_covariance"]
  && forallb (json_contains (json_section J "submap_refinement"))
       ["scan_registration_config"; "matcher_config"]
  && forallb (json_contains (json_section J "submap_alignment")) ["matcher_config"].

Definition empty_summary : Summary :=
  {| submap_refinement := ∅; submap_alignment := ∅ |}.

(** *** The parts of RefineSubmap *)

(** The transactions the engine hands back for the keyframes of a submap,
    in order; a scan whose registration fails has none. *)
Fixpoint transactions (sr : ScanRegistration) (registered : list ScanPose)
    (keyframes : list (Z * ScanPose)) : list Transaction :=
  match keyframes with
  | [] => []
  | (_, scan_pose) :: rest =>
      match sr registered scan_pose with
      | Some t => t :: transactions sr (registered ++ [scan_pose]) rest
      | None => transactions sr (registered ++ [scan_pose]) rest
      end
  end.

Fixpoint registration_events (sr : ScanRegistration) (registered : list ScanPose)
    (keyframes : list (Z * ScanPose)) : list Event :=
  match keyframes with
  | [] => []
  | (_, scan_pose) :: rest =>
      match sr registered scan_pose with
      | Some t =>
          RegisterNewScan_call (ScanPose_Stamp scan_pose) true
          :: graph_update (length (added_variables t)) (length (added_constraints t))
          :: registration_events sr (registered ++ [scan_pose]) rest
      | None =>
          RegisterNewScan_call (ScanPose_Stamp scan_pose) false
          :: registration_events sr (registered ++ [scan_pose]) rest
      end
  end.

(** The local graph of a submap once it is solved. *)
Definition refined_graph (sr : ScanRegistration) (s : Submap) : HashGraph :=
  HashGraph_optimize
    (foldl HashGraph_update HashGraph_new (transactions sr [] (lidar_keyframe_poses s))).

(** The object after RefineSubmap has run on the submap at [p]. *)
Definition after_refinement (sr : ScanRegistration) (p : nat) (s : Submap)
    (self : GMR) : GMR :=
  let '(keyframes, summary) :=
    update_scan_poses (refined_graph sr s) (lidar_keyframe_poses s) (summary_ self) in
  set_summary (fun _ => summary)
    (set_global_map (fun submaps => <[p := Submap_set_keyframes keyframes s]> submaps)
       self).

(** The engine RefineSubmap asks for. *)
Definition refinement_engine (output_path : string) (s : Submap) (self : GMR)
    : exception + ScanRegistration :=
  ScanRegistrationBase_Create
    (scan_registration_config (submap_refinement_params (params_ self)))
    (refinement_matcher_config (submap_refinement_params (params_ self)))
    (submap_output_of output_path s) true.

(** The entry the summary gets for a scan: its pose before the solve
    against its pose after. *)
Definition refinement_entry (graph : HashGraph) (scan_pose : ScanPose)
    : RegistrationResult :=
  RegistrationResult_new (T_REFFRAME_BASELINK scan_pose)
    (T_REFFRAME_BASELINK (ScanPose_UpdatePose graph scan_pose)).

(** One step of the loop that writes the summary. *)
Definition summary_step (graph : HashGraph)
    (m : gmap Time RegistrationResult) (kv : Z * ScanPose)
    : gmap Time RegistrationResult :=
  emplace (ScanPose_Stamp (snd kv)) (refinement_entry graph (snd kv)) m.

(** *** The parts of RunPoseGraphOptimization *)

(** One of the two directories of the results cannot be created. *)
Definition pgo_directories_fail (output_path : string) : bool :=
  create_directory_fails (CombinePaths output_path "refinement")
  || create_directory_fails (CombinePaths output_path "candidate_search").

(** The first of the two that cannot. *)
Definition pgo_failed_directory (output_path : string) : string :=
  if create_directory_fails (CombinePaths output_path "refinement")
  then CombinePaths output_path "refinement"
  else CombinePaths output_path "candidate_search".

(** What it leaves before it touches the graph: the error line when there
    are no more submaps than are skipped, and the directories it has
    created. *)
Definition pgo_preamble (output_path : string) (self : GMR) : list Event :=
  (if Z.of_nat (length (global_map_ self)) <=? to_size_t (pgo_skip_first_n_submaps_ self)
   then [BEAM_ERROR
           "Global map size {} not large enough to run PGO, must have at least {} submaps"]
   else [])
  ++ (if create_directory_fails (CombinePaths output_path "refinement") then []
      else create_directory (CombinePaths output_path "refinement")
           :: (if create_directory_fails (CombinePaths output_path "candidate_search")
               then []
               else [create_directory (CombinePaths output_path "candidate_search")])).

(** Lines 428-482: the sweep, started on the graph of the chain. *)
Definition pgo_sweep (output_path : string) (size : nat) (skip : Z)
    (graph : HashGraph) : M GMR HashGraph :=
  for_loop size
    (fun query_index => to_size_t query_index <? to_size_t (Z.of_nat size - 1))
    (fun query_index => to_int (query_index + 1))
    (pgo_query size (CombinePaths output_path "refinement")
       (CombinePaths output_path "candidate_search"))
    (to_int skip) graph.

(** The searches the sweep should make: one for each query index from the
    number skipped up to the index of the second-to-last submap, each with
    the ignore window "number of submaps - query index + 1". *)
Definition expected_searches (size : nat) (skip : Z) : list (Z * Z) :=
  (fun q => (q, Z.of_nat size - q + 1)) <$> seqZ skip (Z.of_nat size - 1 - skip).

(** An event that is neither a candidate search nor a solve. *)
Definition quiet (e : Event) : Prop := is_search e = false /\ is_solve e = false.

(** *** The chain graph, read off the list of submaps *)

Definition prior_transaction (noise : scalar) (first_submap : Submap) : Transaction :=
  AddPosePrior (Stamp first_submap) (T_WORLD_SUBMAP first_submap) noise
    "GlobalMapRefinement::RunPoseGraphOptimization"
    (AddPoseVariables (Stamp first_submap) (T_WORLD_SUBMAP first_submap)
       Transaction_new).

Definition relative_constraint (cov : Matrix6d) (previous current : Submap)
    : Constraint :=
  RelativePose3DStampedConstraint (Stamp previous) (Stamp current)
    (TransformMatrixToVectorWithQuaternion
       (InvertTransform (T_WORLD_SUBMAP previous) ** T_WORLD_SUBMAP current))
    cov "GlobalMap::InitiateNewSubmapPose".

Definition relative_transaction (cov : Matrix6d) (previous current : Submap)
    : Transaction :=
  {| added_variables := [(Stamp current, T_WORLD_SUBMAP current)];
     added_constraints := [relative_constraint cov previous current] |}.

(** One relative transaction for each submap and its successor, in order. *)
Fixpoint chain_graph (cov : Matrix6d) (g : HashGraph) (submaps : list Submap)
    : HashGraph :=
  match submaps with
  | previous :: ((current :: _) as rest) =>
      chain_graph cov (HashGraph_update g (relative_transaction cov previous current)) rest
  | _ => g
  end.

Fixpoint relative_constraints (cov : Matrix6d) (submaps : list Submap)
    : list Constraint :=
  match submaps with
  | previous :: ((current :: _) as rest) =>
      relative_constraint cov previous current :: relative_constraints cov rest
  | _ => []
  end.

Definition is_prior (c : Constraint) : bool :=
  match c with AbsolutePose3DStampedConstraint _ _ _ _ => true | _ => false end.

End Specification.

(** ** Notions for the stages as a whole *)

(** The refinements that succeeded. *)
Definition successful_refinements (evs : list Event) : nat :=
  length (List.filter (fun e => match e with
                           | RunRefinement_call _ _ true => true
                           | _ => false
                           end) evs).

(** What the sweep leaves, query by query: a search without candidates
    and nothing else; or a search with candidates, what its candidates
    leave, the update of the graph by the transaction of this query (no
    variable, one constraint for each refinement that succeeded), the
    solve and the poses written back, in this order; or, last of all, a
    search with candidates whose candidates end in an exception. *)
Inductive sweep_trace : list Event -> Prop :=
| sweep_done : sweep_trace []
| sweep_no_candidate q n rest :
    sweep_trace rest ->
    sweep_trace (FindRelocCandidates_call q n false 0 :: rest)
| sweep_solved q n k ce rest :
    Forall (candidate_trace q) ce ->
    sweep_trace rest ->
    sweep_trace (FindRelocCandidates_call q n false (S k)
                 :: ce ++ graph_update 0 (successful_refinements ce)
                 :: graph_optimize :: UpdateSubmapPoses_call :: rest)
| sweep_aborted q n k ce :
    Forall (candidate_trace q) ce ->
    sweep_trace (FindRelocCandidates_call q n false (S k) :: ce).

Section StageSpecification.
Context `{Collaborators}.

(** The members no stage assigns: the parameters, the matchers, the
    loop-closure objects and the two settings of the pose-graph stage. *)
Definition same_setup (a b : GMR) : Prop :=
  params_ b = params_ a
  /\ matcher_loam_ b = matcher_loam_ a
  /\ matcher_ b = matcher_ a
  /\ loop_closure_candidate_search_ b = loop_closure_candidate_search_ a
  /\ loop_closure_refinement_ b = loop_closure_refinement_ a
  /\ pgo_skip_first_n_submaps_ b = pgo_skip_first_n_submaps_ a
  /\ pose_prior_noise_ b = pose_prior_noise_ a.

(** What of a scan keyframe is not its pose. *)
Definition scan_identity (kv : Z * ScanPose) : Z * Time * PointCloud :=
  (fst kv, ScanPose_Stamp (snd kv), Cloud (snd kv)).

(** What the refinement stage leaves alone. *)
Definition refinement_frame (a b : GMR) : Prop :=
  same_setup a b
  /\ Stamp <$> global_map_ b = Stamp <$> global_map_ a
  /\ T_WORLD_SUBMAP <$> global_map_ b = T_WORLD_SUBMAP <$> global_map_ a
  /\ T_WORLD_SUBMAP_INIT <$> global_map_ b = T_WORLD_SUBMAP_INIT <$> global_map_ a
  /\ (fun s => scan_identity <$> lidar_keyframe_poses s) <$> global_map_ b
     = (fun s => scan_identity <$> lidar_keyframe_poses s) <$> global_map_ a
  /\ submap_alignment (summary_ b) = submap_alignment (summary_ a).

(** What the alignment stage leaves alone. *)
Definition alignment_frame (a b : GMR) : Prop :=
  same_setup a b
  /\ Stamp <$> global_map_ b = Stamp <$> global_map_ a
  /\ T_WORLD_SUBMAP_INIT <$> global_map_ b = T_WORLD_SUBMAP_INIT <$> global_map_ a
  /\ lidar_keyframe_poses <$> global_map_ b = lidar_keyframe_poses <$> global_map_ a
  /\ submap_refinement (summary_ b) = submap_refinement (summary_ a).

(** What the pose-graph stage leaves alone. *)
Definition pgo_frame (a b : GMR) : Prop :=
  same_setup a b
  /\ Stamp <$> global_map_ b = Stamp <$> global_map_ a
  /\ T_WORLD_SUBMAP_INIT <$> global_map_ b = T_WORLD_SUBMAP_INIT <$> global_map_ a
  /\ lidar_keyframe_poses <$> global_map_ b = lidar_keyframe_poses <$> global_map_ a
  /\ summary_ b = summary_ a.

(** *** The alignment stage, read off the list of submaps *)

(** The matcher AlignSubmaps runs on a pair: the loam matcher when there
    is one, else the other one, each on its kind of cloud, both clouds
    taken in the initial world frame and moved to the frame of the
    reference. *)
Definition alignment_matcher (self : GMR)
    : option (Submap -> Submap -> bool * (Matrix4d -> Matrix4d)) :=
  match matcher_loam_ self with
  | Some m =>
      Some (fun ref tgt =>
        m (TransformPointCloud (GetLidarLoamPointsInWorldFrame ref true)
             (InvertTransform (T_WORLD_SUBMAP_INIT ref)))
          (TransformPointCloud (GetLidarLoamPointsInWorldFrame tgt true)
             (InvertTransform (T_WORLD_SUBMAP_INIT ref))))
  | None =>
      match matcher_ self with
      | Some m =>
          Some (fun ref tgt =>
            m (transformPointCloud (GetLidarPointsInWorldFrameCombined ref true)
                 (InvertTransform (T_WORLD_SUBMAP_INIT ref)))
              (transformPointCloud (GetLidarPointsInWorldFrameCombined tgt true)
                 (InvertTransform (T_WORLD_SUBMAP_INIT ref))))
      | None => None
      end
  end.

Section Chain.
Variable mt : Submap -> Submap -> bool * (Matrix4d -> Matrix4d).

(** The target once it is aligned to the reference. *)
Definition align_one (ref tgt : Submap) : Submap :=
  Submap_UpdatePose (aligned ref tgt (snd (mt ref tgt))) tgt.

(** Each submap aligned to its predecessor as the alignment left it. *)
Fixpoint align_chain (ref : Submap) (rest : list Submap) : list Submap :=
  match rest with
  | [] => []
  | tgt :: rest' => align_one ref tgt :: align_chain (align_one ref tgt) rest'
  end.

Fixpoint align_summary (ref : Submap) (rest : list Submap)
    (m : gmap Time RegistrationResult) : gmap Time RegistrationResult :=
  match rest with
  | [] => m
  | tgt :: rest' =>
      align_summary (align_one ref tgt) rest'
        (emplace (Stamp tgt)
           (RegistrationResult_new (T_WORLD_SUBMAP tgt)
              (aligned ref tgt (snd (mt ref tgt)))) m)
  end.

Fixpoint align_events (output_path : string) (ref : Submap) (rest : list Submap)
    : list Event :=
  match rest with
  | [] => []
  | tgt :: rest' =>
      alignment_events output_path tgt (fst (mt ref tgt))
      ++ align_events output_path (align_one ref tgt) rest'
  end.

End Chain.

(** *** The refinement stage, read off the list of submaps *)

Definition engine_fails (output_path : string) (self : GMR) (s : Submap) : bool :=
  match refinement_engine output_path s self with
  | inl _ => true
  | inr _ => false
  end.

(** RefineSubmap cannot get past its setup for this submap: the directory
    of the submap cannot be created or no engine can be made. *)
Definition setup_fails (output_path : string) (self : GMR) (s : Submap) : bool :=
  directory_fails output_path s || engine_fails output_path self s.

(** A submap once RefineSubmap has run on it: every scan has the pose the
    solved graph of this submap gives it. *)
Definition refined_submap (output_path : string) (self : GMR) (s : Submap) : Submap :=
  match refinement_engine output_path s self with
  | inr sr =>
      Submap_set_keyframes
        ((fun kv => (fst kv, ScanPose_UpdatePose (refined_graph sr s) (snd kv)))
           <$> lidar_keyframe_poses s) s
  | inl _ => s
  end.

(** The refinement summary once RefineSubmap has run on a submap. *)
Definition refined_summary (output_path : string) (self : GMR)
    (m : gmap Time RegistrationResult) (s : Submap) : gmap Time RegistrationResult :=
  match refinement_engine output_path s self with
  | inr sr => foldl (summary_step (refined_graph sr s)) m (lidar_keyframe_poses s)
  | inl _ => m
  end.

Definition refinement_events (output_path : string) (self : GMR) (s : Submap)
    : list Event :=
  create_directory (submap_output_of output_path s) ::
  match refinement_engine output_path s self with
  | inr sr => registration_events sr [] (lidar_keyframe_poses s) ++ [graph_optimize]
  | inl _ => []
  end.

(** *** The constraints of the sweep *)

(** A loop closure of query [q]: a relative pose between the stamp of a
    submap that lies before the predecessor of the query and the stamp of
    the query, with the loop closure covariance. *)
Definition is_loop_closure (self : GMR) (q : Z) (c : Constraint) : Prop :=
  exists m t_match t_query delta,
    m < q - 1
    /\ (Stamp <$> global_map_ self) !! Z.to_nat (to_size_t m) = Some t_match
    /\ (Stamp <$> global_map_ self) !! Z.to_nat (to_size_t q) = Some t_query
    /\ c = RelativePose3DStampedConstraint t_match t_query delta
             (loop_closure_covariance (loop_closure (params_ self)))
             "GlobalMap::RunLoopClosure".

(** Every submap has the pose the solver gave its stamp in [graph]. *)
Definition poses_solved_by (graph : HashGraph) (self : GMR) : Prop :=
  Forall (fun s => T_WORLD_SUBMAP s = solve graph (Stamp s)) (global_map_ self).

(** The graph has a variable for the stamp of every submap. *)
Definition graph_covers (graph : HashGraph) (self : GMR) : Prop :=
  Forall (fun t => is_Some (variables graph !! t)) (Stamp <$> global_map_ self).

(** The graph of the chain followed by loop closures of the sweep. *)
Definition chain_with_loop_closures (self : GMR) (graph : HashGraph) : Prop :=
  exists first rest cs,
    global_map_ self = first :: rest
    /\ constraints graph =
         AbsolutePose3DStampedConstraint (Stamp first) (T_WORLD_SUBMAP first)
           (pose_prior_noise_ self) "GlobalMapRefinement::RunPoseGraphOptimization"
         :: relative_constraints (local_mapper_covariance (loop_closure (params_ self)))
              (global_map_ self)
         ++ cs
    /\ Forall (fun c => exists q, is_loop_closure self q c) cs.

(** *** The loops of the two submap stages, for any fuel *)

(** lines 188-195 *)
Definition refinement_loop (output_path : string) (size : nat) (fuel : nat)
    : Z -> M GMR (option bool) :=
  for_loop_return fuel
    (fun i => to_size_t i <? Z.of_nat size)
    (fun i => to_uint16_t (i + 1))
    (fun i =>
       let* submap := submaps_at size i in
       let* ok := RefineSubmap submap output_path in
       if negb ok then
         emit (BEAM_ERROR "Submap refinement failed, exiting.") ;;;
         ret (Some false)
       else ret None).

(** lines 207-214 *)
Definition alignment_loop (output_path : string) (size : nat) (fuel : nat)
    : Z -> M GMR (option bool) :=
  for_loop_return fuel
    (fun i => to_size_t i <? Z.of_nat size)
    (fun i => to_uint16_t (i + 1))
    (fun i =>
       let* submap_ref := submaps_at size (to_int (i - 1)) in
       let* submap_tgt := submaps_at size i in
       let* ok := AlignSubmaps submap_ref submap_tgt output_path in
       if negb ok then
         emit (BEAM_ERROR "Submap alignment failed, exiting.") ;;;
         ret (Some false)
       else ret None).

(** *** What LoadJson makes of a configuration *)

(** A path read from the file: an empty entry keeps what the parameter
    holds, any other entry is taken relative to the configuration root. *)
Definition config_path_of (rel current : string) : string :=
  if String.eqb rel "" then current else CombinePaths GetBeamSlamConfigPath rel.

Definition loaded_loop_closure (cs rc : string) (lm lc : scalar)
    (p : LoopClosureParams) : LoopClosureParams :=
  {| candidate_search_config := config_path_of cs (candidate_search_config p);
     refinement_config := config_path_of rc (refinement_config p);
     local_mapper_covariance := Identity6_times lm;
     loop_closure_covariance := Identity6_times lc |}.

Definition loaded_submap_refinement (sr mc : string)
    (p : SubmapRefinementParams) : SubmapRefinementParams :=
  {| scan_registration_config := config_path_of sr (scan_registration_config p);
     refinement_matcher_config := config_path_of mc (refinement_matcher_config p) |}.

Definition loaded_submap_alignment (amc : string)
    (p : SubmapAlignmentParams) : SubmapAlignmentParams :=
  {| alignment_matcher_config := config_path_of amc (alignment_matcher_config p) |}.

(** The loop-closure section holds two strings and two numbers. *)
Definition loop_closure_section (J : json) (cs rc : string) (lm lc : scalar) : Prop :=
  json_section (json_section J "loop_closure") "candidate_search_config" = json_string cs
  /\ json_section (json_section J "loop_closure") "refinement_config" = json_string rc
  /\ json_section (json_section J "loop_closure") "local_mapper_covariance"
     = json_number lm
  /\ json_section (json_section J "loop_closure") "loop_closure_covariance"
     = json_number lc.

(** *** Reading the summary file *)

Definition Time_lt (a b : Time) : Prop :=
  sec a < sec b \/ (sec a = sec b /\ nsec a < nsec b).

Definition J_stamp (e : J_result) : Time := (J_sec e, J_nsec e).

(** The summary entry an entry of the file stands for. *)
Definition read_back (e : J_result) : Time * RegistrationResult :=
  (J_stamp e, {| dR := dR_deg e; dt := dt_mm e |}).

End StageSpecification.
(** ** A concrete instance

    Transforms along one axis: a pose is an integer offset, composition is
    addition and inversion is negation.  Clouds are lists of offsets. *)
Module Line.

#[export] Instance geometry : Geometry := {|
  Matrix4d := Z;
  Matrix4d_mul := Z.add;
  InvertTransform := Z.opp;
  scalar := Z;
  rotation_deg := fun _ => 0;
  translation_mm := fun T => Z.abs T * 1000;
  Matrix6d := Z;
  Identity6_times := fun d => d;
  Vector7d := Z;
  TransformMatrixToVectorWithQuaternion := fun T => T;
  PointCloud := list Z;
  transformPointCloud := fun c T => map (Z.add T) c;
  LoamPointCloud := list Z;
  TransformPointCloud := fun c T => map (Z.add T) c;
|}.

(** What varies from one run to the next.  One directory exists; a
    directory can be created below it and nowhere else. *)
Record Scenario : Type := {
  existing_path : string;
  config : option json;
  matcher_type : MatcherType;
  match_success : bool;
  registers : Time -> bool;
  candidates_of : Time -> list (Z * Z);
  refinement_successful : bool;
  skip_first_n : Z;
}.

Definition world_cloud (s : Submap) (use_initials : bool) : list Z :=
  map (fun kv => (if use_initials then T_WORLD_SUBMAP_INIT s else T_WORLD_SUBMAP s)
                 + T_REFFRAME_BASELINK (snd kv))
      (lidar_keyframe_poses s).

Definition params0 : Params :=
  {| loop_closure :=
       {| candidate_search_config := ""; refinement_config := "";
          local_mapper_covariance := 10; loop_closure_covariance := 1 |};
     submap_refinement_params :=
       {| scan_registration_config := ""; refinement_matcher_config := "" |};
     submap_alignment_params := {| alignment_matcher_config := "" |} |}.

Definition collaborators (sc : Scenario) : Collaborators := {|
  path_exists := fun p => String.eqb p (existing_path sc);
  create_directory_fails := fun p =>
    String.eqb p "" || negb (String.prefix (String.append (existing_path sc) "/") p);
  create_directory_empty := eq_refl;
  CombinePaths := fun a b => String.append a (String.append "/" b);
  ReadJson := fun p => if String.eqb p "config.json" then config sc else None;
  GetBeamSlamConfigPath := "/config";
  GetAbsoluteConfigPathFromJson := fun _ _ => "/config/ceres.json";
  toSec_to_string := fun _ => "t";
  GetTypeFromConfig := fun _ => matcher_type sc;
  LoamMatcher_new := fun _ _ _ _ => (match_success sc, fun seed => seed + 1);
  IcpMatcher_new := fun _ _ _ => (match_success sc, fun seed => seed + 1);
  GicpMatcher_new := fun _ _ _ => (match_success sc, fun seed => seed + 1);
  NdtMatcher_new := fun _ _ _ => (match_success sc, fun seed => seed + 1);
  RelocCandidateSearchBase_Create := fun _ _ query _ _ _ =>
    candidates_of sc (Stamp query);
  RelocRefinementBase_Create := fun _ _ _ T _ =>
    {| T_MATCH_QUERY := T; successful := refinement_successful sc |};
  ScanRegistrationBase_Create := fun _ _ _ _ =>
    inr (fun _ scan =>
      if registers sc (ScanPose_Stamp scan) then
        Some (AddPosePrior (ScanPose_Stamp scan) (T_REFFRAME_BASELINK scan) 1 "scan"
                (AddPoseVariables (ScanPose_Stamp scan) (T_REFFRAME_BASELINK scan)
                   Transaction_new))
      else None);
  GetLidarLoamPointsInWorldFrame := world_cloud;
  GetLidarPointsInWorldFrameCombined := world_cloud;
  solve := fun g k => default 0 (variables g !! k) + 1;
  default_Params := params0;
  default_pgo_skip_first_n_submaps := skip_first_n sc;
  default_pose_prior_noise := 1;
|}.

Definition scan (t : Z) (pose : Z) : Z * ScanPose :=
  (t, {| ScanPose_Stamp := (t, 0); T_REFFRAME_BASELINK := pose; Cloud := [0] |}).

Definition submap (t : Z) (pose : Z) (scans : list (Z * ScanPose)) : Submap :=
  {| Stamp := (t, 0); T_WORLD_SUBMAP := pose; T_WORLD_SUBMAP_INIT := pose;
     lidar_keyframe_poses := scans |}.

(** Three submaps ten apart, two scans each. *)
Definition three_submaps : list Submap :=
  [submap 100 0 [scan 101 1; scan 102 2];
   submap 200 10 [scan 201 1; scan 202 2];
   submap 300 20 [scan 301 1; scan 302 2]].

Definition good_config : json :=
  json_object
    [("loop_closure", json_object
        [("candidate_search_config", json_string "");
         ("refinement_config", json_string "");
         ("local_mapper_covariance", json_number 10);
         ("loop_closure_covariance", json_number 1)]);
     ("submap_refinement", json_object
        [("scan_registration_config", json_string "");
         ("matcher_config", json_string "")]);
     ("submap_alignment", json_object [("matcher_config", json_string "icp.json")])].

Definition base : Scenario :=
  {| existing_path := "/out";
     config := Some good_config;
     matcher_type := ICP;
     match_success := true;
     registers := fun _ => true;
     candidates_of := fun _ => [];
     refinement_successful := true;
     skip_first_n := 2 |}.

(** The object a successful construction leaves, for a scenario whose
    matcher type is valid. *)
Definition constructed (sc : Scenario) (submaps : list Submap) : GlobalMapRefinement :=
  state_of (@GlobalMapRefinement_new geometry (collaborators sc) submaps params0).

(** Every call of [Match] reports failure. *)
Definition matcher_fails : Scenario :=
  {| existing_path := "/out";
     config := Some good_config;
     matcher_type := ICP;
     match_success := false;
     registers := fun _ => true;
     candidates_of := fun _ => [];
     refinement_successful := true;
     skip_first_n := 2 |}.

(** The LOAM matcher, where [base] has ICP. *)
Definition loam : Scenario :=
  {| existing_path := "/out";
     config := Some good_config;
     matcher_type := LOAM;
     match_success := true;
     registers := fun _ => true;
     candidates_of := fun _ => [];
     refinement_successful := true;
     skip_first_n := 2 |}.

(** No scan registers. *)
Definition registration_fails : Scenario :=
  {| existing_path := "/out";
     config := Some good_config;
     matcher_type := ICP;
     match_success := true;
     registers := fun _ => false;
     candidates_of := fun _ => [];
     refinement_successful := true;
     skip_first_n := 2 |}.

(** The sweep starts at the first submap and the search finds nothing. *)
Definition sweep_finds_nothing : Scenario :=
  {| existing_path := "/out";
     config := Some good_config;
     matcher_type := ICP;
     match_success := true;
     registers := fun _ => true;
     candidates_of := fun _ => [];
     refinement_successful := true;
     skip_first_n := 0 |}.

(** The search for the submap stamped 300 returns submap 0, then 2 and 1,
    which are too close to the query. *)
Definition sweep_finds_loop : Scenario :=
  {| existing_path := "/out";
     config := Some good_config;
     matcher_type := ICP;
     match_success := true;
     registers := fun _ => true;
     candidates_of := fun t => if fst t =? 300 then [(0, -20); (2, 5); (1, 3)] else [];
     refinement_successful := true;
     skip_first_n := 0 |}.

(** The matcher configuration names no known matcher. *)
Definition unknown_matcher : Scenario :=
  {| existing_path := "/out";
     config := Some good_config;
     matcher_type := UNKNOWN;
     match_success := true;
     registers := fun _ => true;
     candidates_of := fun _ => [];
     refinement_successful := true;
     skip_first_n := 2 |}.

(** The configuration lacks the section submap_alignment. *)
Definition config_without_alignment : json :=
  json_object
    [("loop_closure", json_object
        [("candidate_search_config", json_string "");
         ("refinement_config", json_string "");
         ("local_mapper_covariance", json_number 10);
         ("loop_closure_covariance", json_number 1)]);
     ("submap_refinement", json_object
        [("scan_registration_config", json_string "");
         ("matcher_config", json_string "")])].

Definition missing_key : Scenario :=
  {| existing_path := "/out";
     config := Some config_without_alignment;
     matcher_type := ICP;
     match_success := true;
     registers := fun _ => true;
     candidates_of := fun _ => [];
     refinement_successful := true;
     skip_first_n := 2 |}.

Definition four_submaps : list Submap := three_submaps ++ [submap 400 30 []].

End Line.
(** ** Further cases on the line *)
Module LineCases.
Import Line.

(** As [base], but no engine can be made for the submap stamped [bad]:
    its output directory is told apart by its name, and the factory throws
    on it. *)
Definition engine_fails_for (bad : Z) : Collaborators :=
  let c := collaborators base in
  {| path_exists := @path_exists _ c;
     create_directory_fails := @create_directory_fails _ c;
     create_directory_empty := @create_directory_empty _ c;
     CombinePaths := @CombinePaths _ c;
     ReadJson := @ReadJson _ c;
     GetBeamSlamConfigPath := @GetBeamSlamConfigPath _ c;
     GetAbsoluteConfigPathFromJson := @GetAbsoluteConfigPathFromJson _ c;
     toSec_to_string := fun t => if fst t =? bad then "bad" else "t";
     GetTypeFromConfig := @GetTypeFromConfig _ c;
     LoamMatcher_new := @LoamMatcher_new _ c;
     IcpMatcher_new := @IcpMatcher_new _ c;
     GicpMatcher_new := @GicpMatcher_new _ c;
     NdtMatcher_new := @NdtMatcher_new _ c;
     RelocCandidateSearchBase_Create := @RelocCandidateSearchBase_Create _ c;
     RelocRefinementBase_Create := @RelocRefinementBase_Create _ c;
     ScanRegistrationBase_Create := fun a b out d =>
       if String.eqb out "/out/submap_bad" then inl (runtime_error "no engine")
       else @ScanRegistrationBase_Create _ c a b out d;
     GetLidarLoamPointsInWorldFrame := @GetLidarLoamPointsInWorldFrame _ c;
     GetLidarPointsInWorldFrameCombined := @GetLidarPointsInWorldFrameCombined _ c;
     solve := @solve _ c;
     default_Params := @default_Params _ c;
     default_pgo_skip_first_n_submaps := @default_pgo_skip_first_n_submaps _ c;
     default_pose_prior_noise := @default_pose_prior_noise _ c |}.

(** As the scenario, but with matchers that look at their clouds: the
    refined transform is the seed moved by the offset between the first
    points of the two clouds. *)
Definition cloud_matcher (ref tgt : list Z) : bool * (Z -> Z) :=
  (true, fun seed => seed + (hd 0 tgt - hd 0 ref)).

Definition with_cloud_matcher (sc : Scenario) : Collaborators :=
  let c := collaborators sc in
  {| path_exists := @path_exists _ c;
     create_directory_fails := @create_directory_fails _ c;
     create_directory_empty := @create_directory_empty _ c;
     CombinePaths := @CombinePaths _ c;
     ReadJson := @ReadJson _ c;
     GetBeamSlamConfigPath := @GetBeamSlamConfigPath _ c;
     GetAbsoluteConfigPathFromJson := @GetAbsoluteConfigPathFromJson _ c;
     toSec_to_string := @toSec_to_string _ c;
     GetTypeFromConfig := @GetTypeFromConfig _ c;
     LoamMatcher_new := fun _ _ => cloud_matcher;
     IcpMatcher_new := fun _ => cloud_matcher;
     GicpMatcher_new := fun _ => cloud_matcher;
     NdtMatcher_new := fun _ => cloud_matcher;
     RelocCandidateSearchBase_Create := @RelocCandidateSearchBase_Create _ c;
     RelocRefinementBase_Create := @RelocRefinementBase_Create _ c;
     ScanRegistrationBase_Create := @ScanRegistrationBase_Create _ c;
     GetLidarLoamPointsInWorldFrame := @GetLidarLoamPointsInWorldFrame _ c;
     GetLidarPointsInWorldFrameCombined := @GetLidarPointsInWorldFrameCombined _ c;
     solve := @solve _ c;
     default_Params := @default_Params _ c;
     default_pgo_skip_first_n_submaps := @default_pgo_skip_first_n_submaps _ c;
     default_pose_prior_noise := @default_pose_prior_noise _ c |}.

(** Two submaps whose poses have moved since they were first placed: the
    reference from 5 to 3, the target from 10 to 14. *)
Definition drifted_reference : Submap :=
  {| Stamp := (100, 0); T_WORLD_SUBMAP := 3; T_WORLD_SUBMAP_INIT := 5;
     lidar_keyframe_poses := [scan 101 1; scan 102 2] |}.

Definition drifted_target : Submap :=
  {| Stamp := (200, 0); T_WORLD_SUBMAP := 14; T_WORLD_SUBMAP_INIT := 10;
     lidar_keyframe_poses := [scan 201 3; scan 202 4] |}.

Definition drifted_submaps : list Submap := [drifted_reference; drifted_target].


(** 2^16 submaps without scans, one apart. *)
Definition plain : Submap := submap 100 0 [].

Definition after_the_first : list Submap := replicate (Z.to_nat (2 ^ 16 - 1)) plain.

Definition many_submaps : list Submap := plain :: after_the_first ++ [].

(** The entry scan_registration_config holds a number. *)
Definition config_with_number : json :=
  json_object
    [("loop_closure", json_object
        [("candidate_search_config", json_string "search.json");
         ("refinement_config", json_string "");
         ("local_mapper_covariance", json_number 10);
         ("loop_closure_covariance", json_number 1)]);
     ("submap_refinement", json_object
        [("scan_registration_config", json_number 3);
         ("matcher_config", json_string "")]);
     ("submap_alignment", json_object [("matcher_config", json_string "icp.json")])].

Definition mistyped : Scenario :=
  {| existing_path := "/out";
     config := Some config_with_number;
     matcher_type := ICP;
     match_success := true;
     registers := fun _ => true;
     candidates_of := fun _ => [];
     refinement_successful := true;
     skip_first_n := 2 |}.

End LineCases.

(** * Properties *)

(** ** The monad *)
Section MonadLaws.
Context {St : Type}.

Lemma prepend_nil {A} (r : outcome A * St * list Event) : prepend [] r = r.
Proof. destruct r as [[o s] e]. reflexivity. Qed.

Lemma prepend_prepend {A} e1 e2 (r : outcome A * St * list Event) :
  prepend e1 (prepend e2 r) = prepend (e1 ++ e2) r.
Proof. destruct r as [[o s] e]. simpl. by rewrite app_assoc. Qed.

Lemma result_of_prepend {A} evs (r : outcome A * St * list Event) :
  result_of (prepend evs r) = result_of r.
Proof. by destruct r as [[o s] e]. Qed.

Lemma state_of_prepend {A} evs (r : outcome A * St * list Event) :
  state_of (prepend evs r) = state_of r.
Proof. by destruct r as [[o s] e]. Qed.

Lemma events_of_prepend {A} evs (r : outcome A * St * list Event) :
  events_of (prepend evs r) = evs ++ events_of r.
Proof. by destruct r as [[o s] e]. Qed.

Lemma bind_Returned {A B} (m : M St A) (f : A -> M St B) s a s1 e1 :
  m s = (Returned a, s1, e1) -> bind m f s = prepend e1 (f a s1).
Proof. intros E. unfold bind. rewrite E. by destruct (f a s1) as [[o s2] e2]. Qed.

Lemma bind_Thrown {A B} (m : M St A) (f : A -> M St B) s e s1 e1 :
  m s = (Thrown e, s1, e1) -> bind m f s = (Thrown e, s1, e1).
Proof. intros E. unfold bind. by rewrite E. Qed.

Lemma bind_Timeout {A B} (m : M St A) (f : A -> M St B) s s1 e1 :
  m s = (Timeout, s1, e1) -> bind m f s = (Timeout, s1, e1).
Proof. intros E. unfold bind. by rewrite E. Qed.

Lemma bind_ret {A B} (a : A) (f : A -> M St B) s : bind (ret a) f s = f a s.
Proof. erewrite bind_Returned by reflexivity. apply prepend_nil. Qed.

Lemma bind_emit {B} ev (f : unit -> M St B) s :
  bind (emit ev) f s = prepend [ev] (f tt s).
Proof. by erewrite bind_Returned by reflexivity. Qed.

Lemma bind_get {B} (f : St -> M St B) s : bind get f s = f s s.
Proof. erewrite bind_Returned by reflexivity. apply prepend_nil. Qed.

Lemma bind_modify {B} g (f : unit -> M St B) s : bind (modify g) f s = f tt (g s).
Proof. erewrite bind_Returned by reflexivity. apply prepend_nil. Qed.

Lemma bind_throw {A B} e (f : A -> M St B) s :
  bind (throw e) f s = (Thrown e, s, []).
Proof. reflexivity. Qed.

Lemma bind_assoc {A B C} (m : M St A) (f : A -> M St B) (g : B -> M St C) s :
  bind (bind m f) g s = bind m (fun a => bind (f a) g) s.
Proof.
  unfold bind. destruct (m s) as [[[a| |] s1] e1]; try reflexivity.
  destruct (f a s1) as [[[b| |] s2] e2]; try reflexivity.
  destruct (g b s2) as [[o s3] e3]. by rewrite app_assoc.
Qed.

Lemma bind_when {B} (b : bool) (m : M St unit) (f : unit -> M St B) s :
  bind (when b m) f s = if b then bind m f s else f tt s.
Proof. destruct b; [reflexivity|]. apply bind_ret. Qed.

Lemma events_of_bind {A B} (m : M St A) (f : A -> M St B) s :
  events_of (bind m f s) =
  events_of (m s) ++
  match result_of (m s) with
  | Returned a => events_of (f a (state_of (m s)))
  | _ => []
  end.
Proof.
  unfold bind, events_of, result_of, state_of.
  destruct (m s) as [[[a| |] s1] e1]; simpl; try by rewrite app_nil_r.
  by destruct (f a s1) as [[o s2] e2].
Qed.

Lemma result_of_bind {A B} (m : M St A) (f : A -> M St B) s :
  result_of (bind m f s) =
  match result_of (m s) with
  | Returned a => result_of (f a (state_of (m s)))
  | Thrown e => Thrown e
  | Timeout => Timeout
  end.
Proof.
  unfold bind, events_of, result_of, state_of.
  destruct (m s) as [[[a| |] s1] e1]; simpl; try done.
  by destruct (f a s1) as [[o s2] e2].
Qed.

Lemma state_of_bind {A B} (m : M St A) (f : A -> M St B) s :
  state_of (bind m f s) =
  match result_of (m s) with
  | Returned a => state_of (f a (state_of (m s)))
  | _ => state_of (m s)
  end.
Proof.
  unfold bind, events_of, result_of, state_of.
  destruct (m s) as [[[a| |] s1] e1]; simpl; try done.
  by destruct (f a s1) as [[o s2] e2].
Qed.

(** A property of runs that holds of a loop when it holds of the ways a
    loop ends and is kept when a step of the body comes in front. *)
Lemma for_loop_run_ind {A} (R : outcome A * St * list Event -> Prop)
    fuel cond incr (body : Z -> A -> M St A) :
  (forall a s, R (Returned a, s, [])) ->
  (forall s, R (Timeout, s, [])) ->
  (forall i a s,
     match body i a s with
     | (Returned _, _, e) => forall r, R r -> R (prepend e r)
     | (Thrown x, s', e) => R (Thrown x, s', e)
     | (Timeout, s', e) => R (Timeout, s', e)
     end) ->
  forall i a s, R (for_loop fuel cond incr body i a s).
Proof.
  intros Hret Hto Hbody. induction fuel as [|fuel IH]; intros i a s; simpl.
  - destruct (cond i); [apply Hto | apply Hret].
  - destruct (cond i); [|apply Hret].
    specialize (Hbody i a s).
    destruct (body i a s) as [[[a'| |] s'] e] eqn:E.
    + erewrite bind_Returned by exact E. apply Hbody, IH.
    + erewrite bind_Thrown by exact E. exact Hbody.
    + erewrite bind_Timeout by exact E. exact Hbody.
Qed.

Lemma bind_ext {A B} (m : M St A) (f g : A -> M St B) s :
  (forall a s', f a s' = g a s') -> bind m f s = bind m g s.
Proof.
  intros E. unfold bind. destruct (m s) as [[[a| |] s1] e1]; try reflexivity.
  by rewrite E.
Qed.

Lemma events_Forall_bind {A B} (P : Event -> Prop) (m : M St A) (f : A -> M St B) s :
  Forall P (events_of (m s)) ->
  (forall a s', Forall P (events_of (f a s'))) ->
  Forall P (events_of (bind m f s)).
Proof.
  intros Hm Hf. rewrite events_of_bind. apply Forall_app. split; [exact Hm|].
  destruct (result_of (m s)); [apply Hf | constructor | constructor].
Qed.

Lemma bind_no_Timeout {A B} (m : M St A) (f : A -> M St B) s :
  result_of (m s) <> Timeout ->
  (forall a s', result_of (f a s') <> Timeout) ->
  result_of (bind m f s) <> Timeout.
Proof.
  intros Hm Hf. rewrite result_of_bind.
  destruct (result_of (m s)); [apply Hf | discriminate | done].
Qed.

Lemma bind_inv_Returned {A B} (m : M St A) (f : A -> M St B) s b s2 evs :
  bind m f s = (Returned b, s2, evs) ->
  exists a s1 e1 e2,
    m s = (Returned a, s1, e1) /\ f a s1 = (Returned b, s2, e2) /\ evs = e1 ++ e2.
Proof.
  unfold bind. destruct (m s) as [[[a| |] s1] e1]; try discriminate.
  destruct (f a s1) as [[o s2'] e2] eqn:E. intros [= -> -> <-]. eauto 10.
Qed.

End MonadLaws.

(** Events of a computation built from binds, one step at a time. *)
Ltac events_step :=
  first
    [ apply List.Forall_nil
    | apply events_Forall_bind; [|intros ? ?]
    | progress (unfold submaps_at, deref, when, graph_update_with, fs_create_directory)
    | match goal with
      | |- Forall _ (events_of ((if ?b then _ else _) _)) => destruct b
      | |- Forall _ (events_of (match ?x with Some _ => _ | None => _ end _)) =>
          destruct x
      | |- Forall _ (events_of (match ?x with inl _ => _ | inr _ => _ end _)) =>
          destruct x
      | |- Forall _ (events_of (emit ?e ?s)) =>
          change (events_of (emit e s)) with [e]; apply List.Forall_cons; [|apply List.Forall_nil]
      end ].

(** The same for the absence of [Timeout]. *)
Ltac no_timeout_step :=
  first
    [ apply bind_no_Timeout; [|intros ? ?]
    | progress (unfold submaps_at, deref, when, graph_update_with, fs_create_directory)
    | match goal with
      | |- result_of ((if ?b then _ else _) _) <> _ => destruct b
      | |- result_of (match ?x with Some _ => _ | None => _ end _) <> _ => destruct x
      | |- result_of (match ?x with [] => _ | _ :: _ => _ end _) <> _ => destruct x
      end
    | discriminate ].

Section Theory.
Context `{Collaborators}.

Lemma bind_deref {B} (self : GMR) p s (f : Submap -> M GMR B) :
  global_map_ self !! p = Some s -> bind (deref p) f self = f s self.
Proof.
  intros Hp. erewrite bind_Returned; [apply prepend_nil|].
  unfold deref. rewrite bind_get, Hp. reflexivity.
Qed.

Lemma bind_fs_create_directory {St B} p (f : unit -> M St B) s :
  bind (fs_create_directory p) f s =
  if create_directory_fails p then (Thrown (filesystem_error p), s, [])
  else prepend [create_directory p] (f tt s).
Proof.
  unfold fs_create_directory. destruct (create_directory_fails p); [reflexivity|].
  apply bind_emit.
Qed.

(** ** AlignSubmaps *)

Lemma AlignSubmaps_tail (self : GMR) pt tgt T :
  (pt < length (global_map_ self))%nat ->
  (modify (set_global_map (fun submaps => <[pt := Submap_UpdatePose T tgt]> submaps)) ;;;
   let* tgt' := deref pt in
   modify (set_summary (emplace_submap_alignment (Stamp tgt')
     (RegistrationResult_new (T_WORLD_SUBMAP tgt) (T_WORLD_SUBMAP tgt')))) ;;;
   ret true) self = (Returned true, after_alignment pt tgt T self, []).
Proof.
  intros Hlt. rewrite bind_modify.
  erewrite bind_deref by (simpl; apply list_lookup_insert_eq; exact Hlt).
  rewrite bind_modify. reflexivity.
Qed.

(** What one call of AlignSubmaps does, for an output path that passes the
    guard: the outcome does not depend on what [Match] returned. *)
Lemma AlignSubmaps_run (self : GMR) (pr pt : nat) (ref tgt : Submap)
    (output_path : string) :
  global_map_ self !! pr = Some ref ->
  global_map_ self !! pt = Some tgt ->
  invalid_output_path output_path = false ->
  directory_fails output_path tgt = false ->
  let T_SubmapRef_WorldInit := InvertTransform (T_WORLD_SUBMAP_INIT ref) in
  AlignSubmaps pr pt output_path self =
  match matcher_loam_ self with
  | Some m =>
      let r := m (TransformPointCloud (GetLidarLoamPointsInWorldFrame ref true)
                    T_SubmapRef_WorldInit)
                 (TransformPointCloud (GetLidarLoamPointsInWorldFrame tgt true)
                    T_SubmapRef_WorldInit) in
      (Returned true, after_alignment pt tgt (aligned ref tgt (snd r)) self,
       alignment_events output_path tgt (fst r))
  | None =>
      match matcher_ self with
      | Some m =>
          let r := m (transformPointCloud (GetLidarPointsInWorldFrameCombined ref true)
                        T_SubmapRef_WorldInit)
                     (transformPointCloud (GetLidarPointsInWorldFrameCombined tgt true)
                        T_SubmapRef_WorldInit) in
          (Returned true, after_alignment pt tgt (aligned ref tgt (snd r)) self,
           alignment_events output_path tgt (fst r))
      | None =>
          (Thrown null_dereference, self,
           [create_directory (submap_output_of output_path tgt)])
      end
  end.
Proof.
  intros Hr Ht Hp Hdir. cbv zeta.
  assert (Hlt : (pt < length (global_map_ self))%nat) by (eapply lookup_lt_Some; eauto).
  unfold AlignSubmaps. unfold invalid_output_path in Hp. rewrite Hp.
  unfold directory_fails, submap_output_of in Hdir.
  rewrite (bind_deref _ _ _ _ Ht), bind_fs_create_directory, Hdir.
  rewrite (bind_deref _ _ _ _ Hr), bind_get.
  destruct (matcher_loam_ self) as [m|]; [|destruct (matcher_ self) as [m|]].
  - destruct (m _ _) as [ok apply]. simpl fst; simpl snd.
    rewrite bind_assoc, bind_emit, bind_assoc, bind_when.
    unfold alignment_events, submap_output_of.
    destruct (negb (String.eqb output_path "")).
    + rewrite bind_emit. cbv beta. rewrite AlignSubmaps_tail by exact Hlt. reflexivity.
    + cbv beta. rewrite AlignSubmaps_tail by exact Hlt. reflexivity.
  - destruct (m _ _) as [ok apply]. simpl fst; simpl snd.
    rewrite bind_assoc, bind_emit, bind_assoc, bind_when.
    unfold alignment_events, submap_output_of.
    destruct (negb (String.eqb output_path "")).
    + rewrite bind_emit. cbv beta. rewrite AlignSubmaps_tail by exact Hlt. reflexivity.
    + cbv beta. rewrite AlignSubmaps_tail by exact Hlt. reflexivity.
  - reflexivity.
Qed.

(** C5. AlignSubmaps brings the accumulated clouds of both submaps, taken
    in the world frame with the initial poses, into the initial frame of the
    reference by the inverse of its T_WORLD_SUBMAP_INIT, seeds the matcher
    with the relative transform between the two initial poses, and sets the
    T_WORLD_SUBMAP of the target to the current T_WORLD_SUBMAP of the
    reference composed with the refined relative transform, and returns
    true; the LOAM branch and the point-cloud branch do the same.  This is
    for a call that gets as far as the matcher: the output path passes the
    guard and the directory of the target can be created. *)
Theorem AlignSubmaps_pose (self : GMR) (pr pt : nat) (ref tgt : Submap)
    (output_path : string) :
  global_map_ self !! pr = Some ref ->
  global_map_ self !! pt = Some tgt ->
  invalid_output_path output_path = false ->
  directory_fails output_path tgt = false ->
  let T_SubmapRef_WorldInit := InvertTransform (T_WORLD_SUBMAP_INIT ref) in
  let T_SubmapRef_SubmapTgt_Init :=
    T_SubmapRef_WorldInit ** T_WORLD_SUBMAP_INIT tgt in
  let r := AlignSubmaps pr pt output_path self in
  (forall m, matcher_loam_ self = Some m ->
     let ApplyResult :=
       snd (m (TransformPointCloud (GetLidarLoamPointsInWorldFrame ref true)
                 T_SubmapRef_WorldInit)
              (TransformPointCloud (GetLidarLoamPointsInWorldFrame tgt true)
                 T_SubmapRef_WorldInit)) in
     result_of r = Returned true
     /\ T_WORLD_SUBMAP <$> global_map_ (state_of r) !! pt =
        Some (T_WORLD_SUBMAP ref ** ApplyResult T_SubmapRef_SubmapTgt_Init))
  /\
  (forall m, matcher_loam_ self = None -> matcher_ self = Some m ->
     let ApplyResult :=
       snd (m (transformPointCloud (GetLidarPointsInWorldFrameCombined ref true)
                 T_SubmapRef_WorldInit)
              (transformPointCloud (GetLidarPointsInWorldFrameCombined tgt true)
                 T_SubmapRef_WorldInit)) in
     result_of r = Returned true
     /\ T_WORLD_SUBMAP <$> global_map_ (state_of r) !! pt =
        Some (T_WORLD_SUBMAP ref ** ApplyResult T_SubmapRef_SubmapTgt_Init)).
Proof.
  intros Hr Ht Hp Hdir. cbv zeta.
  assert (Hlt : (pt < length (global_map_ self))%nat) by (eapply lookup_lt_Some; eauto).
  rewrite (AlignSubmaps_run _ _ _ _ _ _ Hr Ht Hp Hdir). cbv zeta.
  split; intros m Hm.
  - rewrite Hm. split; [reflexivity|]. unfold state_of, after_alignment. simpl.
    rewrite list_lookup_insert_eq by exact Hlt. reflexivity.
  - intros Hm2. rewrite Hm, Hm2. split; [reflexivity|].
    unfold state_of, after_alignment. simpl.
    rewrite list_lookup_insert_eq by exact Hlt. reflexivity.
Qed.

(** ** The candidates of one query *)

Lemma pgo_candidates_rejected_first size path q m T rest txn (self : GMR) :
  q - 1 <= m ->
  pgo_candidates size path q ((m, T) :: rest) txn self =
  prepend [rejection] (pgo_candidates size path q rest txn self).
Proof.
  intros Hm. simpl. rewrite (proj2 (Z.leb_le _ _) Hm). apply bind_emit.
Qed.

Lemma pgo_candidates_app size path q pre post txn (self : GMR) :
  pgo_candidates size path q (pre ++ post) txn self =
  (let* txn' := pgo_candidates size path q pre txn in
   pgo_candidates size path q post txn') self.
Proof.
  revert txn self. induction pre as [|[m' T'] pre IH]; intros txn self.
  - simpl. by rewrite bind_ret.
  - simpl. destruct (q - 1 <=? m').
    + rewrite bind_assoc, !bind_emit. f_equal. apply IH.
    + rewrite bind_assoc. apply bind_ext. intros pm s1.
      rewrite bind_assoc. apply bind_ext. intros matched_submap s2.
      rewrite bind_assoc. apply bind_ext. intros pq s3.
      rewrite bind_assoc. apply bind_ext. intros query_submap s4.
      rewrite bind_assoc. apply bind_ext. intros self' s5.
      rewrite bind_assoc. apply bind_ext. intros refinement s6.
      rewrite bind_assoc. apply bind_ext. intros [] s7.
      destruct (negb _); apply IH.
Qed.

Lemma pgo_candidates_events size path q cands txn (self : GMR) :
  Forall (candidate_trace q) (events_of (pgo_candidates size path q cands txn self)).
Proof.
  revert txn self. induction cands as [|[m T] cands IH]; intros txn self.
  - constructor.
  - simpl. destruct (q - 1 <=? m) eqn:Hm.
    + rewrite bind_emit, events_of_prepend. simpl.
      apply List.Forall_cons; [exact I | apply IH].
    + apply Z.leb_gt in Hm. repeat events_step; try apply IH.
      simpl. split; [exact Hm | reflexivity].
Qed.

Lemma refinement_calls_candidate_trace q evs :
  Forall (candidate_trace q) evs ->
  Forall (fun c => fst c < q - 1 /\ snd c = q) (refinement_calls evs).
Proof.
  induction 1 as [|e evs He _ IH]; [constructor|].
  destruct e; simpl in *; try exact IH; try contradiction.
  constructor; [exact He | exact IH].
Qed.

(** C4. A candidate whose matched index is at least the query index minus
    one is rejected with an error line and nothing else: no refinement is
    attempted for it, the transaction and the object are as they were, and
    the candidates after it are processed as before.  In all, a refinement
    is only ever attempted for a matched index below the query index minus
    one. *)
Theorem pgo_candidates_rejects size path q pre m T post txn (self : GMR) :
  q - 1 <= m ->
  pgo_candidates size path q (pre ++ (m, T) :: post) txn self =
    (let* txn' := pgo_candidates size path q pre txn in
     emit (BEAM_ERROR "Error in candidate search implementation, please fix!") ;;;
     pgo_candidates size path q post txn') self
  /\ pgo_candidates size path q [(m, T)] txn self =
     (Returned txn, self,
      [BEAM_ERROR "Error in candidate search implementation, please fix!"])
  /\ Forall (fun c => fst c < q - 1 /\ snd c = q)
       (refinement_calls
          (events_of (pgo_candidates size path q (pre ++ (m, T) :: post) txn self))).
Proof.
  intros Hm. split; [|split].
  - rewrite pgo_candidates_app. apply bind_ext. intros txn' s'.
    rewrite pgo_candidates_rejected_first by exact Hm. by rewrite bind_emit.
  - rewrite pgo_candidates_rejected_first by exact Hm. reflexivity.
  - apply refinement_calls_candidate_trace, pgo_candidates_events.
Qed.

Lemma pgo_candidates_no_Timeout size path q cands txn (self : GMR) :
  result_of (pgo_candidates size path q cands txn self) <> Timeout.
Proof.
  revert txn self. induction cands as [|[m T] cands IH]; intros txn self.
  - discriminate.
  - simpl. destruct (q - 1 <=? m).
    + apply bind_no_Timeout; [discriminate|]. intros. apply IH.
    + repeat first [apply IH | no_timeout_step].
Qed.

(** ** One query of the sweep *)

Lemma pgo_query_no_Timeout size p1 p2 q g (self : GMR) :
  result_of (pgo_query size p1 p2 q g self) <> Timeout.
Proof.
  unfold pgo_query.
  repeat first [apply pgo_candidates_no_Timeout | no_timeout_step].
Qed.


(** The three ways a query goes: it fails before the search is called; the
    search returns nothing and the graph stays as it is; or the search
    returns candidates, they are processed, and if none of that throws the
    transaction is applied, the graph solved and the poses pushed back. *)
Lemma pgo_query_shape size p1 p2 q g (self : GMR) :
  let r := pgo_query size p1 p2 q g self in
  (events_of r = [] /\ is_Returned (result_of r) = false)
  \/ (events_of r = [FindRelocCandidates_call q (ignore_window size q) false 0]
      /\ result_of r = Returned g /\ state_of r = self)
  \/ (exists k cand_evs tail,
        events_of r =
          FindRelocCandidates_call q (ignore_window size q) false (S k)
          :: cand_evs ++ tail
        /\ Forall (candidate_trace q) cand_evs
        /\ ((tail = [] /\ is_Returned (result_of r) = false)
            \/ (exists nv nc,
                  tail = [graph_update nv nc; graph_optimize; UpdateSubmapPoses_call]
                  /\ is_Returned (result_of r) = true))).
Proof.
  intros r. assert (Er : r = pgo_query size p1 p2 q g self) by reflexivity.
  clearbody r. unfold pgo_query in Er. fold (ignore_window size q) in Er.
  set (ign := ignore_window size q) in *.
  unfold submaps_at at 1 in Er. destruct (to_size_t q <? Z.of_nat size);
    [rewrite bind_ret in Er | left; rewrite bind_throw in Er; by subst r].
  unfold deref at 1 in Er. rewrite bind_assoc, bind_get in Er.
  destruct (global_map_ self !! Z.to_nat (to_size_t q)) as [query_submap|];
    [rewrite bind_ret in Er | left; rewrite bind_throw in Er; by subst r].
  rewrite bind_get in Er.
  destruct (loop_closure_candidate_search_ self) as [cs|];
    [rewrite bind_ret in Er | left; rewrite bind_throw in Er; by subst r].
  rewrite bind_emit in Er.
  destruct (cs _ _ _ _ _) as [|c cands] eqn:Ec.
  - right; left. by subst r.
  - right; right. exists (length cands).
    pose proof (pgo_candidates_events size p1 q (c :: cands) Transaction_new self) as Hev.
    destruct (pgo_candidates size p1 q (c :: cands) Transaction_new self)
      as [[[txn| |] s'] e] eqn:E.
    + erewrite bind_Returned in Er by exact E.
      unfold graph_update_with in Er.
      rewrite bind_assoc, bind_emit, bind_ret, bind_emit in Er.
      rewrite bind_emit, bind_modify in Er. subst r.
      eexists e, _. simpl. split; [reflexivity|]. split; [exact Hev|].
      right. eauto.
    + erewrite bind_Thrown in Er by exact E. subst r.
      exists e, []. simpl. rewrite app_nil_r. split; [reflexivity|]. split; [exact Hev|].
      left. done.
    + erewrite bind_Timeout in Er by exact E. subst r.
      exists e, []. simpl. rewrite app_nil_r. split; [reflexivity|]. split; [exact Hev|].
      left. done.
Qed.

(** ** Integer conversions in range *)

Lemma to_size_t_small z : 0 <= z < 2 ^ 64 -> to_size_t z = z.
Proof. intros Hz. unfold to_size_t. by apply Z.mod_small. Qed.

Lemma to_int_small z : - 2 ^ 31 <= z < 2 ^ 31 -> to_int z = z.
Proof. intros Hz. unfold to_int. rewrite Z.mod_small; lia. Qed.

(** ** The chain graph *)

Lemma chain_graph_constraints cov g l :
  constraints (chain_graph cov g l) = constraints g ++ relative_constraints cov l.
Proof.
  revert g. induction l as [|previous [|current rest] IH]; intros g.
  - simpl. by rewrite app_nil_r.
  - simpl. by rewrite app_nil_r.
  - change (chain_graph cov g (previous :: current :: rest))
      with (chain_graph cov (HashGraph_update g (relative_transaction cov previous current))
              (current :: rest)).
    rewrite IH. simpl. by rewrite <- app_assoc.
Qed.

Lemma relative_constraints_length cov l :
  length (relative_constraints cov l) = pred (length l).
Proof.
  induction l as [|previous [|current rest] IH]; [reflexivity..|].
  change (relative_constraints cov (previous :: current :: rest))
    with (relative_constraint cov previous current
          :: relative_constraints cov (current :: rest)).
  simpl length in *. by rewrite IH.
Qed.

Lemma relative_constraints_lookup cov l i previous current :
  l !! i = Some previous -> l !! S i = Some current ->
  relative_constraints cov l !! i = Some (relative_constraint cov previous current).
Proof.
  revert i. induction l as [|a [|b rest] IH]; intros i Hp Hc; [done..|].
  change (relative_constraints cov (a :: b :: rest))
    with (relative_constraint cov a b :: relative_constraints cov (b :: rest)).
  destruct i as [|i].
  - simpl in *. by simplify_eq.
  - simpl. apply IH; [exact Hp | exact Hc].
Qed.

Lemma relative_constraints_no_prior cov l :
  List.filter is_prior (relative_constraints cov l) = [].
Proof.
  induction l as [|a [|b rest] IH]; [reflexivity..|].
  change (relative_constraints cov (a :: b :: rest))
    with (relative_constraint cov a b :: relative_constraints cov (b :: rest)).
  simpl. exact IH.
Qed.

Lemma lookup_emplace {V} (k k' : Time) (v : V) (m : gmap Time V) :
  emplace k v m !! k' =
  match m !! k' with
  | Some x => Some x
  | None => if decide (k = k') then Some v else None
  end.
Proof.
  unfold emplace. destruct (m !! k) as [x|] eqn:Hk.
  - destruct (m !! k') eqn:Hk'; [done|]. case_decide; [congruence|done].
  - rewrite lookup_insert. case_decide.
    + subst k'. by rewrite Hk.
    + by destruct (m !! k').
Qed.

Lemma HashGraph_update_keeps_variable g t k :
  is_Some (variables g !! k) -> is_Some (variables (HashGraph_update g t) !! k).
Proof.
  unfold HashGraph_update. simpl. generalize (variables g).
  induction (added_variables t) as [|[k' v] kvs IH]; intros vs Hvs; [exact Hvs|].
  simpl. apply IH. rewrite lookup_emplace. destruct Hvs as [x ->]. by eexists.
Qed.

Lemma HashGraph_update_adds_variable g t k :
  k ∈ (added_variables t).*1 -> is_Some (variables (HashGraph_update g t) !! k).
Proof.
  unfold HashGraph_update. simpl. generalize (variables g).
  induction (added_variables t) as [|[k' v] kvs IH]; intros vs Hk.
  - by apply elem_of_nil in Hk.
  - simpl in *. apply elem_of_cons in Hk as [->|Hk]; [|by apply IH].
    assert (Hnow : is_Some (emplace k' v vs !! k')).
    { rewrite lookup_emplace. destruct (vs !! k'); [by eexists|].
      case_decide; [by eexists | done]. }
    revert Hnow. generalize (emplace k' v vs). clear.
    induction kvs as [|[k'' v'] kvs IH]; intros vs Hvs; [exact Hvs|].
    simpl. apply IH. rewrite lookup_emplace. destruct Hvs as [x ->]. by eexists.
Qed.

Lemma chain_graph_keeps_variable cov g l k :
  is_Some (variables g !! k) -> is_Some (variables (chain_graph cov g l) !! k).
Proof.
  revert g. induction l as [|previous [|current rest] IH]; intros g Hg; [exact Hg..|].
  change (chain_graph cov g (previous :: current :: rest))
    with (chain_graph cov (HashGraph_update g (relative_transaction cov previous current))
            (current :: rest)).
  apply IH. by apply HashGraph_update_keeps_variable.
Qed.

Lemma chain_graph_variables cov g first rest s :
  s ∈ rest -> is_Some (variables (chain_graph cov g (first :: rest)) !! Stamp s).
Proof.
  revert g first. induction rest as [|current rest IH]; intros g first Hs.
  - by apply elem_of_nil in Hs.
  - change (chain_graph cov g (first :: current :: rest))
      with (chain_graph cov (HashGraph_update g (relative_transaction cov first current))
              (current :: rest)).
    apply elem_of_cons in Hs as [->|Hs]; [|by apply IH].
    apply chain_graph_keeps_variable, HashGraph_update_adds_variable.
    simpl. apply list_elem_of_singleton. reflexivity.
Qed.

Lemma pgo_add_relative_run (self : GMR) (k : nat) previous current g :
  Z.of_nat (length (global_map_ self)) < 2 ^ 31 ->
  global_map_ self !! k = Some previous ->
  global_map_ self !! S k = Some current ->
  pgo_add_relative (length (global_map_ self)) (Z.of_nat (S k)) g self =
  (Returned (HashGraph_update g
     (relative_transaction (local_mapper_covariance (loop_closure (params_ self)))
        previous current)),
   self, [graph_update 1 1]).
Proof.
  intros Hn Hp Hc.
  assert (Hk : (S k < length (global_map_ self))%nat) by (eapply lookup_lt_Some; eauto).
  unfold pgo_add_relative, submaps_at.
  rewrite (to_size_t_small (Z.of_nat (S k))) by lia.
  rewrite (proj2 (Z.ltb_lt _ _)) by lia.
  rewrite bind_ret, Nat2Z.id. rewrite (bind_deref _ _ _ _ Hc).
  rewrite (proj2 (Z.ltb_ge _ _)) by lia.
  rewrite (to_int_small (Z.of_nat (S k) - 1)) by lia.
  rewrite (to_size_t_small (Z.of_nat (S k) - 1)) by lia.
  rewrite (proj2 (Z.ltb_lt _ _)) by lia.
  rewrite bind_ret.
  replace (Z.to_nat (Z.of_nat (S k) - 1)) with k by lia.
  rewrite (bind_deref _ _ _ _ Hp), bind_get.
  reflexivity.
Qed.

Lemma pgo_chain_loop (self : GMR) fuel (k : nat) g :
  Z.of_nat (length (global_map_ self)) < 2 ^ 31 ->
  (k < length (global_map_ self))%nat ->
  (length (global_map_ self) - S k <= fuel)%nat ->
  for_loop fuel
    (fun i => to_size_t i <? Z.of_nat (length (global_map_ self)))
    (fun i => to_int (i + 1))
    (pgo_add_relative (length (global_map_ self))) (Z.of_nat (S k)) g self =
  (Returned (chain_graph (local_mapper_covariance (loop_closure (params_ self))) g
               (drop k (global_map_ self))),
   self, replicate (length (global_map_ self) - S k) (graph_update 1 1)).
Proof.
  intros Hn. revert k g. induction fuel as [|fuel IH]; intros k g Hk Hfuel.
  - assert (length (global_map_ self) = S k) as Hlen by lia.
    simpl. rewrite (to_size_t_small (Z.of_nat (S k))) by lia.
    rewrite (proj2 (Z.ltb_ge _ _)) by lia.
    destruct (lookup_lt_is_Some_2 _ _ Hk) as [x Hx].
    rewrite (drop_S _ _ _ Hx), drop_ge by lia.
    replace (length (global_map_ self) - S k)%nat with 0%nat by lia. reflexivity.
  - destruct (decide (length (global_map_ self) = S k)) as [Hlen|Hlen].
    + simpl. rewrite (to_size_t_small (Z.of_nat (S k))) by lia.
      rewrite (proj2 (Z.ltb_ge _ _)) by lia.
      destruct (lookup_lt_is_Some_2 _ _ Hk) as [x Hx].
      rewrite (drop_S _ _ _ Hx), drop_ge by lia.
      replace (length (global_map_ self) - S k)%nat with 0%nat by lia. reflexivity.
    + assert (Hk' : (S k < length (global_map_ self))%nat) by lia.
      destruct (lookup_lt_is_Some_2 _ _ Hk) as [previous Hp].
      destruct (lookup_lt_is_Some_2 _ _ Hk') as [current Hc].
      cbn [for_loop]. rewrite (to_size_t_small (Z.of_nat (S k))) by lia.
      rewrite (proj2 (Z.ltb_lt _ _)) by lia.
      erewrite bind_Returned by (apply pgo_add_relative_run; eassumption).
      rewrite (to_int_small (Z.of_nat (S k) + 1)) by lia.
      replace (Z.of_nat (S k) + 1) with (Z.of_nat (S (S k))) by lia.
      rewrite IH by lia.
      rewrite (drop_S _ _ _ Hp), (drop_S _ _ _ Hc). simpl prepend.
      rewrite <- (drop_S _ _ _ Hc).
      replace (length (global_map_ self) - S k)%nat
        with (S (length (global_map_ self) - S (S k)))%nat by lia.
      rewrite (drop_S _ _ _ Hc). reflexivity.
Qed.

Lemma pgo_chain_graph_run (self : GMR) first rest :
  global_map_ self = first :: rest ->
  Z.of_nat (length (global_map_ self)) < 2 ^ 31 ->
  pgo_chain_graph (length (global_map_ self)) self =
  (Returned
     (chain_graph (local_mapper_covariance (loop_closure (params_ self)))
        (HashGraph_update HashGraph_new
           (prior_transaction (pose_prior_noise_ self) first))
        (global_map_ self)),
   self, replicate (length (global_map_ self)) (graph_update 1 1)).
Proof.
  intros Hl Hn.
  assert (H0l : global_map_ self !! 0%nat = Some first) by by rewrite Hl.
  assert (Hpos : (0 < length (global_map_ self))%nat) by (rewrite Hl; simpl; lia).
  unfold pgo_chain_graph, pgo_add_prior, submaps_at.
  rewrite (to_size_t_small 0) by lia.
  rewrite (proj2 (Z.ltb_lt _ _)) by lia.
  rewrite !bind_assoc, bind_ret. change (Z.to_nat 0) with 0%nat.
  rewrite bind_assoc, (bind_deref _ _ _ _ H0l), bind_assoc, bind_get.
  unfold graph_update_with. rewrite bind_assoc, bind_emit, bind_ret.
  change 1 with (Z.of_nat 1).
  rewrite pgo_chain_loop by lia. simpl prepend.
  rewrite drop_0. f_equal.
  rewrite Hl. simpl. by rewrite Nat.sub_0_r.
Qed.

(** C6. The chain graph RunPoseGraphOptimization assembles before the sweep
    holds as many constraints as there are submaps: the first is the
    absolute prior on submap 0, the only prior there is, and the one at
    position i + 1 is the relative constraint between submap i and submap
    i + 1, measured as the relative transform between their current world
    poses.  Every submap has its pose variable in the graph.  Assembling it
    changes nothing in the object. *)
Theorem pgo_chain_graph_constraints (self : GMR) (first : Submap) (rest : list Submap) :
  global_map_ self = first :: rest ->
  Z.of_nat (length (global_map_ self)) < 2 ^ 31 ->
  exists graph,
    pgo_chain_graph (length (global_map_ self)) self =
      (Returned graph, self,
       replicate (length (global_map_ self)) (graph_update 1 1))
    /\ length (constraints graph) = length (global_map_ self)
    /\ constraints graph !! 0%nat =
         Some (AbsolutePose3DStampedConstraint (Stamp first) (T_WORLD_SUBMAP first)
                 (pose_prior_noise_ self)
                 "GlobalMapRefinement::RunPoseGraphOptimization")
    /\ length (List.filter is_prior (constraints graph)) = 1%nat
    /\ (forall s, s ∈ global_map_ self -> is_Some (variables graph !! Stamp s))
    /\ (forall i previous current,
          global_map_ self !! i = Some previous ->
          global_map_ self !! S i = Some current ->
          constraints graph !! S i =
            Some (RelativePose3DStampedConstraint (Stamp previous) (Stamp current)
                    (TransformMatrixToVectorWithQuaternion
                       (InvertTransform (T_WORLD_SUBMAP previous)
                        ** T_WORLD_SUBMAP current))
                    (local_mapper_covariance (loop_closure (params_ self)))
                    "GlobalMap::InitiateNewSubmapPose")).
Proof.
  intros Hl Hn. eexists. split; [apply (pgo_chain_graph_run _ _ _ Hl Hn)|].
  rewrite chain_graph_constraints. simpl constraints.
  split; [|split; [|split; [|split]]].
  - simpl. rewrite relative_constraints_length, Hl. reflexivity.
  - reflexivity.
  - simpl. by rewrite relative_constraints_no_prior.
  - intros s Hs. rewrite Hl in Hs |- *.
    apply elem_of_cons in Hs as [->|Hs]; [|by apply chain_graph_variables].
    apply chain_graph_keeps_variable, HashGraph_update_adds_variable.
    simpl. apply list_elem_of_singleton. reflexivity.
  - intros i previous current Hp Hc. simpl.
    apply relative_constraints_lookup; assumption.
Qed.

(** ** RunPoseGraphOptimization in parts *)

Lemma for_loop_events_Forall {St A} (P : Event -> Prop) fuel cond incr
    (body : Z -> A -> M St A) :
  (forall i a s, Forall P (events_of (body i a s))) ->
  forall i a s, Forall P (events_of (for_loop fuel cond incr body i a s)).
Proof.
  intros Hbody.
  apply (for_loop_run_ind (fun r => Forall P (events_of r))).
  - intros; apply List.Forall_nil.
  - intros; apply List.Forall_nil.
  - intros i a s. specialize (Hbody i a s).
    destruct (body i a s) as [[[a'| |] s'] e]; try exact Hbody.
    intros r Hr. rewrite events_of_prepend. apply Forall_app. by split.
Qed.

Lemma pgo_chain_graph_events size (self : GMR) :
  Forall (fun e => is_graph_update e = true) (events_of (pgo_chain_graph size self)).
Proof.
  unfold pgo_chain_graph, pgo_add_prior.
  repeat events_step; try reflexivity.
  apply for_loop_events_Forall. intros i g s.
  unfold pgo_add_relative. repeat events_step. reflexivity.
Qed.

Lemma RunPoseGraphOptimization_unfold output_path (self : GMR) :
  RunPoseGraphOptimization output_path self =
  prepend (pgo_preamble output_path self)
    (if pgo_directories_fail output_path
     then (Thrown (filesystem_error (pgo_failed_directory output_path)), self, [])
     else (let* graph := pgo_chain_graph (length (global_map_ self)) in
           pgo_sweep output_path (length (global_map_ self))
             (pgo_skip_first_n_submaps_ self) graph ;;;
           ret true) self).
Proof.
  unfold RunPoseGraphOptimization, pgo_preamble, pgo_sweep, pgo_directories_fail,
    pgo_failed_directory.
  rewrite bind_get, bind_when.
  destruct (_ <=? _); rewrite ?bind_emit; cbv beta;
    rewrite bind_fs_create_directory;
    destruct (create_directory_fails (CombinePaths output_path "refinement"));
    try reflexivity;
    rewrite bind_fs_create_directory;
    destruct (create_directory_fails (CombinePaths output_path "candidate_search"));
    simpl orb; cbv iota; rewrite ?prepend_prepend; reflexivity.
Qed.

Lemma RunPoseGraphOptimization_no_directory output_path (self : GMR) :
  pgo_directories_fail output_path = true ->
  RunPoseGraphOptimization output_path self =
  (Thrown (filesystem_error (pgo_failed_directory output_path)), self,
   pgo_preamble output_path self).
Proof.
  intros Hd. rewrite RunPoseGraphOptimization_unfold, Hd. simpl.
  by rewrite app_nil_r.
Qed.

(** Either a directory cannot be created and nothing follows, or the chain
    graph is not completed, and then nothing follows it, or the sweep runs
    on it and its end is the end of the function. *)
Lemma RunPoseGraphOptimization_split output_path (self : GMR) :
  let r := RunPoseGraphOptimization output_path self in
  (exists chain_evs,
     Forall (fun e => is_graph_update e = true) chain_evs
     /\ events_of r = pgo_preamble output_path self ++ chain_evs
     /\ is_Returned (result_of r) = false
     /\ result_of r =
        if pgo_directories_fail output_path
        then Thrown (filesystem_error (pgo_failed_directory output_path))
        else returned_true
               (result_of (pgo_chain_graph (length (global_map_ self)) self)))
  \/ (exists chain_evs graph s1,
        pgo_chain_graph (length (global_map_ self)) self = (Returned graph, s1, chain_evs)
        /\ Forall (fun e => is_graph_update e = true) chain_evs
        /\ let sw := pgo_sweep output_path (length (global_map_ self))
                       (pgo_skip_first_n_submaps_ self) graph s1 in
           events_of r = pgo_preamble output_path self ++ chain_evs ++ events_of sw
           /\ result_of r = returned_true (result_of sw)
           /\ state_of r = state_of sw
           /\ pgo_directories_fail output_path = false).
Proof.
  intros r. subst r.
  destruct (pgo_directories_fail output_path) eqn:Hd.
  { left. exists []. rewrite (RunPoseGraphOptimization_no_directory _ _ Hd).
    split; [constructor|]. by rewrite app_nil_r. }
  rewrite RunPoseGraphOptimization_unfold, Hd.
  pose proof (pgo_chain_graph_events (length (global_map_ self)) self) as Hev.
  destruct (pgo_chain_graph (length (global_map_ self)) self)
    as [[[graph| |] s1] chain_evs] eqn:E; simpl in Hev.
  - right. exists chain_evs, graph, s1.
    split; [reflexivity|]. split; [exact Hev|].
    erewrite bind_Returned by exact E. cbv zeta.
    rewrite prepend_prepend, events_of_prepend, result_of_prepend, state_of_prepend.
    rewrite events_of_bind, result_of_bind, state_of_bind.
    destruct (pgo_sweep _ _ _ _ _) as [[[g'| |] s2] e2]; simpl;
      rewrite ?app_nil_r, <- ?app_assoc; done.
  - left. exists chain_evs. split; [exact Hev|].
    erewrite bind_Thrown by exact E. done.
  - left. exists chain_evs. split; [exact Hev|].
    erewrite bind_Timeout by exact E. done.
Qed.

Lemma pgo_chain_graph_no_Timeout (self : GMR) :
  Z.of_nat (length (global_map_ self)) < 2 ^ 31 ->
  result_of (pgo_chain_graph (length (global_map_ self)) self) <> Timeout.
Proof.
  intros Hn. destruct (global_map_ self) as [|first rest] eqn:Hl.
  - discriminate.
  - rewrite <- Hl in *. by rewrite (pgo_chain_graph_run _ _ _ Hl Hn).
Qed.

(** ** Counting solves and searches *)

Lemma solves_app e1 e2 : solves (e1 ++ e2) = (solves e1 + solves e2)%nat.
Proof. unfold solves. by rewrite List.filter_app, length_app. Qed.

Lemma fruitful_searches_app e1 e2 :
  fruitful_searches (e1 ++ e2) = (fruitful_searches e1 + fruitful_searches e2)%nat.
Proof. unfold fruitful_searches. by rewrite List.filter_app, length_app. Qed.

Lemma quiet_solves evs : Forall quiet evs -> solves evs = 0%nat.
Proof.
  induction 1 as [|e evs [_ He] _ IH]; [reflexivity|].
  unfold solves in *. simpl. by rewrite He.
Qed.

Lemma quiet_fruitful_searches evs : Forall quiet evs -> fruitful_searches evs = 0%nat.
Proof.
  induction 1 as [|e evs [He _] _ IH]; [reflexivity|].
  unfold fruitful_searches in *. simpl. destruct e; try exact IH. discriminate.
Qed.

Lemma quiet_before_first_search e1 e2 :
  Forall quiet e1 ->
  solves (before_first_search (e1 ++ e2)) = solves (before_first_search e2).
Proof.
  induction 1 as [|e evs [He Hs] _ IH]; [reflexivity|].
  simpl. rewrite He. unfold solves in *. simpl. by rewrite Hs.
Qed.

Lemma candidate_trace_quiet q evs : Forall (candidate_trace q) evs -> Forall quiet evs.
Proof.
  intros Hf. eapply Forall_impl; [exact Hf|].
  intros e He. destruct e; simpl in He; try contradiction; split; reflexivity.
Qed.

Lemma graph_update_quiet evs :
  Forall (fun e => is_graph_update e = true) evs -> Forall quiet evs.
Proof.
  intros Hf. eapply Forall_impl; [exact Hf|].
  intros e He. destruct e; simpl in He; try discriminate; split; reflexivity.
Qed.

Lemma pgo_preamble_quiet output_path (self : GMR) :
  Forall quiet (pgo_preamble output_path self).
Proof.
  unfold pgo_preamble.
  destruct (_ <=? _), (create_directory_fails (CombinePaths output_path "refinement")),
    (create_directory_fails (CombinePaths output_path "candidate_search"));
    repeat constructor.
Qed.

(** The sweep leaves nothing, or a candidate search first. *)
Lemma pgo_sweep_head output_path size skip graph (self : GMR) :
  before_first_search (events_of (pgo_sweep output_path size skip graph self)) = [].
Proof.
  unfold pgo_sweep.
  apply (for_loop_run_ind (fun r => before_first_search (events_of r) = [])).
  - reflexivity.
  - reflexivity.
  - intros i g s.
    destruct (pgo_query_shape size (CombinePaths output_path "refinement")
                (CombinePaths output_path "candidate_search") i g s)
      as [[He Hr]|[[He [Hr _]]|(k & ce & tl & He & _)]];
      destruct (pgo_query _ _ _ _ _ _) as [[[a'| |] s'] e];
      simpl in *; subst e; try discriminate; try reflexivity;
      intros r _; rewrite events_of_prepend; reflexivity.
Qed.

(** In the sweep the graph is solved at most once for each search that
    returned candidates, and exactly once when the sweep runs to its end. *)
Lemma pgo_sweep_solves output_path size skip graph (self : GMR) :
  let r := pgo_sweep output_path size skip graph self in
  (solves (events_of r) <= fruitful_searches (events_of r))%nat
  /\ (is_Returned (result_of r) = true ->
      solves (events_of r) = fruitful_searches (events_of r)).
Proof.
  unfold pgo_sweep.
  apply (for_loop_run_ind (fun r =>
    (solves (events_of r) <= fruitful_searches (events_of r))%nat
    /\ (is_Returned (result_of r) = true ->
        solves (events_of r) = fruitful_searches (events_of r)))).
  - intros. split; [reflexivity|]. intros _. reflexivity.
  - intros. split; [reflexivity|]. intros _. reflexivity.
  - intros i g s.
    destruct (pgo_query_shape size (CombinePaths output_path "refinement")
                (CombinePaths output_path "candidate_search") i g s)
      as [[He Hr]|[[He [Hr _]]|(k & ce & tl & He & Hce & Htl)]];
      destruct (pgo_query _ _ _ _ _ _) as [[[a'| |] s'] e];
      simpl in He; try (simpl in Hr); subst e; try discriminate.
    + split; [reflexivity|]. discriminate.
    + split; [reflexivity|]. discriminate.
    + intros r [Hle Heq]. rewrite events_of_prepend, result_of_prepend.
      rewrite solves_app, fruitful_searches_app. simpl. split; [lia|].
      intros Hret. by rewrite Heq.
    + apply candidate_trace_quiet in Hce.
      destruct Htl as [[-> Hr]|(nv & nc & -> & Hr)]; simpl in Hr; try discriminate.
      intros r [Hle Heq]. rewrite events_of_prepend, result_of_prepend.
      rewrite solves_app, fruitful_searches_app.
      change (solves (FindRelocCandidates_call i (ignore_window size i) false (S k)
                      :: ce ++ [graph_update nv nc; graph_optimize; UpdateSubmapPoses_call]))
        with (solves (ce ++ [graph_update nv nc; graph_optimize; UpdateSubmapPoses_call])).
      change (fruitful_searches
                (FindRelocCandidates_call i (ignore_window size i) false (S k)
                 :: ce ++ [graph_update nv nc; graph_optimize; UpdateSubmapPoses_call]))
        with (S (fruitful_searches
                (ce ++ [graph_update nv nc; graph_optimize; UpdateSubmapPoses_call]))).
      rewrite solves_app, fruitful_searches_app.
      rewrite (quiet_solves _ Hce), (quiet_fruitful_searches _ Hce).
      change (solves [graph_update nv nc; graph_optimize; UpdateSubmapPoses_call])
        with 1%nat.
      change (fruitful_searches [graph_update nv nc; graph_optimize; UpdateSubmapPoses_call])
        with 0%nat.
      split; [lia|]. intros Hret. specialize (Heq Hret). lia.
    + apply candidate_trace_quiet in Hce.
      destruct Htl as [[-> Hr]|(nv & nc & -> & Hr)]; simpl in Hr; try discriminate.
      split; [|discriminate].
      unfold events_of. simpl snd. rewrite app_nil_r.
      change (solves (FindRelocCandidates_call i (ignore_window size i) false (S k) :: ce))
        with (solves ce).
      rewrite (quiet_solves _ Hce). lia.
    + apply candidate_trace_quiet in Hce.
      destruct Htl as [[-> Hr]|(nv & nc & -> & Hr)]; simpl in Hr; try discriminate.
      split; [|discriminate].
      unfold events_of. simpl snd. rewrite app_nil_r.
      change (solves (FindRelocCandidates_call i (ignore_window size i) false (S k) :: ce))
        with (solves ce).
      rewrite (quiet_solves _ Hce). lia.
Qed.

(** Counting the solves of a run against its searches. *)
Lemma RunPoseGraphOptimization_solve_count output_path (self : GMR) :
  let r := RunPoseGraphOptimization output_path self in
  solves (before_first_search (events_of r)) = 0%nat
  /\ (solves (events_of r) <= fruitful_searches (events_of r))%nat
  /\ (result_of r = Returned true ->
      solves (events_of r) = fruitful_searches (events_of r)).
Proof.
  intros r.
  destruct (RunPoseGraphOptimization_split output_path self)
    as [(ce & Hce & He & Hr & _)|(ce & graph & s1 & _ & Hce & He & Hr & _)];
    fold r in He, Hr; apply graph_update_quiet in Hce;
    pose proof (pgo_preamble_quiet output_path self) as Hpre.
  - rewrite He. split; [|split].
    + rewrite <- (app_nil_r (pgo_preamble output_path self ++ ce)).
      rewrite quiet_before_first_search; [reflexivity|]. apply Forall_app; by split.
    + rewrite solves_app, (quiet_solves _ Hpre), (quiet_solves _ Hce). lia.
    + intros Hret. rewrite Hret in Hr. discriminate.
  - rewrite He. split; [|split].
    + rewrite app_assoc, quiet_before_first_search by (apply Forall_app; by split).
      by rewrite pgo_sweep_head.
    + rewrite !solves_app, !fruitful_searches_app.
      rewrite (quiet_solves _ Hpre), (quiet_solves _ Hce).
      rewrite (quiet_fruitful_searches _ Hpre), (quiet_fruitful_searches _ Hce).
      apply pgo_sweep_solves.
    + intros Hret. rewrite !solves_app, !fruitful_searches_app.
      rewrite (quiet_solves _ Hpre), (quiet_solves _ Hce).
      rewrite (quiet_fruitful_searches _ Hpre), (quiet_fruitful_searches _ Hce).
      apply pgo_sweep_solves. rewrite Hret in Hr.
      destruct (result_of (pgo_sweep _ _ _ _ _)); done.
Qed.

(** ** The searches of the sweep *)

Lemma find_calls_app e1 e2 : find_calls (e1 ++ e2) = find_calls e1 ++ find_calls e2.
Proof. apply omap_app. Qed.

Lemma quiet_find_calls evs : Forall quiet evs -> find_calls evs = [].
Proof.
  induction 1 as [|e evs [He _] _ IH]; [reflexivity|].
  destruct e; try exact IH. discriminate.
Qed.

Lemma ignore_window_in_range (size : nat) q :
  0 <= q < Z.of_nat size - 1 -> Z.of_nat size < 2 ^ 31 - 1 ->
  ignore_window size q = Z.of_nat size - q + 1.
Proof.
  intros Hq Hn. unfold ignore_window.
  rewrite (to_size_t_small q) by lia.
  rewrite to_size_t_small by lia. apply to_int_small. lia.
Qed.

(** The searches one query makes: none when it fails before the call, one
    otherwise. *)
Lemma pgo_query_find_calls size p1 p2 q g (self : GMR) :
  let r := pgo_query size p1 p2 q g self in
  (find_calls (events_of r) = [] /\ is_Returned (result_of r) = false)
  \/ find_calls (events_of r) = [(q, ignore_window size q)].
Proof.
  intros r.
  destruct (pgo_query_shape size p1 p2 q g self)
    as [[He Hr]|[[He _]|(k & ce & tl & He & Hce & Htl)]]; fold r in He; try fold r in Hr.
  - left. by rewrite He.
  - right. by rewrite He.
  - right. rewrite He. apply candidate_trace_quiet in Hce.
    change (find_calls (FindRelocCandidates_call q (ignore_window size q) false (S k)
                        :: ce ++ tl))
      with ((q, ignore_window size q) :: find_calls (ce ++ tl)).
    rewrite find_calls_app, (quiet_find_calls _ Hce).
    by destruct Htl as [[-> _]|(nv & nc & -> & _)].
Qed.

Lemma pgo_sweep_loop_find_calls (size : nat) p1 p2 fuel q g (self : GMR) :
  (1 <= size)%nat -> Z.of_nat size < 2 ^ 31 - 1 -> 0 <= q < 2 ^ 31 ->
  Z.of_nat size - 1 - q <= Z.of_nat fuel ->
  let r := for_loop fuel
             (fun query_index => to_size_t query_index <? to_size_t (Z.of_nat size - 1))
             (fun query_index => to_int (query_index + 1))
             (pgo_query size p1 p2) q g self in
  find_calls (events_of r) `prefix_of` expected_searches size q
  /\ (is_Returned (result_of r) = true ->
      find_calls (events_of r) = expected_searches size q)
  /\ result_of r <> Timeout.
Proof.
  intros Hsize Hn. revert q g self.
  assert (Hcond : forall q, 0 <= q < 2 ^ 31 ->
            (to_size_t q <? to_size_t (Z.of_nat size - 1)) = (q <? Z.of_nat size - 1)).
  { intros q Hq. by rewrite !to_size_t_small by lia. }
  induction fuel as [|fuel IH]; intros q g self Hq Hfuel; cbv zeta.
  - cbn [for_loop]. rewrite Hcond by exact Hq.
    rewrite (proj2 (Z.ltb_ge _ _)) by lia.
    unfold expected_searches. rewrite seqZ_nil by lia. done.
  - cbn [for_loop]. rewrite Hcond by exact Hq.
    destruct (decide (q < Z.of_nat size - 1)) as [Hlt|Hge].
    + rewrite (proj2 (Z.ltb_lt _ _)) by lia.
      rewrite (to_int_small (q + 1)) by lia.
      assert (Hexp : expected_searches size q =
                     (q, ignore_window size q) :: expected_searches size (q + 1)).
      { unfold expected_searches. rewrite seqZ_cons by lia. simpl.
        rewrite ignore_window_in_range by lia.
        do 3 f_equal; lia. }
      pose proof (pgo_query_find_calls size p1 p2 q g self) as Hbody. cbv zeta in Hbody.
      pose proof (pgo_query_no_Timeout size p1 p2 q g self) as Hto.
      destruct (pgo_query size p1 p2 q g self) as [[[g'| |] s'] e] eqn:E.
      * erewrite bind_Returned by exact E.
        rewrite events_of_prepend, result_of_prepend, find_calls_app.
        destruct Hbody as [[_ Hr]|Hfc]; [discriminate|].
        simpl in Hfc. rewrite Hfc, Hexp.
        destruct (IH (q + 1) g' s') as (Hpre & Heq & Hnt); [lia..|].
        split; [|split].
        -- simpl. by apply prefix_cons.
        -- intros Hret. simpl. f_equal. by apply Heq.
        -- exact Hnt.
      * erewrite bind_Thrown by exact E.
        split; [|split; discriminate]. rewrite Hexp.
        destruct Hbody as [[-> _]|Hfc]; [apply prefix_nil|].
        simpl in Hfc. unfold events_of; simpl snd. rewrite Hfc.
        apply prefix_cons, prefix_nil.
      * done.
    + unfold expected_searches. rewrite seqZ_nil by lia.
      rewrite (proj2 (Z.ltb_ge _ _)) by lia. done.
Qed.

Lemma pgo_chain_graph_empty (self : GMR) :
  pgo_chain_graph 0 self = (Thrown out_of_range, self, []).
Proof. reflexivity. Qed.

(** C3. The sweep of RunPoseGraphOptimization searches candidates for the
    query indices from the number of submaps skipped up to and including
    the index of the second-to-last submap, in that order, and each search
    gets the ignore window "number of submaps - query index + 1".  The run
    ends, by returning or by an exception; one that ends by an exception
    has made an initial part of these searches. *)
Theorem RunPoseGraphOptimization_searches output_path (self : GMR) :
  0 <= pgo_skip_first_n_submaps_ self < 2 ^ 31 ->
  Z.of_nat (length (global_map_ self)) < 2 ^ 31 - 1 ->
  let r := RunPoseGraphOptimization output_path self in
  let expected :=
    expected_searches (length (global_map_ self)) (pgo_skip_first_n_submaps_ self) in
  find_calls (events_of r) `prefix_of` expected
  /\ (result_of r = Returned true -> find_calls (events_of r) = expected)
  /\ result_of r <> Timeout.
Proof.
  intros Hskip Hn r expected.
  destruct (RunPoseGraphOptimization_split output_path self)
    as [(ce & Hce & He & Hr & Hrc)|(ce & graph & s1 & Hchain & Hce & He & Hr & _)];
    fold r in He, Hr; try fold r in Hrc; apply graph_update_quiet in Hce;
    pose proof (pgo_preamble_quiet output_path self) as Hpre.
  - rewrite He, find_calls_app, (quiet_find_calls _ Hpre), (quiet_find_calls _ Hce).
    split; [apply prefix_nil|]. split.
    + intros Hret. rewrite Hret in Hr. discriminate.
    + rewrite Hrc. destruct (pgo_directories_fail output_path); [done|].
      pose proof (pgo_chain_graph_no_Timeout self ltac:(lia)) as Hnt.
      destruct (result_of (pgo_chain_graph _ _)); done.
  - assert (Hpos : (1 <= length (global_map_ self))%nat).
    { destruct (length (global_map_ self)) as [|n'] eqn:Hlen; [|lia].
      rewrite pgo_chain_graph_empty in Hchain. discriminate. }
    subst expected.
    rewrite He, !find_calls_app, (quiet_find_calls _ Hpre), (quiet_find_calls _ Hce).
    simpl app.
    assert (Hsw := pgo_sweep_loop_find_calls (length (global_map_ self))
              (CombinePaths output_path "refinement")
              (CombinePaths output_path "candidate_search")
              (length (global_map_ self)) (pgo_skip_first_n_submaps_ self) graph s1).
    cbv zeta in Hsw. unfold pgo_sweep.
    rewrite (to_int_small (pgo_skip_first_n_submaps_ self)) by lia.
    destruct Hsw as (Hp & Heq & Hnt); [lia..|].
    unfold pgo_sweep in Hr.
    rewrite (to_int_small (pgo_skip_first_n_submaps_ self)) in Hr by lia.
    split; [exact Hp|]. split.
    + intros Hret. apply Heq. rewrite Hret in Hr.
      destruct (result_of (for_loop _ _ _ _ _ _ _)); done.
    + rewrite Hr. destruct (result_of (for_loop _ _ _ _ _ _ _)); done.
Qed.

Lemma for_loop_done {St A} fuel cond incr (body : Z -> A -> M St A) i a s :
  cond i = false -> for_loop fuel cond incr body i a s = (Returned a, s, []).
Proof. intros Hc. destruct fuel; simpl; by rewrite Hc. Qed.

(** C10 (as the code has it). RunPoseGraphOptimization never returns
    false.  With at least one submap, no more submaps than are skipped and
    both directories of the results created, it logs the error and goes on:
    it adds the prior and the chain constraints, makes no search, leaves
    the object as it was and returns true.  When one of the two
    directories cannot be created, which nothing in the function guards
    against, the filesystem error leaves it before the graph is touched. *)
Theorem RunPoseGraphOptimization_returns_true output_path (self : GMR) :
  let r := RunPoseGraphOptimization output_path self in
  let n := length (global_map_ self) in
  (forall b, result_of r = Returned b -> b = true)
  /\ ((1 <= n)%nat ->
      Z.of_nat n < 2 ^ 31 ->
      - 2 ^ 31 <= pgo_skip_first_n_submaps_ self < 2 ^ 31 ->
      Z.of_nat n <= to_size_t (pgo_skip_first_n_submaps_ self) ->
      pgo_directories_fail output_path = false ->
      r = (Returned true, self,
           BEAM_ERROR "Global map size {} not large enough to run PGO, must have at least {} submaps"
           :: create_directory (CombinePaths output_path "refinement")
           :: create_directory (CombinePaths output_path "candidate_search")
           :: replicate n (graph_update 1 1)))
  /\ (pgo_directories_fail output_path = true ->
      result_of r = Thrown (filesystem_error (pgo_failed_directory output_path))
      /\ state_of r = self
      /\ Forall (fun e => is_graph_update e = false) (events_of r)).
Proof.
  intros r n. split; [|split].
  - intros b Hb.
    destruct (RunPoseGraphOptimization_split output_path self)
      as [(ce & _ & _ & Hr & _)|(ce & graph & s1 & _ & _ & _ & Hr & _)]; fold r in Hr.
    + rewrite Hb in Hr. discriminate.
    + rewrite Hb in Hr. destruct (result_of (pgo_sweep _ _ _ _ _)); simpl in Hr; congruence.
  - intros Hn1 Hn Hskip Hle Hdir. subst r n.
    destruct (global_map_ self) as [|first rest] eqn:Hl; [simpl in Hn1; lia|].
    rewrite <- Hl in *.
    rewrite RunPoseGraphOptimization_unfold, Hdir.
    erewrite bind_Returned by (eapply pgo_chain_graph_run; [exact Hl | exact Hn]).
    unfold pgo_sweep.
    erewrite (bind_Returned (for_loop _ _ _ _ _ _)); cycle 1.
    { apply for_loop_done. rewrite (to_int_small _ Hskip).
      rewrite (to_size_t_small (Z.of_nat (length (global_map_ self)) - 1)) by lia.
      apply Z.ltb_ge. lia. }
    unfold pgo_preamble. rewrite (proj2 (Z.leb_le _ _) Hle).
    unfold pgo_directories_fail in Hdir. apply orb_false_elim in Hdir as [-> ->].
    simpl. by rewrite app_nil_r.
  - intros Hdir. subst r.
    rewrite (RunPoseGraphOptimization_no_directory _ _ Hdir).
    split; [reflexivity|]. split; [reflexivity|].
    cbv [events_of snd]. unfold pgo_preamble.
    destruct (_ <=? _),
      (create_directory_fails (CombinePaths output_path "refinement")),
      (create_directory_fails (CombinePaths output_path "candidate_search"));
      repeat constructor.
Qed.

(** ** RefineSubmap *)

Lemma register_scans_run sr registered keyframes g (self : GMR) :
  register_scans sr registered keyframes g self =
  (Returned (foldl HashGraph_update g (transactions sr registered keyframes)), self,
   registration_events sr registered keyframes).
Proof.
  revert registered g. induction keyframes as [|[key scan] rest IH]; intros registered g.
  - reflexivity.
  - simpl. rewrite bind_emit. destruct (sr registered scan) as [t|].
    + unfold graph_update_with. rewrite bind_assoc, bind_emit, bind_ret, IH. reflexivity.
    + rewrite bind_ret, IH. reflexivity.
Qed.

(** What one call of RefineSubmap does, for an output path that passes the
    guard and a configuration the engine can be built from. *)
Lemma RefineSubmap_run (self : GMR) p s output_path sr :
  global_map_ self !! p = Some s ->
  invalid_output_path output_path = false ->
  directory_fails output_path s = false ->
  refinement_engine output_path s self = inr sr ->
  RefineSubmap p output_path self =
  (Returned true, after_refinement sr p s self,
   create_directory (submap_output_of output_path s)
   :: registration_events sr [] (lidar_keyframe_poses s) ++ [graph_optimize]).
Proof.
  intros Hp Hpath Hdir Hsr. unfold RefineSubmap.
  unfold invalid_output_path in Hpath. rewrite Hpath.
  unfold directory_fails, submap_output_of in Hdir.
  rewrite (bind_deref _ _ _ _ Hp), bind_fs_create_directory, Hdir, bind_get.
  unfold refinement_engine, submap_output_of in Hsr. rewrite Hsr, bind_ret.
  erewrite bind_Returned by apply register_scans_run.
  rewrite bind_emit, bind_modify. unfold after_refinement, refined_graph.
  destruct (update_scan_poses _ _ _) as [keyframes summary].
  reflexivity.
Qed.

Lemma RefineSubmap_invalid_path (self : GMR) p output_path :
  invalid_output_path output_path = true ->
  RefineSubmap p output_path self =
  (Thrown (runtime_error "invalid path"), self,
   [BEAM_ERROR "Invalid output path for submap refinement: {}"]).
Proof.
  intros Hpath. unfold RefineSubmap.
  unfold invalid_output_path in Hpath. rewrite Hpath. reflexivity.
Qed.

Lemma RefineSubmap_no_directory (self : GMR) p s output_path :
  global_map_ self !! p = Some s ->
  invalid_output_path output_path = false ->
  directory_fails output_path s = true ->
  RefineSubmap p output_path self =
  (Thrown (filesystem_error (submap_output_of output_path s)), self, []).
Proof.
  intros Hp Hpath Hdir. unfold RefineSubmap.
  unfold invalid_output_path in Hpath. rewrite Hpath.
  unfold directory_fails, submap_output_of in Hdir.
  rewrite (bind_deref _ _ _ _ Hp), bind_fs_create_directory, Hdir.
  reflexivity.
Qed.

Lemma RefineSubmap_no_engine (self : GMR) p s output_path e :
  global_map_ self !! p = Some s ->
  invalid_output_path output_path = false ->
  directory_fails output_path s = false ->
  refinement_engine output_path s self = inl e ->
  RefineSubmap p output_path self =
  (Thrown e, self, [create_directory (submap_output_of output_path s)]).
Proof.
  intros Hp Hpath Hdir Hsr. unfold RefineSubmap.
  unfold invalid_output_path in Hpath. rewrite Hpath.
  unfold directory_fails, submap_output_of in Hdir.
  rewrite (bind_deref _ _ _ _ Hp), bind_fs_create_directory, Hdir, bind_get.
  unfold refinement_engine, submap_output_of in Hsr. rewrite Hsr, bind_throw.
  reflexivity.
Qed.


Lemma AlignSubmaps_no_directory (self : GMR) pr pt tgt output_path :
  global_map_ self !! pt = Some tgt ->
  invalid_output_path output_path = false ->
  directory_fails output_path tgt = true ->
  AlignSubmaps pr pt output_path self =
  (Thrown (filesystem_error (submap_output_of output_path tgt)), self, []).
Proof.
  intros Hp Hpath Hdir. unfold AlignSubmaps.
  unfold invalid_output_path in Hpath. rewrite Hpath.
  unfold directory_fails, submap_output_of in Hdir.
  rewrite (bind_deref _ _ _ _ Hp), bind_fs_create_directory, Hdir.
  reflexivity.
Qed.

Lemma AlignSubmaps_invalid_path (self : GMR) pr pt output_path :
  invalid_output_path output_path = true ->
  AlignSubmaps pr pt output_path self =
  (Thrown (runtime_error "invalid path"), self,
   [BEAM_ERROR "Invalid output path for submap alignment: {}"]).
Proof.
  intros Hpath. unfold AlignSubmaps.
  unfold invalid_output_path in Hpath. rewrite Hpath. reflexivity.
Qed.

(** *** What the solve leaves of the scans *)

Lemma update_scan_poses_keyframes graph keyframes summary :
  fst (update_scan_poses graph keyframes summary) =
  (fun kv => (fst kv, ScanPose_UpdatePose graph (snd kv))) <$> keyframes.
Proof.
  revert summary. induction keyframes as [|[key scan] rest IH]; intros summary.
  - reflexivity.
  - simpl. specialize (IH (emplace_submap_refinement
       (ScanPose_Stamp (ScanPose_UpdatePose graph scan))
       (RegistrationResult_new (T_REFFRAME_BASELINK scan)
          (T_REFFRAME_BASELINK (ScanPose_UpdatePose graph scan))) summary)).
    destruct (update_scan_poses graph rest _) as [rest' summary'].
    simpl in *. by rewrite IH.
Qed.

Lemma ScanPose_UpdatePose_Stamp graph scan :
  ScanPose_Stamp (ScanPose_UpdatePose graph scan) = ScanPose_Stamp scan.
Proof. unfold ScanPose_UpdatePose. by destruct (variables graph !! _). Qed.

Lemma update_scan_poses_summary graph keyframes summary :
  snd (update_scan_poses graph keyframes summary) =
  {| submap_refinement :=
       foldl (fun m kv => emplace (ScanPose_Stamp (snd kv))
                            (refinement_entry graph (snd kv)) m)
         (submap_refinement summary) keyframes;
     submap_alignment := submap_alignment summary |}.
Proof.
  revert summary. induction keyframes as [|[key scan] rest IH]; intros summary.
  - by destruct summary.
  - simpl. specialize (IH (emplace_submap_refinement
       (ScanPose_Stamp (ScanPose_UpdatePose graph scan))
       (RegistrationResult_new (T_REFFRAME_BASELINK scan)
          (T_REFFRAME_BASELINK (ScanPose_UpdatePose graph scan))) summary)).
    destruct (update_scan_poses graph rest _) as [rest' summary'].
    simpl in *. rewrite IH. simpl. by rewrite ScanPose_UpdatePose_Stamp.
Qed.

(** *** emplace *)

Lemma emplace_fresh_size {V} (k : Time) (v : V) (m : gmap Time V) :
  m !! k = None -> size (emplace k v m) = S (size m).
Proof. intros Hk. unfold emplace. rewrite Hk. by apply map_size_insert_None. Qed.

Section SummaryFold.
Context (graph : HashGraph).

Abbreviation step := (summary_step graph).

Lemma summary_fold_keeps keyframes m t v :
  m !! t = Some v -> foldl step m keyframes !! t = Some v.
Proof.
  revert m. induction keyframes as [|kv rest IH]; intros m Hm; [exact Hm|].
  simpl. apply IH. unfold summary_step. rewrite lookup_emplace. by rewrite Hm.
Qed.

Lemma summary_fold_other keyframes m t :
  m !! t = None ->
  Forall (fun kv => ScanPose_Stamp (snd kv) <> t) keyframes ->
  foldl step m keyframes !! t = None.
Proof.
  revert m. induction keyframes as [|kv rest IH]; intros m Hm Hne; [exact Hm|].
  inversion Hne as [|? ? Hkv Hrest]; subst.
  simpl. apply IH; [|exact Hrest]. unfold summary_step. rewrite lookup_emplace, Hm.
  by case_decide.
Qed.

Lemma summary_fold_fresh keyframes m :
  NoDup ((fun kv => ScanPose_Stamp (snd kv)) <$> keyframes) ->
  Forall (fun kv => m !! ScanPose_Stamp (snd kv) = None) keyframes ->
  size (foldl step m keyframes) = (size m + length keyframes)%nat
  /\ forall i kv, keyframes !! i = Some kv ->
       foldl step m keyframes !! ScanPose_Stamp (snd kv) =
       Some (refinement_entry graph (snd kv)).
Proof.
  revert m. induction keyframes as [|kv0 rest IH]; intros m Hnd Hfresh.
  - split; [simpl; lia | intros i kv Hi; done].
  - apply NoDup_cons in Hnd as [Hnotin Hnd].
    inversion Hfresh as [|? ? Hkv0 Hrest]; subst.
    assert (Hrest' : Forall (fun kv => step m kv0 !! ScanPose_Stamp (snd kv) = None) rest).
    { apply Forall_forall. intros kv Hin.
      unfold summary_step. rewrite lookup_emplace.
      rewrite (proj1 (Forall_forall _ _) Hrest kv Hin).
      case_decide as Heq; [|done]. exfalso. apply Hnotin.
      rewrite Heq. apply list_elem_of_fmap. by exists kv. }
    destruct (IH (step m kv0) Hnd Hrest') as [Hsize Hlook].
    split.
    + simpl. rewrite Hsize. unfold summary_step. rewrite emplace_fresh_size by exact Hkv0. lia.
    + intros [|i] kv Hi; simpl in Hi.
      * simplify_eq. simpl. apply summary_fold_keeps.
        unfold summary_step. rewrite lookup_emplace, Hkv0. by case_decide.
      * simpl. by eapply Hlook.
Qed.

End SummaryFold.

(** *** The variables of the local graph *)




Lemma after_refinement_keyframes sr p s (self : GMR) :
  global_map_ self !! p = Some s ->
  global_map_ (after_refinement sr p s self) !! p =
  Some (Submap_set_keyframes
          ((fun kv => (fst kv, ScanPose_UpdatePose (refined_graph sr s) (snd kv)))
             <$> lidar_keyframe_poses s) s).
Proof.
  intros Hp. unfold after_refinement.
  rewrite <- update_scan_poses_keyframes with (summary := summary_ self).
  destruct (update_scan_poses _ _ _) as [keyframes summary]. simpl.
  apply list_lookup_insert_eq. by eapply lookup_lt_Some.
Qed.

Lemma after_refinement_summary sr p s (self : GMR) :
  summary_ (after_refinement sr p s self) =
  {| submap_refinement :=
       foldl (fun m kv => emplace (ScanPose_Stamp (snd kv))
                            (refinement_entry (refined_graph sr s) (snd kv)) m)
         (submap_refinement (summary_ self)) (lidar_keyframe_poses s);
     submap_alignment := submap_alignment (summary_ self) |}.
Proof.
  unfold after_refinement.
  rewrite <- update_scan_poses_summary.
  by destruct (update_scan_poses _ _ _) as [keyframes summary].
Qed.



(** C8 (as the code has it). RefineSubmap returns once it is past its
    setup: the output path passes the guard, the directory of the submap
    can be created and the engine can be built.  It then never replaces or
    doubles an entry of the refinement summary: what was there stays, and
    no stamp other than those of the scans gets an entry.  When the stamps of the
    scans of the submap are distinct and none of them is in the summary
    yet, the summary grows by exactly one entry for each scan, under the
    stamp of the scan, comparing its pose before the solve with its pose
    after, whether its registration succeeded or not.  The alignment
    summary is not touched. *)
Theorem RefineSubmap_summary (self : GMR) p s output_path sr :
  global_map_ self !! p = Some s ->
  invalid_output_path output_path = false ->
  directory_fails output_path s = false ->
  refinement_engine output_path s self = inr sr ->
  let final := state_of (RefineSubmap p output_path self) in
  let before := submap_refinement (summary_ self) in
  let after := submap_refinement (summary_ final) in
  result_of (RefineSubmap p output_path self) = Returned true
  /\ (forall t v, before !! t = Some v -> after !! t = Some v)
  /\ (forall t, before !! t = None ->
        Forall (fun kv => ScanPose_Stamp (snd kv) <> t) (lidar_keyframe_poses s) ->
        after !! t = None)
  /\ (NoDup ((fun kv => ScanPose_Stamp (snd kv)) <$> lidar_keyframe_poses s) ->
      Forall (fun kv => before !! ScanPose_Stamp (snd kv) = None)
        (lidar_keyframe_poses s) ->
      size after = (size before + length (lidar_keyframe_poses s))%nat
      /\ forall i key scan,
           lidar_keyframe_poses s !! i = Some (key, scan) ->
           exists s' scan',
             global_map_ final !! p = Some s'
             /\ lidar_keyframe_poses s' !! i = Some (key, scan')
             /\ after !! ScanPose_Stamp scan =
                Some (RegistrationResult_new (T_REFFRAME_BASELINK scan)
                        (T_REFFRAME_BASELINK scan')))
  /\ submap_alignment (summary_ final) = submap_alignment (summary_ self).
Proof.
  intros Hp Hpath Hdir Hsr final before after. subst final before after.
  rewrite (RefineSubmap_run _ _ _ _ _ Hp Hpath Hdir Hsr).
  unfold state_of; simpl fst; simpl snd.
  rewrite after_refinement_summary. simpl.
  split; [reflexivity|]. split; [|split; [|split]].
  - intros t v Ht. by apply summary_fold_keeps.
  - intros t Ht Hne. by apply summary_fold_other.
  - intros Hnd Hfresh.
    destruct (summary_fold_fresh (refined_graph sr s) _ _ Hnd Hfresh) as [Hsize Hlook].
    split; [exact Hsize|].
    intros i key scan Hi.
    eexists _, (ScanPose_UpdatePose (refined_graph sr s) scan).
    split; [apply (after_refinement_keyframes _ _ _ _ Hp)|].
    split.
    + simpl. by rewrite list_lookup_fmap, Hi.
    + apply (Hlook i (key, scan) Hi).
  - reflexivity.
Qed.

(** ** Configuration *)

Lemma ValidateJsonKeysOrThrow_Returned {St} keys J (s s' : St) u evs :
  ValidateJsonKeysOrThrow keys J s = (Returned u, s', evs) ->
  forallb (json_contains J) keys = true.
Proof.
  induction keys as [|k keys IH]; [reflexivity|].
  simpl. destruct (json_contains J k); [exact IH | discriminate].
Qed.

Lemma ValidateJsonKeysOrThrow_state {St} keys J (s : St) :
  state_of (ValidateJsonKeysOrThrow keys J s) = s.
Proof.
  induction keys as [|k keys IH]; [reflexivity|].
  simpl. destruct (json_contains J k); [exact IH | reflexivity].
Qed.

Lemma json_at_Returned {St} J k (s s' : St) j evs :
  json_at J k s = (Returned j, s', evs) -> j = json_section J k.
Proof.
  unfold json_at, json_section. destruct J as [| | |ms]; try discriminate.
  - by intros [= <- _ _].
  - destruct (members_find k ms); by intros [= <- _ _].
Qed.

(** LoadJson returns only from an empty path or from a file that could be
    read and has every required key. *)
Lemma LoadJson_Returned config_path (p p' : Params) evs :
  LoadJson config_path p = (Returned tt, p', evs) ->
  config_path = ""
  \/ exists J, ReadJson config_path = Some J /\ required_keys_present J = true.
Proof.
  unfold LoadJson. destruct (String.eqb_spec config_path "") as [->|Hne]; [by left|].
  right. destruct (ReadJson config_path) as [J|]; [|discriminate].
  exists J. split; [reflexivity|].
  repeat match goal with
  | Hb : bind _ _ _ = (Returned _, _, _) |- _ =>
      apply bind_inv_Returned in Hb as (? & ? & ? & ? & ? & Hb & ?)
  end.
  repeat match goal with
  | Hv : ValidateJsonKeysOrThrow _ _ _ = (Returned _, _, _) |- _ =>
      apply ValidateJsonKeysOrThrow_Returned in Hv
  | Hj : json_at _ _ _ = (Returned _, _, _) |- _ =>
      apply json_at_Returned in Hj
  end.
  subst. unfold required_keys_present.
  repeat match goal with
  | Hv : forallb _ _ = true |- _ => rewrite Hv; clear Hv
  end.
  reflexivity.
Qed.

Lemma params_LoadJson_keeps config_path (self : GMR) :
  global_map_ (state_of (params_LoadJson config_path self)) = global_map_ self
  /\ summary_ (state_of (params_LoadJson config_path self)) = summary_ self.
Proof.
  unfold params_LoadJson. by destruct (LoadJson config_path (params_ self)) as [[o p] e].
Qed.

Lemma Setup_run (self : GMR) :
  let m_conf := alignment_matcher_config (submap_alignment_params (params_ self)) in
  (GetTypeFromConfig m_conf = UNKNOWN
   /\ Setup self = (Thrown (invalid_argument "invalid json"), self,
                    [BEAM_ERROR "Invalid matcher type"]))
  \/ (GetTypeFromConfig m_conf <> UNKNOWN
      /\ result_of (Setup self) = Returned tt
      /\ global_map_ (state_of (Setup self)) = global_map_ self
      /\ summary_ (state_of (Setup self)) = summary_ self
      /\ params_ (state_of (Setup self)) = params_ self).
Proof.
  cbv zeta. unfold Setup. rewrite bind_get.
  destruct (GetTypeFromConfig _); [right..|left]; try (split; [discriminate|]);
    try (rewrite bind_modify; done).
  split; [reflexivity|]. rewrite bind_assoc, bind_emit, bind_throw. reflexivity.
Qed.

Lemma ValidateJsonKeysOrThrow_no_Timeout {St} keys J (s : St) :
  result_of (ValidateJsonKeysOrThrow keys J s) <> Timeout.
Proof.
  induction keys as [|k keys IH]; [discriminate|].
  simpl. destruct (json_contains J k); [exact IH | discriminate].
Qed.

Lemma LoadJson_no_Timeout config_path (p : Params) :
  result_of (LoadJson config_path p) <> Timeout.
Proof.
  unfold LoadJson. destruct (String.eqb config_path ""); [discriminate|].
  destruct (ReadJson config_path) as [J|]; [|discriminate].
  repeat first
    [ apply ValidateJsonKeysOrThrow_no_Timeout
    | apply bind_no_Timeout; [|intros ? ?]
    | progress unfold json_at, as_string, as_double, when
    | match goal with
      | |- result_of ((if ?b then _ else _) _) <> _ => destruct b
      | |- result_of (match ?x with _ => _ end _) <> _ => destruct x
      end
    | discriminate ].
Qed.

Lemma LoadJson_missing_key config_path J (p : Params) :
  config_path <> "" -> ReadJson config_path = Some J ->
  required_keys_present J = false ->
  exists e, result_of (LoadJson config_path p) = Thrown e.
Proof.
  intros Hne HJ Hkeys.
  pose proof (LoadJson_no_Timeout config_path p) as Hto.
  destruct (LoadJson config_path p) as [[[[]|e|] p'] evs] eqn:E.
  - apply LoadJson_Returned in E as [->|(J' & HJ' & Hk)]; [done|]. congruence.
  - by exists e.
  - done.
Qed.

(** C9 (as the code has it). A configuration file that cannot be read, a
    required key that is missing and an invalid matcher type are raised by
    the constructor, which touches neither the submaps nor the summary: no
    object exists on which a stage could run.  An invalid output path is
    not found at construction: RefineSubmap and AlignSubmaps raise it at
    the start of each call, before that call changes anything. *)
Theorem configuration_errors (global_map : list Submap) (config_path : string) :
  let r := GlobalMapRefinement_new_from_config global_map config_path in
  (global_map_ (state_of r) = global_map /\ summary_ (state_of r) = empty_summary)
  /\ (config_path <> "" -> ReadJson config_path = None ->
      result_of r =
      Thrown (runtime_error "Unable to read global map refinement config"))
  /\ (forall J, config_path <> "" -> ReadJson config_path = Some J ->
      required_keys_present J = false -> exists e, result_of r = Thrown e)
  /\ (GetTypeFromConfig
        (alignment_matcher_config (submap_alignment_params (params_ (state_of r))))
      = UNKNOWN -> exists e, result_of r = Thrown e)
  /\ (forall params,
        GetTypeFromConfig (alignment_matcher_config (submap_alignment_params params))
        = UNKNOWN ->
        GlobalMapRefinement_new global_map params =
        (Thrown (invalid_argument "invalid json"), uninitialised global_map params,
         [BEAM_ERROR "Invalid matcher type"]))
  /\ (forall (self : GMR) p output_path,
        invalid_output_path output_path = true ->
        RefineSubmap p output_path self =
        (Thrown (runtime_error "invalid path"), self,
         [BEAM_ERROR "Invalid output path for submap refinement: {}"]))
  /\ (forall (self : GMR) pr pt output_path,
        invalid_output_path output_path = true ->
        AlignSubmaps pr pt output_path self =
        (Thrown (runtime_error "invalid path"), self,
         [BEAM_ERROR "Invalid output path for submap alignment: {}"])).
Proof.
  intros r. subst r. unfold GlobalMapRefinement_new_from_config.
  set (self0 := uninitialised global_map default_Params).
  pose proof (params_LoadJson_keeps config_path self0) as [Hgm Hsm].
  assert (Hload : result_of (params_LoadJson config_path self0)
                  = result_of (LoadJson config_path default_Params)).
  { unfold params_LoadJson. simpl.
    by destruct (LoadJson config_path default_Params) as [[o p] e]. }
  repeat split.
  - rewrite state_of_bind.
    destruct (result_of (params_LoadJson config_path self0)); try exact Hgm.
    destruct (Setup_run (state_of (params_LoadJson config_path self0)))
      as [[_ ->]|(_ & _ & -> & _)]; exact Hgm.
  - rewrite state_of_bind.
    destruct (result_of (params_LoadJson config_path self0)); try exact Hsm.
    destruct (Setup_run (state_of (params_LoadJson config_path self0)))
      as [[_ ->]|(_ & _ & _ & -> & _)]; exact Hsm.
  - intros Hne Hread. rewrite result_of_bind, Hload.
    unfold LoadJson. rewrite (proj2 (String.eqb_neq _ _) Hne), Hread. reflexivity.
  - intros J Hne Hread Hkeys. rewrite result_of_bind, Hload.
    destruct (LoadJson_missing_key _ _ default_Params Hne Hread Hkeys) as [e ->].
    by exists e.
  - rewrite result_of_bind, state_of_bind.
    pose proof (LoadJson_no_Timeout config_path default_Params) as Hto.
    rewrite <- Hload in Hto.
    destruct (result_of (params_LoadJson config_path self0)) as [[]|e|]; [|by eauto|done].
    intros Hunknown.
    destruct (Setup_run (state_of (params_LoadJson config_path self0)))
      as [[_ Hs]|(Hk & _ & _ & _ & Hp)].
    + rewrite Hs. by eexists.
    + rewrite Hp in Hunknown. done.
  - intros params Hunknown. unfold GlobalMapRefinement_new.
    destruct (Setup_run (uninitialised global_map params)) as [[_ Hs]|[Hk _]]; [exact Hs|].
    done.
  - intros. by apply RefineSubmap_invalid_path.
  - intros. by apply AlignSubmaps_invalid_path.
Qed.

End Theory.

(** * Further properties *)

(** ** Loops and the state *)
Section LoopInvariants.
Context {St : Type}.

(** A property of the state that every step of the body keeps is kept by
    the loop, however the loop ends.  [J] is what is known of the counter. *)
Lemma for_loop_return_state_inv {R} (P : St -> Prop) (J : Z -> Prop)
    fuel cond incr (body : Z -> M St (option R)) :
  (forall i, J i -> cond i = true -> J (incr i)) ->
  (forall i s, J i -> cond i = true -> P s -> P (state_of (body i s))) ->
  forall i s, J i -> P s -> P (state_of (for_loop_return fuel cond incr body i s)).
Proof.
  intros Hincr Hbody. induction fuel as [|fuel IH]; intros i s Hi Hs; simpl.
  - by destruct (cond i).
  - destruct (cond i) eqn:Hc; [|exact Hs].
    specialize (Hbody i s Hi Hc Hs). rewrite state_of_bind.
    destruct (body i s) as [[[[r|]| |] s'] e]; simpl in *; try exact Hbody.
    apply IH; [by apply Hincr | exact Hbody].
Qed.

Lemma for_loop_state_inv {A} (P : St -> Prop) (J : Z -> Prop)
    fuel cond incr (body : Z -> A -> M St A) :
  (forall i, J i -> cond i = true -> J (incr i)) ->
  (forall i a s, J i -> cond i = true -> P s -> P (state_of (body i a s))) ->
  forall i a s, J i -> P s -> P (state_of (for_loop fuel cond incr body i a s)).
Proof.
  intros Hincr Hbody. induction fuel as [|fuel IH]; intros i a s Hi Hs; simpl.
  - by destruct (cond i).
  - destruct (cond i) eqn:Hc; [|exact Hs].
    specialize (Hbody i a s Hi Hc Hs). rewrite state_of_bind.
    destruct (body i a s) as [[[a'| |] s'] e]; simpl in *; try exact Hbody.
    apply IH; [by apply Hincr | exact Hbody].
Qed.

Lemma for_loop_inv {A} (Inv : A -> St -> Prop) (P : St -> Prop)
    fuel cond incr (body : Z -> A -> M St A) :
  (forall a s, Inv a s -> P s) ->
  (forall i a s, Inv a s ->
     P (state_of (body i a s))
     /\ forall a', result_of (body i a s) = Returned a' ->
                   Inv a' (state_of (body i a s))) ->
  forall i a s, Inv a s -> P (state_of (for_loop fuel cond incr body i a s)).
Proof.
  intros HP Hbody. induction fuel as [|fuel IH]; intros i a s Hinv; simpl.
  - destruct (cond i); by apply (HP a).
  - destruct (cond i); [|by apply (HP a)].
    destruct (Hbody i a s Hinv) as [Hp Hi]. rewrite state_of_bind.
    destruct (body i a s) as [[[a'| |] s'] e]; simpl in *; try exact Hp.
    apply IH. by apply Hi.
Qed.

Lemma for_loop_no_throw {A} (P : St -> Prop) (J : Z -> Prop)
    fuel cond incr (body : Z -> A -> M St A) :
  (forall i, J i -> cond i = true -> J (incr i)) ->
  (forall i a s, J i -> cond i = true -> P s ->
     P (state_of (body i a s)) /\ forall e, result_of (body i a s) <> Thrown e) ->
  forall i a s e, J i -> P s ->
    result_of (for_loop fuel cond incr body i a s) <> Thrown e.
Proof.
  intros Hincr Hbody. induction fuel as [|fuel IH]; intros i a s e Hi Hs; simpl.
  - by destruct (cond i).
  - destruct (cond i) eqn:Hc; [|done].
    destruct (Hbody i a s Hi Hc Hs) as [Hp Hne]. rewrite result_of_bind.
    destruct (body i a s) as [[[a'| |] s'] ev]; simpl in *.
    + apply IH; [by apply Hincr | exact Hp].
    + by destruct (Hne e0).
    + done.
Qed.

Lemma state_of_bind_same {A B} (m : M St A) (f : A -> M St B) s :
  state_of (m s) = s -> (forall a, state_of (f a s) = s) -> state_of (bind m f s) = s.
Proof.
  intros Hm Hf. rewrite state_of_bind, Hm.
  destruct (result_of (m s)); [apply Hf | reflexivity..].
Qed.

End LoopInvariants.

(** A computation built from binds that leaves the state as it was. *)
Ltac same_state_step :=
  first
    [ reflexivity
    | apply state_of_bind_same; [|intros ?]
    | progress (unfold submaps_at, deref, when, graph_update_with)
    | match goal with
      | |- state_of ((if ?b then _ else _) _) = _ => destruct b
      | |- state_of (match ?x with Some _ => _ | None => _ end _) = _ => destruct x
      end ].

Section MoreTheory.
Context `{Collaborators}.

(** ** What the stages leave alone *)

Lemma same_setup_refl (a : GMR) : same_setup a a.
Proof. by repeat split. Qed.

Lemma same_setup_trans (a b c : GMR) :
  same_setup a b -> same_setup b c -> same_setup a c.
Proof.
  intros (?&?&?&?&?&?&?) (?&?&?&?&?&?&?). repeat split; congruence.
Qed.

Lemma refinement_frame_refl (a : GMR) : refinement_frame a a.
Proof. split; [apply same_setup_refl|]. by repeat split. Qed.

Lemma refinement_frame_trans (a b c : GMR) :
  refinement_frame a b -> refinement_frame b c -> refinement_frame a c.
Proof.
  intros (?&?&?&?&?&?) (?&?&?&?&?&?).
  split; [by eapply same_setup_trans|]. repeat split; congruence.
Qed.

Lemma alignment_frame_refl (a : GMR) : alignment_frame a a.
Proof. split; [apply same_setup_refl|]. by repeat split. Qed.

Lemma alignment_frame_trans (a b c : GMR) :
  alignment_frame a b -> alignment_frame b c -> alignment_frame a c.
Proof.
  intros (?&?&?&?&?) (?&?&?&?&?).
  split; [by eapply same_setup_trans|]. repeat split; congruence.
Qed.

Lemma pgo_frame_refl (a : GMR) : pgo_frame a a.
Proof. split; [apply same_setup_refl|]. by repeat split. Qed.

Lemma pgo_frame_trans (a b c : GMR) :
  pgo_frame a b -> pgo_frame b c -> pgo_frame a c.
Proof.
  intros (?&?&?&?&?) (?&?&?&?&?).
  split; [by eapply same_setup_trans|]. repeat split; congruence.
Qed.

Lemma fmap_insert_same {A B} (f : A -> B) (l : list A) i x y :
  l !! i = Some x -> f y = f x -> f <$> <[i := y]> l = f <$> l.
Proof.
  intros Hi Hf. rewrite list_fmap_insert, Hf.
  apply list_insert_id. by rewrite list_lookup_fmap, Hi.
Qed.

Lemma RefineSubmap_null (self : GMR) p output_path :
  global_map_ self !! p = None ->
  invalid_output_path output_path = false ->
  RefineSubmap p output_path self = (Thrown null_dereference, self, []).
Proof.
  intros Hp Hpath. unfold RefineSubmap.
  unfold invalid_output_path in Hpath. rewrite Hpath.
  unfold deref. rewrite bind_assoc, bind_get, Hp. reflexivity.
Qed.

Lemma scan_identity_UpdatePose graph key scan :
  scan_identity (key, ScanPose_UpdatePose graph scan) = scan_identity (key, scan).
Proof.
  unfold scan_identity, ScanPose_UpdatePose. cbn [fst snd].
  by destruct (variables graph !! ScanPose_Stamp scan).
Qed.

Lemma after_refinement_frame sr p s (self : GMR) :
  global_map_ self !! p = Some s ->
  refinement_frame self (after_refinement sr p s self).
Proof.
  intros Hp.
  assert (Hsum := after_refinement_summary sr p s self).
  unfold after_refinement in *.
  pose proof (update_scan_poses_keyframes (refined_graph sr s)
                (lidar_keyframe_poses s) (summary_ self)) as Hk.
  destruct (update_scan_poses _ _ _) as [keyframes summary]. simpl in *.
  split; [by repeat split|].
  split; [by apply (fmap_insert_same _ _ _ _ _ Hp)|].
  split; [by apply (fmap_insert_same _ _ _ _ _ Hp)|].
  split; [by apply (fmap_insert_same _ _ _ _ _ Hp)|].
  split; [|by rewrite Hsum].
  apply (fmap_insert_same _ _ _ _ _ Hp). simpl. rewrite Hk.
  rewrite <- list_fmap_compose. apply list_fmap_ext. intros i [key scan] _.
  apply scan_identity_UpdatePose.
Qed.

Lemma RefineSubmap_frame (self : GMR) p output_path :
  refinement_frame self (state_of (RefineSubmap p output_path self)).
Proof.
  destruct (invalid_output_path output_path) eqn:Hpath.
  { rewrite RefineSubmap_invalid_path by exact Hpath. apply refinement_frame_refl. }
  destruct (global_map_ self !! p) as [s|] eqn:Hp.
  - destruct (directory_fails output_path s) eqn:Hdir.
    { rewrite (RefineSubmap_no_directory _ _ _ _ Hp Hpath Hdir).
      apply refinement_frame_refl. }
    destruct (refinement_engine output_path s self) as [e|sr] eqn:Hsr.
    + rewrite (RefineSubmap_no_engine _ _ _ _ _ Hp Hpath Hdir Hsr).
      apply refinement_frame_refl.
    + rewrite (RefineSubmap_run _ _ _ _ _ Hp Hpath Hdir Hsr).
      by apply after_refinement_frame.
  - rewrite (RefineSubmap_null _ _ _ Hp Hpath). apply refinement_frame_refl.
Qed.

Lemma bind_submaps_at {St B} size i (k : nat -> M St B) s :
  bind (submaps_at size i) k s =
  if to_size_t i <? Z.of_nat size then k (Z.to_nat (to_size_t i)) s
  else (Thrown out_of_range, s, []).
Proof.
  unfold submaps_at. destruct (_ <? _); [by rewrite bind_ret | reflexivity].
Qed.

Lemma AlignSubmaps_null_target (self : GMR) pr pt output_path :
  global_map_ self !! pt = None ->
  invalid_output_path output_path = false ->
  AlignSubmaps pr pt output_path self = (Thrown null_dereference, self, []).
Proof.
  intros Hp Hpath. unfold AlignSubmaps.
  unfold invalid_output_path in Hpath. rewrite Hpath.
  unfold deref at 1. rewrite bind_assoc, bind_get, Hp. reflexivity.
Qed.

Lemma AlignSubmaps_null_reference (self : GMR) pr pt tgt output_path :
  global_map_ self !! pt = Some tgt ->
  global_map_ self !! pr = None ->
  invalid_output_path output_path = false ->
  directory_fails output_path tgt = false ->
  AlignSubmaps pr pt output_path self =
  (Thrown null_dereference, self,
   [create_directory (submap_output_of output_path tgt)]).
Proof.
  intros Ht Hr Hpath Hdir. unfold AlignSubmaps.
  unfold invalid_output_path in Hpath. rewrite Hpath.
  unfold directory_fails, submap_output_of in Hdir.
  rewrite (bind_deref _ _ _ _ Ht), bind_fs_create_directory, Hdir.
  unfold deref at 1. rewrite bind_assoc, bind_get, Hr. reflexivity.
Qed.

Lemma after_alignment_frame pt tgt T (self : GMR) :
  global_map_ self !! pt = Some tgt ->
  alignment_frame self (after_alignment pt tgt T self).
Proof.
  intros Hp. unfold after_alignment. simpl.
  split; [by repeat split|].
  repeat split; try by apply (fmap_insert_same _ _ _ _ _ Hp).
Qed.

(** The ways one call of AlignSubmaps ends. *)
Lemma AlignSubmaps_state (self : GMR) pr pt output_path :
  state_of (AlignSubmaps pr pt output_path self) = self
  \/ exists ref tgt T,
       global_map_ self !! pr = Some ref /\ global_map_ self !! pt = Some tgt
       /\ result_of (AlignSubmaps pr pt output_path self) = Returned true
       /\ state_of (AlignSubmaps pr pt output_path self) = after_alignment pt tgt T self.
Proof.
  destruct (invalid_output_path output_path) eqn:Hpath.
  { left. by rewrite AlignSubmaps_invalid_path. }
  destruct (global_map_ self !! pt) as [tgt|] eqn:Ht;
    [|left; by rewrite AlignSubmaps_null_target].
  destruct (directory_fails output_path tgt) eqn:Hdir;
    [left; by erewrite AlignSubmaps_no_directory|].
  destruct (global_map_ self !! pr) as [ref|] eqn:Hr;
    [|left; by erewrite AlignSubmaps_null_reference].
  rewrite (AlignSubmaps_run _ _ _ _ _ _ Hr Ht Hpath Hdir). cbv zeta.
  destruct (matcher_loam_ self) as [m|]; [|destruct (matcher_ self) as [m|]].
  - right. by eexists ref, tgt, _.
  - right. by eexists ref, tgt, _.
  - by left.
Qed.

Lemma AlignSubmaps_frame (self : GMR) pr pt output_path :
  alignment_frame self (state_of (AlignSubmaps pr pt output_path self)).
Proof.
  destruct (AlignSubmaps_state self pr pt output_path)
    as [->|(ref & tgt & T & _ & Ht & _ & ->)].
  - apply alignment_frame_refl.
  - by apply after_alignment_frame.
Qed.

Lemma pgo_candidates_state size path q cands txn (self : GMR) :
  state_of (pgo_candidates size path q cands txn self) = self.
Proof.
  revert txn. induction cands as [|[m T] cands IH]; intros txn.
  - reflexivity.
  - simpl. destruct (q - 1 <=? m).
    + apply state_of_bind_same; [reflexivity|]. intros. apply IH.
    + repeat first [apply IH | same_state_step].
Qed.

Lemma pgo_chain_graph_state size (self : GMR) :
  state_of (pgo_chain_graph size self) = self.
Proof.
  unfold pgo_chain_graph. apply state_of_bind_same.
  - unfold pgo_add_prior. repeat same_state_step.
  - intros graph.
    apply (for_loop_state_inv (fun s => s = self) (fun _ => True));
      [done| |done..].
    intros i g s _ _ ->. unfold pgo_add_relative. repeat same_state_step.
Qed.

Lemma UpdateSubmapPoses_frame graph (self : GMR) :
  pgo_frame self (set_global_map (UpdateSubmapPoses graph) self).
Proof.
  split; [by repeat split|]. simpl. unfold UpdateSubmapPoses.
  repeat split; rewrite <- list_fmap_compose; apply list_fmap_ext;
    intros i s _; simpl; by destruct (variables graph !! Stamp s).
Qed.

Lemma pgo_query_frame size p1 p2 q g (self : GMR) :
  pgo_frame self (state_of (pgo_query size p1 p2 q g self)).
Proof.
  unfold pgo_query.
  unfold submaps_at at 1. destruct (to_size_t q <? Z.of_nat size);
    [rewrite bind_ret | apply pgo_frame_refl].
  unfold deref at 1. rewrite bind_assoc, bind_get.
  destruct (global_map_ self !! Z.to_nat (to_size_t q)) as [query_submap|];
    [rewrite bind_ret | apply pgo_frame_refl].
  rewrite bind_get.
  destruct (loop_closure_candidate_search_ self) as [cs|];
    [rewrite bind_ret | apply pgo_frame_refl].
  rewrite bind_emit, state_of_prepend.
  destruct (cs _ _ _ _ _) as [|c cands]; [apply pgo_frame_refl|].
  rewrite state_of_bind.
  rewrite pgo_candidates_state.
  destruct (result_of (pgo_candidates _ _ _ _ _ _)) as [txn| |];
    [|apply pgo_frame_refl..].
  unfold graph_update_with. rewrite bind_assoc, bind_emit, bind_ret, bind_emit.
  rewrite bind_emit, bind_modify. apply UpdateSubmapPoses_frame.
Qed.

(** X1. The refinement stage changes scan poses and the refinement summary,
    and nothing else: whatever the map, the output path and the way the
    stage ends, the setup, the stamps, both poses of every submap, the
    keys, stamps and clouds of the scans and the alignment summary are as
    they were. *)
Theorem RunSubmapRefinement_frame output_path (self : GMR) :
  refinement_frame self (state_of (RunSubmapRefinement output_path self)).
Proof.
  unfold RunSubmapRefinement. rewrite bind_get, state_of_bind.
  set (loop := for_loop_return _ _ _ _ _ _).
  assert (Hloop : refinement_frame self (state_of loop)).
  { subst loop.
    apply (for_loop_return_state_inv (refinement_frame self) (fun _ => True));
      [done| |done|apply refinement_frame_refl].
    intros i s _ _ Hs. rewrite bind_submaps_at.
    destruct (_ <? _); [|exact Hs].
    rewrite state_of_bind.
    pose proof (RefineSubmap_frame s (Z.to_nat (to_size_t i)) output_path) as Hf.
    assert (Hs' := refinement_frame_trans _ _ _ Hs Hf).
    destruct (RefineSubmap _ _ _) as [[[[]| |] s'] e]; simpl in *; exact Hs'. }
  destruct (result_of loop) as [[b|]| |]; exact Hloop.
Qed.

(** X2. The alignment stage changes the current pose of submaps and the
    alignment summary, and nothing else: the setup, the stamps, the
    initial poses, every scan keyframe and the refinement summary are as
    they were, however the stage ends. *)
Theorem RunSubmapAlignment_frame output_path (self : GMR) :
  alignment_frame self (state_of (RunSubmapAlignment output_path self)).
Proof.
  unfold RunSubmapAlignment. rewrite bind_get.
  destruct (_ <? 2); [apply alignment_frame_refl|].
  rewrite state_of_bind.
  set (loop := for_loop_return _ _ _ _ _ _).
  assert (Hloop : alignment_frame self (state_of loop)).
  { subst loop.
    apply (for_loop_return_state_inv (alignment_frame self) (fun _ => True));
      [done| |done|apply alignment_frame_refl].
    intros i s _ _ Hs. rewrite bind_submaps_at.
    destruct (_ <? _); [|exact Hs].
    rewrite bind_submaps_at.
    destruct (_ <? _); [|exact Hs].
    rewrite state_of_bind.
    pose proof (AlignSubmaps_frame s (Z.to_nat (to_size_t (to_int (i - 1))))
                  (Z.to_nat (to_size_t i)) output_path) as Hf.
    assert (Hs' := alignment_frame_trans _ _ _ Hs Hf).
    destruct (AlignSubmaps _ _ _ _) as [[[[]| |] s'] e]; simpl in *; exact Hs'. }
  destruct (result_of loop) as [[b|]| |]; exact Hloop.
Qed.

(** X3. The pose-graph stage changes the current pose of submaps, and nothing
    else: the setup, the stamps, the initial poses, every scan keyframe and
    both summaries are as they were, however the stage ends. *)
Theorem RunPoseGraphOptimization_frame output_path (self : GMR) :
  pgo_frame self (state_of (RunPoseGraphOptimization output_path self)).
Proof.
  rewrite RunPoseGraphOptimization_unfold, state_of_prepend.
  destruct (pgo_directories_fail output_path); [apply pgo_frame_refl|].
  rewrite state_of_bind.
  rewrite pgo_chain_graph_state.
  destruct (result_of (pgo_chain_graph _ _)) as [graph| |]; [|apply pgo_frame_refl..].
  rewrite state_of_bind. unfold pgo_sweep.
  set (loop := for_loop _ _ _ _ _ _ _).
  assert (Hloop : pgo_frame self (state_of loop)).
  { subst loop.
    apply (for_loop_state_inv (pgo_frame self) (fun _ => True));
      [done| |done|apply pgo_frame_refl].
    intros i g s _ _ Hs. eapply pgo_frame_trans; [exact Hs|]. apply pgo_query_frame. }
  destruct (result_of loop); exact Hloop.
Qed.

Lemma AlignSubmaps_matched (self : GMR) pr pt ref tgt output_path mt :
  global_map_ self !! pr = Some ref ->
  global_map_ self !! pt = Some tgt ->
  invalid_output_path output_path = false ->
  directory_fails output_path tgt = false ->
  alignment_matcher self = Some mt ->
  AlignSubmaps pr pt output_path self =
  (Returned true, after_alignment pt tgt (aligned ref tgt (snd (mt ref tgt))) self,
   alignment_events output_path tgt (fst (mt ref tgt))).
Proof.
  intros Hr Ht Hpath Hdir Hm.
  rewrite (AlignSubmaps_run _ _ _ _ _ _ Hr Ht Hpath Hdir). cbv zeta.
  unfold alignment_matcher in Hm.
  destruct (matcher_loam_ self) as [m|]; [|destruct (matcher_ self) as [m|]];
    [by injection Hm as <-..|done].
Qed.

Lemma to_uint16_t_small z : 0 <= z < 2 ^ 16 -> to_uint16_t z = z.
Proof. intros Hz. unfold to_uint16_t. by apply Z.mod_small. Qed.

Lemma RunSubmapAlignment_loop mt output_path size todo :
  invalid_output_path output_path = false ->
  Z.of_nat size < 2 ^ 16 ->
  forall fuel done ref (s : GMR),
    Forall (fun t => directory_fails output_path t = false) todo ->
    global_map_ s = done ++ ref :: todo ->
    length (global_map_ s) = size ->
    alignment_matcher s = Some mt ->
    (length todo <= fuel)%nat ->
    let r :=
      for_loop_return fuel
        (fun i => to_size_t i <? Z.of_nat size)
        (fun i => to_uint16_t (i + 1))
        (fun i =>
           let* submap_ref := submaps_at size (to_int (i - 1)) in
           let* submap_tgt := submaps_at size i in
           let* ok := AlignSubmaps submap_ref submap_tgt output_path in
           if negb ok then
             emit (BEAM_ERROR "Submap alignment failed, exiting.") ;;;
             ret (Some false)
           else ret None)
        (Z.of_nat (length done) + 1) s in
    result_of r = Returned None
    /\ global_map_ (state_of r) = done ++ ref :: align_chain mt ref todo
    /\ submap_alignment (summary_ (state_of r))
       = align_summary mt ref todo (submap_alignment (summary_ s))
    /\ events_of r = align_events mt output_path ref todo
    /\ alignment_matcher (state_of r) = Some mt.
Proof.
  intros Hpath Hsize.
  induction todo as [|tgt todo IH]; intros fuel done ref s Hdirs Hmap Hlen Hm Hfuel r.
  - assert (Hi : Z.of_nat (length done) + 1 = Z.of_nat size).
    { rewrite <- Hlen, Hmap, length_app. simpl. lia. }
    subst r. rewrite Hi.
    assert (Hc : (to_size_t (Z.of_nat size) <? Z.of_nat size) = false).
    { rewrite to_size_t_small by lia. lia. }
    destruct fuel; simpl; rewrite Hc; simpl; repeat split; first [exact Hmap | exact Hm].
  - apply Forall_cons_1 in Hdirs as [Hdir Hdirs].
    assert (Hi : Z.of_nat (length done) + 2 <= Z.of_nat size).
    { rewrite <- Hlen, Hmap, length_app. simpl. lia. }
    destruct fuel as [|fuel]; [simpl in Hfuel; lia|].
    set (i := Z.of_nat (length done) + 1) in *.
    assert (Hc : (to_size_t i <? Z.of_nat size) = true).
    { rewrite to_size_t_small by lia. lia. }
    assert (Hr : global_map_ s !! length done = Some ref).
    { rewrite Hmap. by apply list_lookup_middle. }
    assert (Ht : global_map_ s !! S (length done) = Some tgt).
    { rewrite Hmap. rewrite lookup_app_r by lia.
      by replace (S (length done) - length done)%nat with 1%nat by lia. }
    assert (Hbody :
      (let* submap_ref := submaps_at size (to_int (i - 1)) in
       let* submap_tgt := submaps_at size i in
       let* ok := AlignSubmaps submap_ref submap_tgt output_path in
       if negb ok then
         emit (BEAM_ERROR "Submap alignment failed, exiting.") ;;;
         ret (Some false)
       else ret None) s =
      (Returned None,
       after_alignment (S (length done)) tgt (aligned ref tgt (snd (mt ref tgt))) s,
       alignment_events output_path tgt (fst (mt ref tgt)))).
    { rewrite bind_submaps_at.
      rewrite (to_int_small (i - 1)) by lia.
      rewrite (to_size_t_small (i - 1)) by lia.
      replace (i - 1 <? Z.of_nat size) with true by lia.
      rewrite bind_submaps_at, Hc.
      rewrite (to_size_t_small i) by lia.
      replace (Z.to_nat (i - 1)) with (length done) by lia.
      replace (Z.to_nat i) with (S (length done)) by lia.
      unfold bind.
      rewrite (AlignSubmaps_matched _ _ _ _ _ _ _ Hr Ht Hpath Hdir Hm). simpl.
      by rewrite app_nil_r. }
    set (s' := after_alignment (S (length done)) tgt
                 (aligned ref tgt (snd (mt ref tgt))) s) in *.
    assert (Hmap' : global_map_ s' = (done ++ [ref]) ++ align_one mt ref tgt :: todo).
    { subst s'. unfold after_alignment. simpl. rewrite Hmap.
      rewrite <- app_assoc. simpl.
      rewrite insert_app_r_alt by lia.
      by replace (S (length done) - length done)%nat with 1%nat by lia. }
    assert (Hlen' : length (global_map_ s') = size).
    { subst s'. unfold after_alignment. simpl. by rewrite length_insert. }
    assert (Hm' : alignment_matcher s' = Some mt) by exact Hm.
    assert (Hfuel' : (length todo <= fuel)%nat) by (simpl in Hfuel; lia).
    specialize (IH fuel (done ++ [ref]) (align_one mt ref tgt) s'
                  Hdirs Hmap' Hlen' Hm' Hfuel').
    cbv zeta in IH.
    assert (Hnext : Z.of_nat (length (done ++ [ref])) + 1 = to_uint16_t (i + 1)).
    { rewrite length_app. simpl. rewrite to_uint16_t_small by lia. lia. }
    rewrite Hnext in IH.
    assert (Hstep : r =
      prepend (alignment_events output_path tgt (fst (mt ref tgt)))
        (for_loop_return fuel
           (fun i => to_size_t i <? Z.of_nat size)
           (fun i => to_uint16_t (i + 1))
           (fun i =>
              let* submap_ref := submaps_at size (to_int (i - 1)) in
              let* submap_tgt := submaps_at size i in
              let* ok := AlignSubmaps submap_ref submap_tgt output_path in
              if negb ok then
                emit (BEAM_ERROR "Submap alignment failed, exiting.") ;;;
                ret (Some false)
              else ret None)
           (to_uint16_t (i + 1)) s')).
    { subst r. cbn [for_loop_return]. rewrite Hc.
      unfold bind at 1. rewrite Hbody. reflexivity. }
    clearbody r. subst r.
    destruct IH as (IH1 & IH2 & IH3 & IH4 & IH5).
    rewrite result_of_prepend, !state_of_prepend, events_of_prepend.
    repeat split.
    + exact IH1.
    + rewrite IH2. by rewrite <- app_assoc.
    + exact IH3.
    + by rewrite IH4.
    + exact IH5.
Qed.

Lemma RunSubmapAlignment_aligned output_path (self : GMR) first rest mt :
  global_map_ self = first :: rest ->
  (1 <= length rest)%nat ->
  Z.of_nat (length (global_map_ self)) < 2 ^ 16 ->
  invalid_output_path output_path = false ->
  Forall (fun t => directory_fails output_path t = false) rest ->
  alignment_matcher self = Some mt ->
  let r := RunSubmapAlignment output_path self in
  result_of r = Returned true
  /\ global_map_ (state_of r) = first :: align_chain mt first rest
  /\ submap_alignment (summary_ (state_of r))
     = align_summary mt first rest (submap_alignment (summary_ self))
  /\ events_of r = align_events mt output_path first rest
  /\ alignment_matcher (state_of r) = Some mt.
Proof.
  intros Hmap Hrest Hsize Hpath Hdirs Hm r. subst r.
  unfold RunSubmapAlignment. rewrite bind_get.
  assert (Hlen : length (global_map_ self) = S (length rest)) by by rewrite Hmap.
  replace (Z.of_nat (length (global_map_ self)) <? 2) with false by lia.
  pose proof (RunSubmapAlignment_loop mt output_path (length (global_map_ self)) rest
                Hpath Hsize (length (global_map_ self)) [] first self Hdirs Hmap
                eq_refl Hm ltac:(lia)) as Hloop.
  cbv zeta in Hloop. change (Z.of_nat (length []) + 1) with 1 in Hloop.
  destruct Hloop as (H1 & H2 & H3 & H4 & H5).
  rewrite result_of_bind, state_of_bind, events_of_bind, H1.
  simpl. rewrite app_nil_r. done.
Qed.

(** X4. With an output path that passes the guard and below which the
    directory of every submap after the first can be created, a matcher
    and at least two but fewer than 2^16 submaps, the alignment stage
    returns true; it leaves the first
    submap as it is and aligns every other one, in order, to its
    predecessor as the stage has just left it, not as it was at the start;
    each alignment adds its entry to the alignment summary unless the stamp
    is already there, and the matcher's verdict only shows in the trace. *)
Theorem RunSubmapAlignment_chain output_path (self : GMR) first rest mt :
  global_map_ self = first :: rest ->
  (1 <= length rest)%nat ->
  Z.of_nat (length (global_map_ self)) < 2 ^ 16 ->
  invalid_output_path output_path = false ->
  Forall (fun t => directory_fails output_path t = false) rest ->
  alignment_matcher self = Some mt ->
  let r := RunSubmapAlignment output_path self in
  result_of r = Returned true
  /\ global_map_ (state_of r) = first :: align_chain mt first rest
  /\ submap_alignment (summary_ (state_of r))
     = align_summary mt first rest (submap_alignment (summary_ self))
  /\ events_of r = align_events mt output_path first rest.
Proof.
  intros Hmap Hrest Hsize Hpath Hdirs Hm r.
  destruct (RunSubmapAlignment_aligned output_path self first rest mt
              Hmap Hrest Hsize Hpath Hdirs Hm) as (H1 & H2 & H3 & H4 & _).
  by repeat split.
Qed.

Lemma align_chain_stamps mt ref rest :
  Stamp <$> align_chain mt ref rest = Stamp <$> rest.
Proof.
  revert ref. induction rest as [|tgt rest IH]; intros ref; [done|].
  simpl. by rewrite IH.
Qed.

Lemma directory_fails_stamp output_path a b :
  Stamp a = Stamp b -> directory_fails output_path a = directory_fails output_path b.
Proof. unfold directory_fails, submap_output_of. by intros ->. Qed.

Lemma directory_fails_stamps output_path l l' :
  Stamp <$> l = Stamp <$> l' ->
  Forall (fun t => directory_fails output_path t = false) l' ->
  Forall (fun t => directory_fails output_path t = false) l.
Proof.
  revert l'. induction l as [|a l IH]; intros [|b l'] E Hl'; try done.
  simpl in E. injection E as Eab E.
  apply Forall_cons_1 in Hl' as [Hb Hl'].
  apply List.Forall_cons; [by rewrite (directory_fails_stamp _ _ _ Eab)|by eapply IH].
Qed.

Lemma align_summary_keeps mt ref rest m t v :
  m !! t = Some v -> align_summary mt ref rest m !! t = Some v.
Proof.
  revert ref m. induction rest as [|tgt rest IH]; intros ref m Hm; [done|].
  simpl. apply IH. rewrite lookup_emplace. by rewrite Hm.
Qed.

Lemma align_summary_has mt ref rest m :
  Forall (fun t => is_Some (align_summary mt ref rest m !! t)) (Stamp <$> rest).
Proof.
  revert ref m. induction rest as [|tgt rest IH]; intros ref m; [constructor|].
  simpl. apply List.Forall_cons; [|apply IH].
  destruct (m !! Stamp tgt) as [v|] eqn:E.
  - exists v. apply align_summary_keeps. rewrite lookup_emplace. by rewrite E.
  - eexists. apply align_summary_keeps. rewrite lookup_emplace, E.
    by rewrite decide_True.
Qed.

Lemma align_summary_full mt ref rest m :
  Forall (fun t => is_Some (m !! t)) (Stamp <$> rest) ->
  align_summary mt ref rest m = m.
Proof.
  revert ref. induction rest as [|tgt rest IH]; intros ref Hall; [done|].
  simpl in *. apply Forall_cons_1 in Hall as [[v Hv] Hall].
  unfold emplace. rewrite Hv. by apply IH.
Qed.

(** X5. The alignment summary records the first alignment only: when the
    alignment stage, under the conditions of X4, is run again on the
    object it has left, the poses are
    aligned anew but every stamp already has its entry, so the alignment
    summary stays as the first run wrote it. *)
Theorem RunSubmapAlignment_again output_path (self : GMR) first rest mt :
  global_map_ self = first :: rest ->
  (1 <= length rest)%nat ->
  Z.of_nat (length (global_map_ self)) < 2 ^ 16 ->
  invalid_output_path output_path = false ->
  Forall (fun t => directory_fails output_path t = false) rest ->
  alignment_matcher self = Some mt ->
  let once := state_of (RunSubmapAlignment output_path self) in
  let twice := state_of (RunSubmapAlignment output_path once) in
  result_of (RunSubmapAlignment output_path once) = Returned true
  /\ global_map_ twice = first :: align_chain mt first (align_chain mt first rest)
  /\ submap_alignment (summary_ twice) = submap_alignment (summary_ once).
Proof.
  intros Hmap Hrest Hsize Hpath Hdirs Hm once twice.
  destruct (RunSubmapAlignment_aligned output_path self first rest mt
              Hmap Hrest Hsize Hpath Hdirs Hm) as (_ & H2 & H3 & _ & H5).
  fold once in H2, H3, H5.
  assert (Hlen : length (align_chain mt first rest) = length rest).
  { by rewrite <- (length_fmap Stamp), align_chain_stamps, length_fmap. }
  assert (Hdirs' : Forall (fun t => directory_fails output_path t = false)
                     (align_chain mt first rest)).
  { apply (directory_fails_stamps output_path _ rest); [|exact Hdirs].
    apply align_chain_stamps. }
  destruct (RunSubmapAlignment_aligned output_path once first
              (align_chain mt first rest) mt H2 ltac:(lia)
              ltac:(rewrite H2, Hmap in *; simpl in *; lia) Hpath Hdirs' H5)
    as (K1 & K2 & K3 & _).
  fold twice in K2, K3.
  split; [exact K1|]. split; [exact K2|].
  rewrite K3. apply align_summary_full.
  rewrite align_chain_stamps, H3. apply align_summary_has.
Qed.

Lemma after_refinement_params sr p s (self : GMR) :
  params_ (after_refinement sr p s self) = params_ self.
Proof.
  unfold after_refinement. by destruct (update_scan_poses _ _ _).
Qed.

Lemma after_refinement_map sr p s (self : GMR) :
  global_map_ (after_refinement sr p s self) =
  <[p := Submap_set_keyframes
           ((fun kv => (fst kv, ScanPose_UpdatePose (refined_graph sr s) (snd kv)))
              <$> lidar_keyframe_poses s) s]> (global_map_ self).
Proof.
  unfold after_refinement.
  rewrite <- update_scan_poses_keyframes with (summary := summary_ self).
  by destruct (update_scan_poses _ _ _).
Qed.

Lemma refinement_engine_params output_path s (a b : GMR) :
  params_ a = params_ b ->
  refinement_engine output_path s a = refinement_engine output_path s b.
Proof. unfold refinement_engine. by intros ->. Qed.

(** The loop of the refinement stage over a run of submaps whose engine
    can be made. *)
Lemma RunSubmapRefinement_loop output_path size (self : GMR) good :
  invalid_output_path output_path = false ->
  Z.of_nat size < 2 ^ 16 ->
  Forall (fun s => setup_fails output_path self s = false) good ->
  forall fuel done tail (s : GMR),
    global_map_ s = done ++ good ++ tail ->
    length (global_map_ s) = size ->
    params_ s = params_ self ->
    exists s' : GMR,
      global_map_ s' = done ++ (refined_submap output_path self <$> good) ++ tail
      /\ params_ s' = params_ self
      /\ submap_alignment (summary_ s') = submap_alignment (summary_ s)
      /\ submap_refinement (summary_ s')
         = foldl (refined_summary output_path self)
             (submap_refinement (summary_ s)) good
      /\ for_loop_return (length good + fuel)
           (fun i => to_size_t i <? Z.of_nat size)
           (fun i => to_uint16_t (i + 1))
           (fun i =>
              let* submap := submaps_at size i in
              let* ok := RefineSubmap submap output_path in
              if negb ok then
                emit (BEAM_ERROR "Submap refinement failed, exiting.") ;;;
                ret (Some false)
              else ret None)
           (Z.of_nat (length done)) s
         = prepend (concat (refinement_events output_path self <$> good))
             (for_loop_return fuel
                (fun i => to_size_t i <? Z.of_nat size)
                (fun i => to_uint16_t (i + 1))
                (fun i =>
                   let* submap := submaps_at size i in
                   let* ok := RefineSubmap submap output_path in
                   if negb ok then
                     emit (BEAM_ERROR "Submap refinement failed, exiting.") ;;;
                     ret (Some false)
                   else ret None)
                (Z.of_nat (length done + length good)) s').
Proof.
  intros Hpath Hsize.
  induction good as [|g good IH]; intros Hgood fuel done tail s Hmap Hlen Hpar.
  - exists s. simpl. rewrite Nat.add_0_r, prepend_nil. by repeat split.
  - apply Forall_cons_1 in Hgood as [Hg Hgood].
    assert (Hi : Z.of_nat (length done) + 1 <= Z.of_nat size).
    { rewrite <- Hlen, Hmap, !length_app. simpl. lia. }
    set (i := Z.of_nat (length done)) in *.
    assert (Hc : (to_size_t i <? Z.of_nat size) = true).
    { rewrite to_size_t_small by lia. lia. }
    assert (Hs : global_map_ s !! length done = Some g).
    { rewrite Hmap. by apply list_lookup_middle. }
    unfold setup_fails in Hg. apply orb_false_elim in Hg as [Hdir Hg].
    unfold engine_fails in Hg.
    destruct (refinement_engine output_path g self) as [e|sr] eqn:Hsr; [done|].
    assert (Hsr' : refinement_engine output_path g s = inr sr).
    { by rewrite (refinement_engine_params _ _ _ _ Hpar). }
    set (s1 := after_refinement sr (length done) g s).
    assert (Hmap1 : global_map_ s1
              = (done ++ [refined_submap output_path self g]) ++ good ++ tail).
    { subst s1. rewrite after_refinement_map, Hmap.
      unfold refined_submap. rewrite Hsr. rewrite <- app_assoc. simpl.
      rewrite insert_app_r_alt by lia.
      by replace (length done - length done)%nat with 0%nat by lia. }
    assert (Hlen1 : length (global_map_ s1) = size).
    { subst s1. by rewrite after_refinement_map, length_insert. }
    assert (Hpar1 : params_ s1 = params_ self).
    { subst s1. by rewrite after_refinement_params. }
    destruct (IH Hgood fuel (done ++ [refined_submap output_path self g]) tail s1
                Hmap1 Hlen1 Hpar1) as (s' & E1 & E2 & E3 & E4 & E5).
    exists s'. split; [|split; [|split; [|split]]].
    + rewrite E1, <- app_assoc. reflexivity.
    + exact E2.
    + rewrite E3. subst s1. by rewrite after_refinement_summary.
    + rewrite E4. subst s1. rewrite after_refinement_summary. simpl.
      unfold refined_summary at 3. rewrite Hsr. reflexivity.
    + change (length (g :: good) + fuel)%nat with (S (length good + fuel)).
      cbn [for_loop_return]. rewrite Hc.
      rewrite bind_assoc, bind_submaps_at, Hc.
      rewrite (to_size_t_small i) by lia.
      replace (Z.to_nat i) with (length done) by lia.
      rewrite bind_assoc.
      erewrite bind_Returned by (apply (RefineSubmap_run _ _ _ _ _ Hs Hpath Hdir Hsr')).
      simpl negb. cbv iota. rewrite bind_ret.
      fold s1.
      assert (Hnext : to_uint16_t (i + 1)
                      = Z.of_nat (length (done ++ [refined_submap output_path self g]))).
      { rewrite length_app. simpl. rewrite to_uint16_t_small by lia. lia. }
      rewrite Hnext, E5, prepend_prepend.
      f_equal.
      * simpl. unfold refinement_events at 2. rewrite Hsr. reflexivity.
      * rewrite !length_app. simpl. do 2 f_equal. lia.
Qed.

(** X6. With an output path that passes the guard, fewer than 2^16
    submaps, and for every submap a directory that can be created and an
    engine that can be built, the refinement stage returns true and
    refines each submap on its own: the map it leaves is the old one with each submap
    replaced by its refinement, which depends on that submap and the
    parameters only, and the summary has taken the scans of all submaps in
    order. *)
Theorem RunSubmapRefinement_each output_path (self : GMR) :
  Z.of_nat (length (global_map_ self)) < 2 ^ 16 ->
  invalid_output_path output_path = false ->
  Forall (fun s => setup_fails output_path self s = false) (global_map_ self) ->
  let r := RunSubmapRefinement output_path self in
  result_of r = Returned true
  /\ global_map_ (state_of r) = refined_submap output_path self <$> global_map_ self
  /\ submap_refinement (summary_ (state_of r))
     = foldl (refined_summary output_path self)
         (submap_refinement (summary_ self)) (global_map_ self)
  /\ events_of r = concat (refinement_events output_path self <$> global_map_ self).
Proof.
  intros Hsize Hpath Hgood r.
  destruct (RunSubmapRefinement_loop output_path (length (global_map_ self)) self
              (global_map_ self) Hpath Hsize Hgood 0 [] [] self
              ltac:(by rewrite app_nil_r) eq_refl eq_refl)
    as (s' & E1 & E2 & E3 & E4 & E5).
  rewrite Nat.add_0_r in E5. simpl in E1, E5. rewrite app_nil_r in E1.
  change (Z.of_nat 0) with 0 in E5.
  assert (Er : r = prepend (concat (refinement_events output_path self <$> global_map_ self))
                 (Returned true, s', [])).
  { subst r. unfold RunSubmapRefinement. rewrite bind_get. cbv zeta.
    assert (Hc : (to_size_t (Z.of_nat (length (global_map_ self)))
                  <? Z.of_nat (length (global_map_ self))) = false).
    { rewrite to_size_t_small by lia. lia. }
    cbn [for_loop_return] in E5. rewrite Hc in E5.
    erewrite bind_Returned by exact E5. by rewrite app_nil_r. }
  clearbody r. subst r.
  rewrite result_of_prepend, !state_of_prepend, events_of_prepend. simpl.
  by rewrite app_nil_r.
Qed.

(** X7. The refinement stage stops at the first submap for which no engine
    can be made and keeps what it has done.  The output path passes the
    guard, the submaps before the failing one have their directories and
    engines, and the directory of the failing one can be created: then the
    exception of the factory leaves the stage, the submaps before the failing one stay refined and
    their scans stay in the summary, and the failing submap and those after
    it are as they were. *)
Theorem RunSubmapRefinement_first_failure output_path (self : GMR) done bad rest e :
  global_map_ self = done ++ bad :: rest ->
  Z.of_nat (length (global_map_ self)) < 2 ^ 16 ->
  invalid_output_path output_path = false ->
  Forall (fun s => setup_fails output_path self s = false) done ->
  directory_fails output_path bad = false ->
  refinement_engine output_path bad self = inl e ->
  let r := RunSubmapRefinement output_path self in
  result_of r = Thrown e
  /\ global_map_ (state_of r)
     = (refined_submap output_path self <$> done) ++ bad :: rest
  /\ submap_refinement (summary_ (state_of r))
     = foldl (refined_summary output_path self)
         (submap_refinement (summary_ self)) done
  /\ events_of r = concat (refinement_events output_path self <$> done)
                   ++ [create_directory (submap_output_of output_path bad)].
Proof.
  intros Hmap Hsize Hpath Hgood Hdir Hbad r.
  assert (Hlen : length (global_map_ self) = (length done + S (length rest))%nat).
  { by rewrite Hmap, length_app. }
  destruct (RunSubmapRefinement_loop output_path (length (global_map_ self)) self
              done Hpath Hsize Hgood (S (length rest)) [] (bad :: rest) self
              Hmap eq_refl eq_refl)
    as (s' & E1 & E2 & E3 & E4 & E5).
  simpl in E1, E5.
  assert (Hi : Z.of_nat (length done) < Z.of_nat (length (global_map_ self))) by lia.
  assert (Hc : (to_size_t (Z.of_nat (length done))
                <? Z.of_nat (length (global_map_ self))) = true).
  { rewrite to_size_t_small by lia. lia. }
  assert (Hs : global_map_ s' !! length done = Some bad).
  { rewrite E1. apply list_lookup_middle. by rewrite length_fmap. }
  assert (Hbad' : refinement_engine output_path bad s' = inl e).
  { by rewrite (refinement_engine_params _ _ _ _ E2). }
  assert (Er : r = prepend (concat (refinement_events output_path self <$> done))
                 (Thrown e, s', [create_directory (submap_output_of output_path bad)])).
  { subst r. unfold RunSubmapRefinement. rewrite bind_get. cbv zeta.
    rewrite <- Hlen in E5. change (Z.of_nat 0) with 0 in E5.
    cbn [for_loop_return] in E5. rewrite Hc in E5.
    rewrite bind_assoc, bind_submaps_at, Hc in E5.
    rewrite to_size_t_small in E5 by lia. rewrite Nat2Z.id in E5.
    rewrite bind_assoc in E5.
    erewrite bind_Thrown in E5
      by (apply (RefineSubmap_no_engine _ _ _ _ _ Hs Hpath Hdir Hbad')).
    erewrite bind_Thrown by exact E5. reflexivity. }
  clearbody r. subst r.
  rewrite result_of_prepend, !state_of_prepend, events_of_prepend.
  split; [reflexivity|]. split; [exact E1|]. split; [exact E4|reflexivity].
Qed.

(** X8. An output path that is neither empty nor an existing directory is
    only noticed when a stage comes to its first submap: the refinement
    stage on an empty map returns true and the alignment stage on fewer
    than two submaps warns and returns true, the path never looked at;
    otherwise the stage throws the runtime error "invalid path" at its
    first call, with no directory made and the object as it was. *)
Theorem stages_invalid_output_path output_path (self : GMR) :
  invalid_output_path output_path = true ->
  RunSubmapRefinement output_path self =
    match global_map_ self with
    | [] => (Returned true, self, [])
    | _ :: _ =>
        (Thrown (runtime_error "invalid path"), self,
         [BEAM_ERROR "Invalid output path for submap refinement: {}"])
    end
  /\ RunSubmapAlignment output_path self =
    match global_map_ self with
    | _ :: _ :: _ =>
        (Thrown (runtime_error "invalid path"), self,
         [BEAM_ERROR "Invalid output path for submap alignment: {}"])
    | _ =>
        (Returned true, self,
         [BEAM_WARN
            "Not enough submaps to run submap alignment, at least two are needed"])
    end.
Proof.
  intros Hpath. split.
  - unfold RunSubmapRefinement. rewrite bind_get. cbv zeta.
    destruct (global_map_ self) as [|s0 rest] eqn:Hmap; [reflexivity|].
    assert (Hc : (to_size_t 0 <? Z.of_nat (length (s0 :: rest))) = true).
    { rewrite to_size_t_small by lia. apply Z.ltb_lt. simpl length. lia. }
    erewrite bind_Thrown; [reflexivity|].
    change (length (s0 :: rest)) with (S (length rest)) at 1.
    cbn [for_loop_return]. rewrite Hc.
    erewrite bind_Thrown; [reflexivity|].
    rewrite bind_submaps_at, Hc.
    erewrite bind_Thrown; [reflexivity|].
    by apply RefineSubmap_invalid_path.
  - unfold RunSubmapAlignment. rewrite bind_get. cbv zeta.
    destruct (global_map_ self) as [|s0 [|s1 rest]] eqn:Hmap; [reflexivity..|].
    replace (Z.of_nat (length (s0 :: s1 :: rest)) <? 2) with false
      by (symmetry; apply Z.ltb_ge; simpl length; lia).
    assert (Hsz : 2 <= Z.of_nat (length (s0 :: s1 :: rest))) by (simpl length; lia).
    assert (Hc : (to_size_t 1 <? Z.of_nat (length (s0 :: s1 :: rest))) = true).
    { rewrite to_size_t_small by lia. lia. }
    assert (Hc0 : (to_size_t (to_int (1 - 1)) <? Z.of_nat (length (s0 :: s1 :: rest)))
                  = true).
    { rewrite to_int_small by lia. rewrite to_size_t_small by lia. lia. }
    erewrite bind_Thrown; [reflexivity|].
    change (length (s0 :: s1 :: rest)) with (S (S (length rest))) at 1.
    cbn [for_loop_return]. rewrite Hc.
    erewrite bind_Thrown; [reflexivity|].
    rewrite bind_submaps_at, Hc0, bind_submaps_at, Hc.
    erewrite bind_Thrown; [reflexivity|].
    by apply AlignSubmaps_invalid_path.
Qed.

Lemma bind_deref_None {B} (self : GMR) p (f : Submap -> M GMR B) :
  global_map_ self !! p = None ->
  bind (deref p) f self = (Thrown null_dereference, self, []).
Proof.
  intros Hp. erewrite bind_Thrown; [reflexivity|].
  unfold deref. by rewrite bind_get, Hp.
Qed.

Lemma successful_refinements_cons_error msg evs :
  successful_refinements (BEAM_ERROR msg :: evs) = successful_refinements evs.
Proof. reflexivity. Qed.

(** The candidates of one query, for any transaction they add to. *)
Lemma pgo_candidates_accounting size path q cands txn (self : GMR) :
  match pgo_candidates size path q cands txn self with
  | (Returned txn', _, evs) =>
      added_variables txn' = added_variables txn
      /\ exists cs,
           added_constraints txn' = added_constraints txn ++ cs
           /\ Forall (is_loop_closure self q) cs
           /\ length cs = successful_refinements evs
  | (Thrown e, _, _) => e = out_of_range \/ e = null_dereference
  | (Timeout, _, _) => False
  end.
Proof.
  revert txn. induction cands as [|[m T] cands IH]; intros txn.
  - simpl. split; [done|]. exists []. by rewrite app_nil_r.
  - cbn [pgo_candidates]. destruct (q - 1 <=? m) eqn:Hrej.
    + rewrite bind_emit. specialize (IH txn).
      destruct (pgo_candidates size path q cands txn self) as [[[t| |] s'] evs];
        exact IH.
    + rewrite bind_submaps_at.
      destruct (to_size_t m <? Z.of_nat size); [|by left].
      destruct (global_map_ self !! Z.to_nat (to_size_t m)) as [matched|] eqn:Hmatched;
        [rewrite (bind_deref _ _ _ _ Hmatched)
        |rewrite (bind_deref_None _ _ _ Hmatched); by right].
      rewrite bind_submaps_at.
      destruct (to_size_t q <? Z.of_nat size); [|by left].
      destruct (global_map_ self !! Z.to_nat (to_size_t q)) as [query|] eqn:Hquery;
        [rewrite (bind_deref _ _ _ _ Hquery)
        |rewrite (bind_deref_None _ _ _ Hquery); by right].
      rewrite bind_get.
      destruct (loop_closure_refinement_ self) as [refine|]; [|by right].
      rewrite bind_ret, bind_emit.
      destruct (successful (refine matched query T path)) eqn:Hok; cbn [negb].
      * specialize (IH (Transaction_merge txn
          (AddPoseConstraint (Stamp matched) (Stamp query)
             (TransformMatrixToVectorWithQuaternion
                (T_MATCH_QUERY (refine matched query T path)))
             (loop_closure_covariance (loop_closure (params_ self)))
             "GlobalMap::RunLoopClosure" Transaction_new))).
        destruct (pgo_candidates size path q cands _ self) as [[[t| |] s'] evs];
          [|exact IH..].
        destruct IH as (Hv & cs & Hc & Hlc & Hn). simpl in Hv, Hc.
        split; [by rewrite Hv, app_nil_r|].
        eexists (_ :: cs). split; [by rewrite Hc, <- app_assoc|].
        split; [|simpl; unfold successful_refinements in *; simpl; lia].
        apply List.Forall_cons; [|exact Hlc].
        exists m, (Stamp matched), (Stamp query),
          (TransformMatrixToVectorWithQuaternion
             (T_MATCH_QUERY (refine matched query T path))).
        split; [lia|]. rewrite !list_lookup_fmap, Hmatched, Hquery. done.
      * specialize (IH txn).
        destruct (pgo_candidates size path q cands txn self) as [[[t| |] s'] evs];
          exact IH.
Qed.

(** X9. The transaction a query hands to the graph holds no variable, and
    exactly one loop closure between a matched submap and the query for
    each refinement that succeeded: a rejected candidate and a failed
    refinement add nothing.  The candidates can only fail by an index that
    is out of range or by a missing object, and they always end. *)
Theorem pgo_candidates_transaction size path q cands (self : GMR) :
  match pgo_candidates size path q cands Transaction_new self with
  | (Returned txn, s', evs) =>
      s' = self
      /\ added_variables txn = []
      /\ Forall (is_loop_closure self q) (added_constraints txn)
      /\ length (added_constraints txn) = successful_refinements evs
  | (Thrown e, s', _) => s' = self /\ (e = out_of_range \/ e = null_dereference)
  | (Timeout, _, _) => False
  end.
Proof.
  pose proof (pgo_candidates_accounting size path q cands Transaction_new self) as Hacc.
  pose proof (pgo_candidates_state size path q cands Transaction_new self) as Hst.
  destruct (pgo_candidates size path q cands Transaction_new self)
    as [[[txn| |] s'] evs]; simpl in Hst.
  - destruct Hacc as (Hv & cs & Hc & Hlc & Hn). simpl in Hv, Hc. subst cs.
    by repeat split.
  - by split.
  - done.
Qed.

(** ** The order of events in the sweep *)

Lemma pgo_query_trace size p1 p2 q g (self : GMR) :
  let r := pgo_query size p1 p2 q g self in
  (events_of r = [] /\ is_Returned (result_of r) = false)
  \/ (exists n, events_of r = [FindRelocCandidates_call q n false 0]
                /\ is_Returned (result_of r) = true)
  \/ (exists n k ce,
        Forall (candidate_trace q) ce
        /\ ((events_of r = FindRelocCandidates_call q n false (S k) :: ce
             /\ is_Returned (result_of r) = false)
            \/ (events_of r =
                  FindRelocCandidates_call q n false (S k)
                  :: ce ++ [graph_update 0 (successful_refinements ce);
                            graph_optimize; UpdateSubmapPoses_call]
                /\ is_Returned (result_of r) = true))).
Proof.
  intros r. subst r. unfold pgo_query. rewrite bind_submaps_at.
  destruct (to_size_t q <? Z.of_nat size); [|by left].
  destruct (global_map_ self !! Z.to_nat (to_size_t q)) as [query|] eqn:Hquery;
    [rewrite (bind_deref _ _ _ _ Hquery)
    |rewrite (bind_deref_None _ _ _ Hquery); by left].
  rewrite bind_get.
  destruct (loop_closure_candidate_search_ self) as [cs|]; [|by left].
  rewrite bind_ret, bind_emit, result_of_prepend, events_of_prepend.
  destruct (cs _ _ _ _ _) as [|c cands].
  { right. left. by eexists. }
  right. right.
  pose proof (pgo_candidates_accounting size p1 q (c :: cands) Transaction_new self)
    as Hacc.
  pose proof (pgo_candidates_events size p1 q (c :: cands) Transaction_new self) as Hev.
  rewrite result_of_bind, events_of_bind.
  destruct (pgo_candidates size p1 q (c :: cands) Transaction_new self)
    as [[[txn| |] s'] ce]; cbv [events_of result_of state_of fst snd] in *.
  - destruct Hacc as (Hv & cs' & Hc & _ & Hn). simpl in Hv, Hc. subst cs'.
    eexists _, _, ce. split; [exact Hev|]. right.
    unfold graph_update_with. simpl. rewrite Hv, Hn. by split.
  - eexists _, _, ce. split; [exact Hev|]. left. by rewrite app_nil_r.
  - done.
Qed.

Lemma pgo_sweep_trace output_path size skip graph (self : GMR) :
  sweep_trace (events_of (pgo_sweep output_path size skip graph self)).
Proof.
  unfold pgo_sweep.
  apply (for_loop_run_ind (fun r => sweep_trace (events_of r))).
  - intros. constructor.
  - intros. constructor.
  - intros i g s.
    pose proof (pgo_query_trace size (CombinePaths output_path "refinement")
                  (CombinePaths output_path "candidate_search") i g s) as Hq.
    pose proof (pgo_query_no_Timeout size (CombinePaths output_path "refinement")
                  (CombinePaths output_path "candidate_search") i g s) as Hto.
    cbv zeta in Hq.
    destruct (pgo_query _ _ _ _ _ _) as [[[a'| |] s'] e];
      cbv [events_of result_of fst snd is_Returned] in Hq, Hto;
      try done; [|cbv [events_of snd]].
    + intros r Hr. rewrite events_of_prepend.
      destruct Hq as [[_ ?]|[(n & -> & _)|(n & k & ce & Hce & [[_ ?]|[-> _]])]];
        try discriminate.
      * by constructor.
      * simpl. rewrite <- app_assoc. simpl. by constructor.
    + destruct Hq as [[-> _]|[(n & _ & ?)|(n & k & ce & Hce & [[-> _]|[_ ?]])]];
        try discriminate.
      * constructor.
      * by constructor.
Qed.

(** Where a solve can stand in a list that begins with events that are
    no solves. *)
Lemma solve_after_prefix (l rest pre post : list Event) :
  Forall (fun e => is_solve e = false) l ->
  l ++ rest = pre ++ graph_optimize :: post ->
  exists pre2, pre = l ++ pre2 /\ rest = pre2 ++ graph_optimize :: post.
Proof.
  revert pre. induction l as [|e l IH]; intros pre Hl Heq.
  - by exists pre.
  - apply Forall_cons in Hl as [He Hl]. destruct pre as [|e' pre].
    + simpl in Heq. injection Heq as -> _. discriminate.
    + simpl in Heq. injection Heq as <- Heq.
      destruct (IH pre Hl Heq) as (pre2 & -> & Hrest). by exists pre2.
Qed.

(** In what the sweep leaves, what stands right before a solve is a search
    that returned candidates, what these candidates left, and the update
    of the graph by their transaction. *)
Lemma sweep_trace_solve evs :
  sweep_trace evs ->
  forall pre post,
    evs = pre ++ graph_optimize :: post ->
    exists pre' q n k ce,
      pre = pre' ++ FindRelocCandidates_call q n false (S k)
                    :: ce ++ [graph_update 0 (successful_refinements ce)]
      /\ Forall (candidate_trace q) ce.
Proof.
  induction 1 as [|q n rest Hrest IH|q n k ce rest Hce Hrest IH|q n k ce Hce];
    intros pre post Heq.
  - by destruct pre.
  - destruct pre as [|e pre]; [discriminate|].
    simpl in Heq. injection Heq as <- Heq.
    destruct (IH pre post Heq) as (pre' & q' & n' & k' & ce' & -> & Hce').
    by exists (FindRelocCandidates_call q n false 0 :: pre'), q', n', k', ce'.
  - assert (Hl : Forall (fun e => is_solve e = false)
                   (FindRelocCandidates_call q n false (S k)
                    :: ce ++ [graph_update 0 (successful_refinements ce)])).
    { apply List.Forall_cons; [reflexivity|]. apply Forall_app. split.
      - apply candidate_trace_quiet in Hce.
        eapply Forall_impl; [exact Hce|]. by intros e [_ He].
      - by repeat constructor. }
    destruct (solve_after_prefix _ (graph_optimize :: UpdateSubmapPoses_call :: rest)
                pre post Hl) as (pre2 & -> & Hrest2).
    { rewrite <- Heq. simpl. by rewrite <- app_assoc. }
    destruct pre2 as [|e1 [|e2 pre2]].
    + exists [], q, n, k, ce. split; [by rewrite app_nil_r | exact Hce].
    + simpl in Hrest2. injection Hrest2 as _ Hrest2. discriminate.
    + simpl in Hrest2. injection Hrest2 as <- <- Hrest2.
      destruct (IH pre2 post Hrest2) as (pre' & q' & n' & k' & ce' & -> & Hce').
      exists ((FindRelocCandidates_call q n false (S k)
               :: ce ++ [graph_update 0 (successful_refinements ce)])
              ++ graph_optimize :: UpdateSubmapPoses_call :: pre'), q', n', k', ce'.
      split; [|exact Hce']. by rewrite <- !app_assoc.
  - assert (Hl : Forall (fun e => is_solve e = false)
                   (FindRelocCandidates_call q n false (S k) :: ce)).
    { apply List.Forall_cons; [reflexivity|].
      apply candidate_trace_quiet in Hce.
      eapply Forall_impl; [exact Hce|]. by intros e [_ He]. }
    destruct (solve_after_prefix _ [] pre post Hl) as (pre2 & _ & Hrest2).
    { by rewrite app_nil_r. }
    by destruct pre2.
Qed.

(** C2 (as the code has it). RunPoseGraphOptimization does not solve the
    graph before the sweep: nothing that comes before the first candidate
    search is a solve.  What the sweep leaves is, query by query, a search
    without candidates and nothing else, or a search with candidates
    followed by what its candidates leave, then the update of the graph by
    the transaction of this very query (no variable, one constraint for
    each of its refinements that succeeded), then the solve, then the
    poses written back; a query whose candidates end in an exception ends
    the run before any update.  So every solve stands right after the
    transaction of its own query has been applied, the solves number at
    most the searches that returned candidates, and exactly as many when
    the run returns true. *)
Theorem RunPoseGraphOptimization_solves output_path (self : GMR) :
  let r := RunPoseGraphOptimization output_path self in
  solves (before_first_search (events_of r)) = 0%nat
  /\ (solves (events_of r) <= fruitful_searches (events_of r))%nat
  /\ (result_of r = Returned true ->
      solves (events_of r) = fruitful_searches (events_of r))
  /\ (exists head sweep,
        events_of r = head ++ sweep
        /\ Forall quiet head
        /\ sweep_trace sweep)
  /\ (forall pre post,
        events_of r = pre ++ graph_optimize :: post ->
        exists pre' q n k ce,
          pre = pre' ++ FindRelocCandidates_call q n false (S k)
                        :: ce ++ [graph_update 0 (successful_refinements ce)]
          /\ Forall (candidate_trace q) ce).
Proof.
  intros r.
  destruct (RunPoseGraphOptimization_solve_count output_path self) as (H1 & H2 & H3).
  fold r in H1, H2, H3. split; [exact H1|]. split; [exact H2|]. split; [exact H3|].
  assert (Htrace : exists head sweep,
            events_of r = head ++ sweep /\ Forall quiet head /\ sweep_trace sweep).
  { destruct (RunPoseGraphOptimization_split output_path self)
      as [(ce & Hce & He & _)|(ce & graph & s1 & _ & Hce & He & _)];
      fold r in He; apply graph_update_quiet in Hce;
      pose proof (pgo_preamble_quiet output_path self) as Hpre.
    - exists (pgo_preamble output_path self ++ ce), []. rewrite app_nil_r.
      split; [exact He|]. split; [apply Forall_app; by split|constructor].
    - eexists (pgo_preamble output_path self ++ ce), _.
      split; [rewrite He; by rewrite app_assoc|].
      split; [apply Forall_app; by split|apply pgo_sweep_trace]. }
  split; [exact Htrace|].
  destruct Htrace as (head & sweep & Hev & Hhead & Hsweep).
  intros pre post Heq. rewrite Hev in Heq.
  destruct (solve_after_prefix head sweep pre post) as (pre2 & -> & Hrest);
    [eapply Forall_impl; [exact Hhead|]; by intros e [_ He] | exact Heq |].
  destruct (sweep_trace_solve sweep Hsweep pre2 post Hrest)
    as (pre' & q & n & k & ce & -> & Hce).
  exists (head ++ pre'), q, n, k, ce. split; [by rewrite <- app_assoc | exact Hce].
Qed.

(** The two ways a query of the sweep can go. *)
Lemma pgo_query_cases size p1 p2 q g (self : GMR) :
  (state_of (pgo_query size p1 p2 q g self) = self
   /\ forall g', result_of (pgo_query size p1 p2 q g self) = Returned g' -> g' = g)
  \/ exists txn,
       added_variables txn = []
       /\ Forall (is_loop_closure self q) (added_constraints txn)
       /\ result_of (pgo_query size p1 p2 q g self)
          = Returned (HashGraph_optimize (HashGraph_update g txn))
       /\ state_of (pgo_query size p1 p2 q g self)
          = set_global_map
              (UpdateSubmapPoses (HashGraph_optimize (HashGraph_update g txn))) self.
Proof.
  unfold pgo_query. rewrite bind_submaps_at.
  destruct (to_size_t q <? Z.of_nat size); [|by left].
  destruct (global_map_ self !! Z.to_nat (to_size_t q)) as [query|] eqn:Hquery;
    [rewrite (bind_deref _ _ _ _ Hquery)
    |rewrite (bind_deref_None _ _ _ Hquery); by left].
  rewrite bind_get.
  destruct (loop_closure_candidate_search_ self) as [cs|]; [|by left].
  rewrite bind_ret, bind_emit, result_of_prepend, state_of_prepend.
  destruct (cs _ _ _ _ _) as [|c cands].
  { left. split; [done|]. intros g' Hg'. by injection Hg'. }
  pose proof (pgo_candidates_accounting size p1 q (c :: cands) Transaction_new self)
    as Hacc.
  pose proof (pgo_candidates_state size p1 q (c :: cands) Transaction_new self) as Hst.
  rewrite result_of_bind, state_of_bind.
  destruct (pgo_candidates size p1 q (c :: cands) Transaction_new self)
    as [[[txn| |] s'] evs]; cbv [state_of fst snd] in Hst; subst s'; [|by left..].
  destruct Hacc as (Hv & cs' & Hc & Hlc & _). simpl in Hv, Hc. subst cs'.
  right. exists txn. by repeat split.
Qed.

Lemma HashGraph_update_no_variables g txn :
  added_variables txn = [] ->
  variables (HashGraph_update g txn) = variables g.
Proof. intros E. unfold HashGraph_update. simpl. by rewrite E. Qed.

Lemma HashGraph_optimize_lookup g k :
  is_Some (variables g !! k) ->
  variables (HashGraph_optimize g) !! k = Some (solve g k).
Proof.
  intros [v Hv]. unfold HashGraph_optimize. simpl.
  by rewrite map_lookup_imap, Hv.
Qed.

Lemma is_loop_closure_frame (a b : GMR) q c :
  pgo_frame a b -> is_loop_closure b q c -> is_loop_closure a q c.
Proof.
  intros ((Hp & _) & Hs & _) (m & t1 & t2 & delta & Hm & H1 & H2 & ->).
  exists m, t1, t2, delta. rewrite <- Hs, <- Hp. done.
Qed.

Lemma UpdateSubmapPoses_solved g (self : GMR) :
  graph_covers g self ->
  poses_solved_by g
    (set_global_map (UpdateSubmapPoses (HashGraph_optimize g)) self).
Proof.
  unfold graph_covers, poses_solved_by, UpdateSubmapPoses, set_global_map.
  cbn [global_map_]. rewrite !Forall_fmap. intros Hc. eapply Forall_impl; [exact Hc|].
  intros s Hs. unfold compose in *.
  by rewrite (HashGraph_optimize_lookup _ _ Hs).
Qed.

Lemma chain_graph_covers (self : GMR) first rest :
  global_map_ self = first :: rest ->
  graph_covers
    (chain_graph (local_mapper_covariance (loop_closure (params_ self)))
       (HashGraph_update HashGraph_new
          (prior_transaction (pose_prior_noise_ self) first))
       (global_map_ self)) self.
Proof.
  intros Hl. unfold graph_covers. rewrite Forall_fmap. apply Forall_forall.
  intros s Hs. simpl. rewrite Hl in Hs |- *. apply elem_of_cons in Hs as [->|Hs].
  - apply chain_graph_keeps_variable, HashGraph_update_adds_variable.
    simpl. set_solver.
  - by apply chain_graph_variables.
Qed.

(** X10. The pose-graph stage is all or nothing on the poses: for a non-empty
    map of fewer than 2^31 submaps, either the object ends exactly as it
    was, or every submap ends with the pose that one and the same solve
    gave its stamp, the solved graph being the chain (the prior on the
    first submap and one relative constraint per neighbouring pair,
    measured on the poses before the stage) followed by loop closures
    only.  This holds however the stage ends. *)
Theorem RunPoseGraphOptimization_poses output_path (self : GMR) first rest :
  global_map_ self = first :: rest ->
  Z.of_nat (length (global_map_ self)) < 2 ^ 31 ->
  state_of (RunPoseGraphOptimization output_path self) = self
  \/ exists graph,
       chain_with_loop_closures self graph
       /\ poses_solved_by graph (state_of (RunPoseGraphOptimization output_path self)).
Proof.
  intros Hl Hn.
  rewrite RunPoseGraphOptimization_unfold, state_of_prepend.
  destruct (pgo_directories_fail output_path); [by left|].
  rewrite state_of_bind.
  rewrite (pgo_chain_graph_run _ _ _ Hl Hn).
  cbn [result_of state_of fst snd].
  set (g0 := chain_graph _ _ _).
  assert (Hg0 : constraints g0 =
            AbsolutePose3DStampedConstraint (Stamp first) (T_WORLD_SUBMAP first)
              (pose_prior_noise_ self) "GlobalMapRefinement::RunPoseGraphOptimization"
            :: relative_constraints
                 (local_mapper_covariance (loop_closure (params_ self)))
                 (global_map_ self)).
  { subst g0. by rewrite chain_graph_constraints. }
  pose proof (chain_graph_covers self first rest Hl) as Hcov. fold g0 in Hcov.
  clearbody g0.
  rewrite state_of_bind.
  set (P := fun s : GMR =>
    s = self \/ exists graph,
      chain_with_loop_closures self graph /\ poses_solved_by graph s).
  set (Inv := fun (g : HashGraph) (s : GMR) =>
    pgo_frame self s /\ graph_covers g self
    /\ (exists cs, constraints g = constraints g0 ++ cs
                   /\ Forall (fun c => exists q, is_loop_closure self q c) cs)
    /\ P s).
  assert (Hsweep : P (state_of (pgo_sweep output_path (length (global_map_ self))
                                 (pgo_skip_first_n_submaps_ self) g0 self))).
  { unfold pgo_sweep. apply (for_loop_inv Inv P).
    - by intros a s (_ & _ & _ & HP).
    - intros i g s (Hfr & Hc & (cs & Hcs & Hlc) & HP).
      destruct (pgo_query_cases (length (global_map_ self))
                  (CombinePaths output_path "refinement")
                  (CombinePaths output_path "candidate_search") i g s)
        as [[Hs Hg]|(txn & Hv & Htxn & Hres & Hs)].
      + rewrite Hs. split; [exact HP|]. intros g' Hg'. apply Hg in Hg'. subst g'.
        split; [exact Hfr|]. split; [exact Hc|]. split; [by exists cs|exact HP].
      + rewrite Hs, Hres.
        assert (HP' : P (set_global_map
                  (UpdateSubmapPoses (HashGraph_optimize (HashGraph_update g txn))) s)).
        { right. exists (HashGraph_update g txn). split.
          - exists first, rest, (cs ++ added_constraints txn).
            split; [exact Hl|]. split.
            + simpl. by rewrite Hcs, Hg0, <- app_assoc.
            + apply Forall_app. split; [exact Hlc|].
              eapply Forall_impl; [exact Htxn|]. intros c Hcl. exists i.
              by eapply is_loop_closure_frame.
          - apply UpdateSubmapPoses_solved.
            unfold graph_covers in *. rewrite HashGraph_update_no_variables by done.
            destruct Hfr as (_ & -> & _). exact Hc. }
        split; [exact HP'|]. intros g' Hg'. injection Hg' as <-.
        split; [|split; [|split]].
        * eapply pgo_frame_trans; [exact Hfr|]. apply UpdateSubmapPoses_frame.
        * unfold graph_covers in *. eapply Forall_impl; [exact Hc|].
          intros t Ht. simpl in Ht.
          rewrite HashGraph_optimize_lookup; [done|].
          by rewrite HashGraph_update_no_variables.
        * exists (cs ++ added_constraints txn). split.
          -- simpl. by rewrite Hcs, <- app_assoc.
          -- apply Forall_app. split; [exact Hlc|].
             eapply Forall_impl; [exact Htxn|]. intros c Hcl. exists i.
             by eapply is_loop_closure_frame.
        * exact HP'.
    - split; [apply pgo_frame_refl|]. split; [exact Hcov|].
      split; [|by left]. exists []. by rewrite app_nil_r. }
  destruct (result_of (pgo_sweep _ _ _ _ _)); exact Hsweep.
Qed.

Lemma refinement_engine_stamp output_path (a b : GMR) s s' :
  params_ a = params_ b -> Stamp s = Stamp s' ->
  refinement_engine output_path s a = refinement_engine output_path s' b.
Proof.
  unfold refinement_engine, submap_output_of. by intros -> ->.
Qed.

Lemma refinement_loop_never_ends output_path (self : GMR) :
  2 ^ 16 <= Z.of_nat (length (global_map_ self)) ->
  invalid_output_path output_path = false ->
  Forall (fun s => setup_fails output_path self s = false) (global_map_ self) ->
  forall fuel i (s : GMR),
    0 <= i < 2 ^ 16 ->
    refinement_frame self s ->
    result_of (refinement_loop output_path (length (global_map_ self)) fuel i s)
    = Timeout.
Proof.
  intros Hsize Hpath Hgood.
  induction fuel as [|fuel IH]; intros i s Hi Hfr.
  - unfold refinement_loop. simpl.
    replace (to_size_t i <? Z.of_nat (length (global_map_ self))) with true; [done|].
    symmetry. apply Z.ltb_lt. rewrite to_size_t_small by lia. lia.
  - assert (Hc : (to_size_t i <? Z.of_nat (length (global_map_ self))) = true).
    { apply Z.ltb_lt. rewrite to_size_t_small by lia. lia. }
    pose proof Hfr as (Hset & Hst & Hrest).
    assert (Hlen : length (global_map_ s) = length (global_map_ self)).
    { by rewrite <- (length_fmap Stamp), Hst, length_fmap. }
    destruct (lookup_lt_is_Some_2 (global_map_ s) (Z.to_nat i)) as [sm Hsm]; [lia|].
    destruct (lookup_lt_is_Some_2 (global_map_ self) (Z.to_nat i)) as [sm0 Hsm0]; [lia|].
    assert (Hstamp : Stamp sm = Stamp sm0).
    { assert (E : (Stamp <$> global_map_ s) !! Z.to_nat i
                  = (Stamp <$> global_map_ self) !! Z.to_nat i) by by rewrite Hst.
      rewrite !list_lookup_fmap, Hsm, Hsm0 in E. by injection E. }
    assert (Hok : setup_fails output_path self sm0 = false).
    { rewrite Forall_forall in Hgood. apply Hgood. by eapply list_elem_of_lookup_2. }
    unfold setup_fails in Hok. apply orb_false_elim in Hok as [Hdir0 Hok].
    assert (Hdir : directory_fails output_path sm = false).
    { by rewrite (directory_fails_stamp _ _ _ Hstamp). }
    unfold engine_fails in Hok.
    destruct (refinement_engine output_path sm0 self) as [e|sr] eqn:Hsr; [done|].
    assert (Hsr' : refinement_engine output_path sm s = inr sr).
    { rewrite <- Hsr. apply refinement_engine_stamp; [|done]. by destruct Hset. }
    unfold refinement_loop. cbn [for_loop_return]. rewrite Hc.
    rewrite bind_assoc, bind_submaps_at, Hc.
    rewrite (to_size_t_small i) by lia.
    rewrite bind_assoc.
    erewrite bind_Returned by (apply (RefineSubmap_run _ _ _ _ _ Hsm Hpath Hdir Hsr')).
    simpl negb. cbv iota. rewrite bind_ret, result_of_prepend.
    apply IH.
    + unfold to_uint16_t. apply Z.mod_pos_bound. lia.
    + eapply refinement_frame_trans; [exact Hfr|].
      pose proof (RefineSubmap_frame s (Z.to_nat i) output_path) as Hf.
      rewrite (RefineSubmap_run _ _ _ _ _ Hsm Hpath Hdir Hsr') in Hf. exact Hf.
Qed.

(** X13. The counter of the refinement stage has sixteen bits: with 2^16
    submaps or more, an output path that passes the guard, and for every
    submap a directory that can be created and an engine that can be
    built, the counter wraps to 0 before it can reach the number of submaps, so
    the loop starts over and never ends, whatever fuel it is given; the
    stage does not return. *)
Theorem RunSubmapRefinement_never_ends output_path (self : GMR) :
  2 ^ 16 <= Z.of_nat (length (global_map_ self)) ->
  invalid_output_path output_path = false ->
  Forall (fun s => setup_fails output_path self s = false) (global_map_ self) ->
  (forall fuel,
     result_of (refinement_loop output_path (length (global_map_ self)) fuel 0 self)
     = Timeout)
  /\ result_of (RunSubmapRefinement output_path self) = Timeout.
Proof.
  intros Hsize Hpath Hgood.
  assert (Hloop : forall fuel,
     result_of (refinement_loop output_path (length (global_map_ self)) fuel 0 self)
     = Timeout).
  { intros fuel.
    apply (refinement_loop_never_ends _ _ Hsize Hpath Hgood); [lia|].
    apply refinement_frame_refl. }
  split; [exact Hloop|].
  unfold RunSubmapRefinement. rewrite bind_get. cbv zeta.
  rewrite result_of_bind.
  change (for_loop_return (length (global_map_ self)) _ _ _ 0 self)
    with (refinement_loop output_path (length (global_map_ self))
            (length (global_map_ self)) 0 self).
  by rewrite Hloop.
Qed.

(** The loop of the alignment stage over a run of submaps, while the
    counter still fits its sixteen bits. *)
Lemma alignment_loop_prefix mt output_path size todo :
  invalid_output_path output_path = false ->
  forall fuel done ref tail (s : GMR),
    Forall (fun t => directory_fails output_path t = false) todo ->
    global_map_ s = done ++ ref :: todo ++ tail ->
    length (global_map_ s) = size ->
    alignment_matcher s = Some mt ->
    Z.of_nat (length done + 1 + length todo) <= 2 ^ 16 ->
    exists s' : GMR,
      global_map_ s' = done ++ ref :: align_chain mt ref todo ++ tail
      /\ submap_alignment (summary_ s')
         = align_summary mt ref todo (submap_alignment (summary_ s))
      /\ alignment_loop output_path size (length todo + fuel)
           (to_uint16_t (Z.of_nat (length done) + 1)) s
         = prepend (align_events mt output_path ref todo)
             (alignment_loop output_path size fuel
                (to_uint16_t (Z.of_nat (length done + 1 + length todo))) s').
Proof.
  intros Hpath.
  induction todo as [|tgt todo IH];
    intros fuel done ref tail s Hdirs Hmap Hlen Hm Hfit.
  - exists s. simpl. rewrite prepend_nil, Nat.add_0_r.
    split; [exact Hmap|]. split; [done|].
    do 2 f_equal. lia.
  - simpl in Hfit. apply Forall_cons_1 in Hdirs as [Hdir Hdirs].
    rewrite (to_uint16_t_small (Z.of_nat (length done) + 1)) by lia.
    assert (Hi : Z.of_nat (length done) + 2 <= Z.of_nat size).
    { rewrite <- Hlen, Hmap, length_app. simpl. lia. }
    set (i := Z.of_nat (length done) + 1) in *.
    assert (Hc : (to_size_t i <? Z.of_nat size) = true).
    { apply Z.ltb_lt. rewrite to_size_t_small by lia. lia. }
    assert (Hr : global_map_ s !! length done = Some ref).
    { rewrite Hmap. by apply list_lookup_middle. }
    assert (Ht : global_map_ s !! S (length done) = Some tgt).
    { rewrite Hmap. rewrite lookup_app_r by lia.
      by replace (S (length done) - length done)%nat with 1%nat by lia. }
    set (s1 := after_alignment (S (length done)) tgt
                 (aligned ref tgt (snd (mt ref tgt))) s).
    assert (Hmap1 : global_map_ s1
              = (done ++ [ref]) ++ align_one mt ref tgt :: todo ++ tail).
    { subst s1. unfold after_alignment. simpl. rewrite Hmap.
      rewrite <- app_assoc. simpl.
      rewrite insert_app_r_alt by lia.
      by replace (S (length done) - length done)%nat with 1%nat by lia. }
    assert (Hlen1 : length (global_map_ s1) = size).
    { subst s1. unfold after_alignment. simpl. by rewrite length_insert. }
    assert (Hm1 : alignment_matcher s1 = Some mt) by exact Hm.
    destruct (IH fuel (done ++ [ref]) (align_one mt ref tgt) tail s1
                Hdirs Hmap1 Hlen1 Hm1)
      as (s' & E1 & E2 & E3).
    { rewrite length_app. simpl. lia. }
    exists s'. split; [|split].
    + rewrite E1, <- app_assoc. reflexivity.
    + rewrite E2. reflexivity.
    + change (length (tgt :: todo) + fuel)%nat with (S (length todo + fuel)).
      unfold alignment_loop at 1. cbn [for_loop_return]. rewrite Hc.
      rewrite bind_assoc, bind_submaps_at.
      rewrite (to_int_small (i - 1)) by lia.
      rewrite (to_size_t_small (i - 1)) by lia.
      replace (i - 1 <? Z.of_nat size) with true by (symmetry; apply Z.ltb_lt; lia).
      rewrite bind_assoc, bind_submaps_at, Hc.
      rewrite (to_size_t_small i) by lia.
      replace (Z.to_nat (i - 1)) with (length done) by lia.
      replace (Z.to_nat i) with (S (length done)) by lia.
      rewrite bind_assoc.
      erewrite bind_Returned
        by (apply (AlignSubmaps_matched _ _ _ _ _ _ _ Hr Ht Hpath Hdir Hm)).
      simpl negb. cbv iota. rewrite bind_ret. fold s1.
      assert (Hnext : i + 1 = Z.of_nat (length (done ++ [ref])) + 1).
      { rewrite length_app. simpl. lia. }
      rewrite Hnext.
      change (for_loop_return (length todo + fuel) _ _ _
                (to_uint16_t (Z.of_nat (length (done ++ [ref])) + 1)) s1)
        with (alignment_loop output_path size (length todo + fuel)
                (to_uint16_t (Z.of_nat (length (done ++ [ref])) + 1)) s1).
      rewrite E3, prepend_prepend. simpl align_events.
      do 4 f_equal. rewrite length_app. simpl. lia.
Qed.

(** X14. The counter of the alignment stage has sixteen bits too: with 2^16
    submaps or more (and fewer than 2^64), an output path that passes the
    guard and below which the directories of the 2^16 - 1 submaps after the
    first can be created, and a matcher, the stage aligns the 2^16 - 1 submaps after the first, the
    counter wraps to 0, and the reference of submap 0 is asked for at index
    -1: the stage throws out_of_range.  The submaps from index 2^16 on are
    never aligned, and what was aligned stays. *)
Theorem RunSubmapAlignment_counter_wraps output_path (self : GMR) first todo tail mt :
  global_map_ self = first :: todo ++ tail ->
  Z.of_nat (length todo) = 2 ^ 16 - 1 ->
  Z.of_nat (length (global_map_ self)) < 2 ^ 64 ->
  invalid_output_path output_path = false ->
  Forall (fun t => directory_fails output_path t = false) todo ->
  alignment_matcher self = Some mt ->
  let r := RunSubmapAlignment output_path self in
  result_of r = Thrown out_of_range
  /\ global_map_ (state_of r) = first :: align_chain mt first todo ++ tail
  /\ events_of r = align_events mt output_path first todo.
Proof.
  intros Hmap Htodo Hsize Hpath Hdirs Hm r.
  assert (Hlen : length (global_map_ self) = (length todo + S (length tail))%nat).
  { rewrite Hmap. simpl. rewrite length_app. lia. }
  destruct (alignment_loop_prefix mt output_path (length (global_map_ self)) todo
              Hpath (S (length tail)) [] first tail self Hdirs Hmap eq_refl Hm)
    as (s' & E1 & E2 & E3).
  { simpl. lia. }
  simpl in E1.
  replace (to_uint16_t (Z.of_nat (length (@nil Submap) + 1 + length todo))) with 0 in E3.
  2:{ simpl length. replace (Z.of_nat (0 + 1 + length todo)) with (2 ^ 16) by lia.
      reflexivity. }
  assert (Hlen' : length (global_map_ s') = length (global_map_ self)).
  { rewrite E1, Hmap. simpl. rewrite !length_app. f_equal. f_equal.
    clear. revert first. induction todo as [|t todo IH]; intros first; [done|].
    simpl. f_equal. apply IH. }
  assert (Hc : (to_size_t 0 <? Z.of_nat (length (global_map_ self))) = true).
  { apply Z.ltb_lt. rewrite to_size_t_small by lia. lia. }
  assert (Hc' : (to_size_t (to_int (0 - 1)) <? Z.of_nat (length (global_map_ self)))
                = false).
  { apply Z.ltb_ge. change (to_size_t (to_int (0 - 1))) with (2 ^ 64 - 1). lia. }
  unfold alignment_loop at 2 in E3. cbn [for_loop_return] in E3. rewrite Hc in E3.
  rewrite bind_assoc, bind_submaps_at, Hc' in E3.
  change (to_uint16_t (Z.of_nat (length (@nil Submap)) + 1)) with 1 in E3.
  assert (Er : r = prepend (align_events mt output_path first todo)
                 (Thrown out_of_range, s', [])).
  { subst r. unfold RunSubmapAlignment. rewrite bind_get. cbv zeta.
    replace (Z.of_nat (length (global_map_ self)) <? 2) with false
      by (symmetry; apply Z.ltb_ge; lia).
    rewrite <- Hlen in E3.
    change (for_loop_return (length (global_map_ self)) _ _ _ 1)
      with (alignment_loop output_path (length (global_map_ self))
              (length (global_map_ self)) 1).
    erewrite bind_Thrown by exact E3. reflexivity. }
  clearbody r. subst r.
  rewrite result_of_prepend, state_of_prepend, events_of_prepend.
  split; [reflexivity|]. split; [exact E1|]. simpl. by rewrite app_nil_r.
Qed.

(** ** LoadJson on a file that can be read *)

Lemma json_section_contains J k v :
  json_section J k = v -> v <> json_null -> json_contains J k = true.
Proof.
  unfold json_section, json_contains. destruct J as [| | |ms]; try congruence.
  destruct (members_find k ms); simpl; congruence.
Qed.

Lemma bind_validate {St B} keys J (f : unit -> M St B) s :
  forallb (json_contains J) keys = true ->
  bind (ValidateJsonKeysOrThrow keys J) f s = f tt s.
Proof.
  intros Hk. erewrite bind_Returned; [apply prepend_nil|].
  induction keys as [|k keys IH]; [reflexivity|].
  simpl in *. apply andb_prop in Hk as [-> Hk]. by apply IH.
Qed.

Lemma bind_json_at {St B} J k (f : json -> M St B) s :
  json_contains J k = true ->
  bind (json_at J k) f s = f (json_section J k) s.
Proof.
  intros Hk. erewrite bind_Returned; [apply prepend_nil|].
  unfold json_contains in Hk. unfold json_at, json_section.
  destruct J as [| | |ms]; try discriminate.
  by destruct (members_find k ms).
Qed.

Lemma bind_as_string {St B} str (f : string -> M St B) s :
  bind (as_string (json_string str)) f s = f str s.
Proof. apply bind_ret. Qed.

Lemma bind_as_double {St B} x (f : scalar -> M St B) s :
  bind (as_double (json_number x)) f s = f x s.
Proof. apply bind_ret. Qed.

Lemma bind_when_modify {B} (b : bool) (g : Params -> Params)
    (f : unit -> M Params B) s :
  bind (when b (modify g)) f s = f tt (if b then g s else s).
Proof. rewrite bind_when. destruct b; [apply bind_modify | reflexivity]. Qed.

(** Steps through the reads of LoadJson whose key is present and whose
    value has the type asked for. *)
Ltac load_step :=
  first
    [ rewrite bind_assoc
    | rewrite bind_validate by (simpl; repeat (apply andb_true_intro; split);
                                first [reflexivity | eassumption])
    | rewrite bind_json_at by eassumption
    | rewrite bind_when_modify
    | rewrite bind_modify
    | match goal with
      | E : json_section ?J ?k = json_string _ |- context [json_section ?J ?k] =>
          rewrite E, bind_as_string
      | E : json_section ?J ?k = json_number _ |- context [json_section ?J ?k] =>
          rewrite E, bind_as_double
      end ].

(** X15. A configuration that can be read and holds every entry with the type
    asked for loads: each path that is not empty is taken relative to the
    configuration root, an empty one keeps what the parameter held, and the
    two covariances are the identity scaled by the numbers read.  No
    required key can be missing from such a file. *)
Theorem LoadJson_loads config_path (p : Params) J cs rc lm lc sr mc amc :
  config_path <> "" ->
  ReadJson config_path = Some J ->
  loop_closure_section J cs rc lm lc ->
  json_section (json_section J "submap_refinement") "scan_registration_config"
    = json_string sr ->
  json_section (json_section J "submap_refinement") "matcher_config" = json_string mc ->
  json_section (json_section J "submap_alignment") "matcher_config" = json_string amc ->
  required_keys_present J = true
  /\ LoadJson config_path p =
     (Returned tt,
      {| loop_closure := loaded_loop_closure cs rc lm lc (loop_closure p);
         submap_refinement_params :=
           loaded_submap_refinement sr mc (submap_refinement_params p);
         submap_alignment_params :=
           loaded_submap_alignment amc (submap_alignment_params p) |},
      []).
Proof.
  intros Hne HJ (Hcs & Hrc & Hlm & Hlc) Hsr Hmc Hamc.
  assert (Kcs := json_section_contains _ _ _ Hcs ltac:(discriminate)).
  assert (Krc := json_section_contains _ _ _ Hrc ltac:(discriminate)).
  assert (Klm := json_section_contains _ _ _ Hlm ltac:(discriminate)).
  assert (Klc := json_section_contains _ _ _ Hlc ltac:(discriminate)).
  assert (Ksr := json_section_contains _ _ _ Hsr ltac:(discriminate)).
  assert (Kmc := json_section_contains _ _ _ Hmc ltac:(discriminate)).
  assert (Kamc := json_section_contains _ _ _ Hamc ltac:(discriminate)).
  assert (K1 : json_contains J "loop_closure" = true).
  { apply (json_section_contains _ _ _ eq_refl). intros E. rewrite E in Hcs. discriminate. }
  assert (K2 : json_contains J "submap_refinement" = true).
  { apply (json_section_contains _ _ _ eq_refl). intros E. rewrite E in Hsr. discriminate. }
  assert (K3 : json_contains J "submap_alignment" = true).
  { apply (json_section_contains _ _ _ eq_refl). intros E. rewrite E in Hamc. discriminate. }
  split.
  { unfold required_keys_present. simpl.
    by rewrite K1, K2, K3, Kcs, Krc, Klm, Klc, Ksr, Kmc, Kamc. }
  unfold LoadJson.
  destruct (String.eqb_spec config_path "") as [->|_]; [done|].
  rewrite HJ.
  repeat load_step.
  unfold when.
  unfold loaded_loop_closure, loaded_submap_refinement, loaded_submap_alignment,
    config_path_of.
  destruct (String.eqb cs ""), (String.eqb rc ""), (String.eqb sr ""),
    (String.eqb mc ""), (String.eqb amc ""); destruct p as [[] [] []]; reflexivity.
Qed.

(** X16. LoadJson writes into the parameters as it reads: when the entry
    scan_registration_config of a file with every required key is not a
    string, the type error leaves the function after the loop-closure
    parameters have been overwritten, and the other two groups are as they
    were. *)
Theorem LoadJson_partial config_path (p : Params) J cs rc lm lc :
  config_path <> "" ->
  ReadJson config_path = Some J ->
  required_keys_present J = true ->
  loop_closure_section J cs rc lm lc ->
  (forall str,
     json_section (json_section J "submap_refinement") "scan_registration_config"
     <> json_string str) ->
  LoadJson config_path p =
  (Thrown json_type_error,
   {| loop_closure := loaded_loop_closure cs rc lm lc (loop_closure p);
      submap_refinement_params := submap_refinement_params p;
      submap_alignment_params := submap_alignment_params p |},
   []).
Proof.
  intros Hne HJ Hkeys (Hcs & Hrc & Hlm & Hlc) Hbad.
  unfold required_keys_present in Hkeys. simpl in Hkeys.
  repeat match type of Hkeys with
         | _ && _ = true => let K := fresh "K" in apply andb_prop in Hkeys as [Hkeys K]
         end.
  repeat match goal with
         | K : _ && _ = true |- _ =>
             let K' := fresh "K" in apply andb_prop in K as [K K']
         end.
  unfold LoadJson.
  destruct (String.eqb_spec config_path "") as [->|_]; [done|].
  rewrite HJ.
  repeat load_step.
  destruct (json_section (json_section J "submap_refinement") "scan_registration_config")
    as [|str| |] eqn:E; try (by destruct (Hbad str));
    unfold when, loaded_loop_closure, config_path_of;
    destruct (String.eqb cs ""), (String.eqb rc ""); destruct p as [[] [] []];
    reflexivity.
Qed.

Lemma pgo_query_without_candidates size p1 p2 q g (self : GMR) :
  (forall search submaps query ign use path,
     loop_closure_candidate_search_ self = Some search ->
     search submaps query ign use path = []) ->
  state_of (pgo_query size p1 p2 q g self) = self.
Proof.
  intros Hnone. unfold pgo_query. rewrite bind_submaps_at.
  destruct (to_size_t q <? Z.of_nat size); [|done].
  destruct (global_map_ self !! Z.to_nat (to_size_t q)) as [query|] eqn:Hquery;
    [rewrite (bind_deref _ _ _ _ Hquery)
    |by rewrite (bind_deref_None _ _ _ Hquery)].
  rewrite bind_get.
  destruct (loop_closure_candidate_search_ self) as [cs|] eqn:Hcs; [|done].
  rewrite bind_ret, bind_emit, state_of_prepend.
  by rewrite (Hnone cs _ _ _ _ _ eq_refl).
Qed.

(** X11. The pose-graph stage moves a submap only on candidates: when the
    candidate search of the object never returns one, the stage leaves the
    object exactly as it was, whatever the map, the skip count and the way
    the stage ends. *)
Theorem RunPoseGraphOptimization_without_candidates output_path (self : GMR) :
  (forall search submaps query ign use path,
     loop_closure_candidate_search_ self = Some search ->
     search submaps query ign use path = []) ->
  state_of (RunPoseGraphOptimization output_path self) = self.
Proof.
  intros Hnone.
  rewrite RunPoseGraphOptimization_unfold, state_of_prepend.
  destruct (pgo_directories_fail output_path); [done|].
  rewrite state_of_bind.
  rewrite pgo_chain_graph_state.
  destruct (result_of (pgo_chain_graph _ _)) as [graph| |]; [|done..].
  rewrite state_of_bind. unfold pgo_sweep.
  set (loop := for_loop _ _ _ _ _ _ _).
  assert (Hloop : state_of loop = self).
  { subst loop.
    apply (for_loop_state_inv (fun s => s = self) (fun _ => True)); [done| |done..].
    intros i g s _ _ ->. by apply pgo_query_without_candidates. }
  destruct (result_of loop); exact Hloop.
Qed.

(** ** The pose-graph stage on a complete object *)

Lemma to_size_t_index (size : nat) z :
  to_size_t z < Z.of_nat size -> (Z.to_nat (to_size_t z) < size)%nat.
Proof.
  intros Hz. unfold to_size_t in *.
  pose proof (Z.mod_pos_bound z (2 ^ 64) ltac:(lia)). lia.
Qed.

Lemma pgo_candidates_no_throw size path q cands txn (self : GMR) refine e :
  length (global_map_ self) = size ->
  loop_closure_refinement_ self = Some refine ->
  to_size_t q < Z.of_nat size ->
  q < 2 ^ 63 ->
  Forall (fun c => 0 <= fst c) cands ->
  result_of (pgo_candidates size path q cands txn self) <> Thrown e.
Proof.
  intros Hlen Hrf Hq Hq' Hcands. revert txn.
  induction cands as [|[m T] cands IH]; intros txn; [done|].
  apply Forall_cons_1 in Hcands as [Hm Hcands]. simpl in Hm.
  cbn [pgo_candidates]. destruct (q - 1 <=? m) eqn:Hrej.
  - rewrite bind_emit, result_of_prepend. by apply IH.
  - apply Z.leb_gt in Hrej.
    assert (Hmq : to_size_t m < Z.of_nat size).
    { rewrite to_size_t_small by lia.
      destruct (decide (0 <= q)) as [Hq0|Hq0].
      - rewrite to_size_t_small in Hq by lia. lia.
      - lia. }
    rewrite bind_submaps_at. rewrite (proj2 (Z.ltb_lt _ _) Hmq).
    destruct (lookup_lt_is_Some_2 (global_map_ self) (Z.to_nat (to_size_t m)))
      as [matched Hmatched].
    { rewrite Hlen. by apply to_size_t_index. }
    rewrite (bind_deref _ _ _ _ Hmatched).
    rewrite bind_submaps_at. rewrite (proj2 (Z.ltb_lt _ _) Hq).
    destruct (lookup_lt_is_Some_2 (global_map_ self) (Z.to_nat (to_size_t q)))
      as [query Hquery].
    { rewrite Hlen. by apply to_size_t_index. }
    rewrite (bind_deref _ _ _ _ Hquery).
    rewrite bind_get, Hrf, bind_ret, bind_emit, result_of_prepend.
    destruct (successful _); cbn [negb]; by apply IH.
Qed.

Lemma pgo_query_no_throw size p1 p2 q g (self : GMR) search refine e :
  length (global_map_ self) = size ->
  loop_closure_candidate_search_ self = Some search ->
  loop_closure_refinement_ self = Some refine ->
  (forall submaps query ign use path,
     Forall (fun c => 0 <= fst c) (search submaps query ign use path)) ->
  to_size_t q < Z.of_nat size ->
  q < 2 ^ 63 ->
  result_of (pgo_query size p1 p2 q g self) <> Thrown e.
Proof.
  intros Hlen Hcs Hrf Hsearch Hq Hq'.
  unfold pgo_query. rewrite bind_submaps_at. rewrite (proj2 (Z.ltb_lt _ _) Hq).
  destruct (lookup_lt_is_Some_2 (global_map_ self) (Z.to_nat (to_size_t q)))
    as [query Hquery].
  { rewrite Hlen. by apply to_size_t_index. }
  rewrite (bind_deref _ _ _ _ Hquery).
  rewrite bind_get, Hcs, bind_ret, bind_emit, result_of_prepend.
  pose proof (Hsearch (global_map_ self) query
                (to_int (to_size_t (Z.of_nat size - to_size_t q + 1))) false p2) as Hc.
  destruct (search _ _ _ _ _) as [|c cands]; [done|].
  rewrite result_of_bind.
  pose proof (pgo_candidates_no_throw size p1 q (c :: cands) Transaction_new self
                refine e Hlen Hrf Hq Hq' Hc) as Hne.
  pose proof (pgo_candidates_no_throw size p1 q (c :: cands) Transaction_new self
                refine) as Hne'.
  destruct (result_of (pgo_candidates size p1 q (c :: cands) Transaction_new self))
    as [txn|e'|] eqn:E; [done| |done].
  by destruct (Hne' e' Hlen Hrf Hq Hq' Hc).
Qed.

(** X12. On an object that has its two loop-closure members, with at least one
    and fewer than 2^31 - 1 submaps, a skip count in [0, 2^31), a
    candidate search that returns no negative index, and an output path
    below which the two directories of the results can be created, the
    pose-graph stage returns true: no index is out of range and the run
    ends. *)
Theorem RunPoseGraphOptimization_completes output_path (self : GMR) first rest
    search refine :
  global_map_ self = first :: rest ->
  Z.of_nat (length (global_map_ self)) < 2 ^ 31 - 1 ->
  0 <= pgo_skip_first_n_submaps_ self < 2 ^ 31 ->
  loop_closure_candidate_search_ self = Some search ->
  loop_closure_refinement_ self = Some refine ->
  (forall submaps query ign use path,
     Forall (fun c => 0 <= fst c) (search submaps query ign use path)) ->
  pgo_directories_fail output_path = false ->
  result_of (RunPoseGraphOptimization output_path self) = Returned true.
Proof.
  intros Hl Hn Hskip Hcs Hrf Hsearch Hdir.
  assert (Hpos : (1 <= length (global_map_ self))%nat) by (rewrite Hl; simpl; lia).
  rewrite RunPoseGraphOptimization_unfold, result_of_prepend, Hdir, result_of_bind.
  rewrite (pgo_chain_graph_run _ _ _ Hl ltac:(lia)).
  cbn [result_of state_of fst snd].
  set (g0 := chain_graph _ _ _). clearbody g0.
  rewrite result_of_bind.
  set (sw := pgo_sweep output_path (length (global_map_ self))
               (pgo_skip_first_n_submaps_ self) g0 self).
  assert (Hnt : result_of sw <> Timeout).
  { subst sw. unfold pgo_sweep. rewrite to_int_small by lia.
    apply (pgo_sweep_loop_find_calls (length (global_map_ self))); try done; lia. }
  assert (Hne : forall e, result_of sw <> Thrown e).
  { intros e. subst sw. unfold pgo_sweep. rewrite to_int_small by lia.
    apply (for_loop_no_throw
             (fun s : GMR => pgo_frame self s)
             (fun q => 0 <= q < 2 ^ 31)).
    - intros q Hq Hc. apply Z.ltb_lt in Hc.
      rewrite !to_size_t_small in Hc by lia.
      rewrite to_int_small by lia. lia.
    - intros q g s Hq Hc Hfr. split.
      + eapply pgo_frame_trans; [exact Hfr|]. apply pgo_query_frame.
      + intros e'. apply Z.ltb_lt in Hc. rewrite !to_size_t_small in Hc by lia.
        destruct Hfr as ((_ & _ & _ & Hcs' & Hrf' & _) & Hst & _).
        eapply pgo_query_no_throw.
        * by rewrite <- (length_fmap Stamp), Hst, length_fmap.
        * by rewrite Hcs'.
        * by rewrite Hrf'.
        * exact Hsearch.
        * rewrite to_size_t_small by lia. lia.
        * lia.
    - lia.
    - apply pgo_frame_refl. }
  destruct (result_of sw) as [g|e|]; [reflexivity | by destruct (Hne e) | done].
Qed.

(** ** What the constructor leaves *)

(** X17. The constructor from a map and parameters, for a matcher type that is
    known, leaves a complete object: exactly one of the two matchers is
    set, the loam matcher for LOAM and the other one otherwise, so that
    AlignSubmaps has its matcher; both loop-closure members are set from
    the paths of the parameters; the map and the parameters are the ones
    given and the summary is empty.  Nothing is logged. *)
Theorem GlobalMapRefinement_new_complete (global_map : list Submap) (params : Params) :
  let m_conf := alignment_matcher_config (submap_alignment_params params) in
  let r := GlobalMapRefinement_new global_map params in
  let self := state_of r in
  GetTypeFromConfig m_conf <> UNKNOWN ->
  r = (Returned tt, self, [])
  /\ params_ self = params
  /\ global_map_ self = global_map
  /\ summary_ self = empty_summary
  /\ (matcher_loam_ self <> None <-> GetTypeFromConfig m_conf = LOAM)
  /\ (matcher_ self <> None <-> GetTypeFromConfig m_conf <> LOAM)
  /\ is_Some (alignment_matcher self)
  /\ loop_closure_candidate_search_ self
     = Some (RelocCandidateSearchBase_Create
               (candidate_search_config (loop_closure params)))
  /\ loop_closure_refinement_ self
     = Some (RelocRefinementBase_Create (refinement_config (loop_closure params)))
  /\ pgo_skip_first_n_submaps_ self = default_pgo_skip_first_n_submaps
  /\ pose_prior_noise_ self = default_pose_prior_noise.
Proof.
  intros m_conf r self Hty. subst self r.
  unfold GlobalMapRefinement_new, Setup. rewrite bind_get. cbv zeta.
  change (alignment_matcher_config
            (submap_alignment_params (params_ (uninitialised global_map params))))
    with m_conf.
  destruct (GetTypeFromConfig m_conf) eqn:E; try done;
    (split; [reflexivity|]); cbn; unfold alignment_matcher; cbn;
    repeat split; try done; try (intros; discriminate); by eexists.
Qed.

(** ** The summary file *)

#[local] Instance key_le_transitive {V} : Transitive (@key_le V).
Proof.
  intros [[a1 a2] ?] [[b1 b2] ?] [[c1 c2] ?].
  unfold key_le, Time_le, sec, nsec. simpl. lia.
Qed.

#[local] Instance key_le_total {V} : Total (@key_le V).
Proof.
  intros [[a1 a2] ?] [[b1 b2] ?].
  unfold key_le, Time_le, sec, nsec. simpl. lia.
Qed.

Lemma StronglySorted_strict {V} (l : list (Time * V)) :
  StronglySorted key_le l -> NoDup l.*1 ->
  StronglySorted (fun a b => Time_lt (fst a) (fst b)) l.
Proof.
  induction 1 as [|a l Hl IH Ha]; intros Hnd; [constructor|].
  simpl in Hnd. apply NoDup_cons in Hnd as [Hnotin Hnd].
  constructor; [by apply IH|].
  apply Forall_forall. intros b Hb.
  rewrite Forall_forall in Ha. specialize (Ha b Hb).
  assert (Hne : fst a <> fst b).
  { intros E. apply Hnotin. rewrite E. apply list_elem_of_fmap. by exists b. }
  destruct a as [[a1 a2] ?], b as [[b1 b2] ?].
  unfold key_le, Time_le, Time_lt, sec, nsec in *. simpl in *.
  destruct (decide (a2 = b2)) as [->|]; [|lia].
  destruct (decide (a1 = b1)) as [->|]; [done|lia].
Qed.

Lemma read_back_J_result_of entry : read_back (J_result_of entry) = entry.
Proof. by destruct entry as [[s n] [r t]]. Qed.

Lemma Summary_Save_array (m : gmap Time RegistrationResult) :
  let array := J_result_of <$> entries_in_order m in
  length array = size m
  /\ StronglySorted (fun a b => Time_lt (J_stamp a) (J_stamp b)) array
  /\ list_to_map (read_back <$> array) = m.
Proof.
  intros array. subst array. unfold entries_in_order.
  pose proof (merge_sort_Permutation key_le (map_to_list m)) as Hperm.
  assert (Hnd : NoDup (merge_sort key_le (map_to_list m)).*1).
  { rewrite Hperm. apply NoDup_fst_map_to_list. }
  split; [|split].
  - by rewrite length_fmap, Hperm, length_map_to_list.
  - apply (StronglySorted_fmap _ (fun a b => Time_lt (fst a) (fst b))).
    + intros [[a1 a2] [? ?]] [[b1 b2] [? ?]]. done.
    + apply StronglySorted_strict; [|exact Hnd].
      apply StronglySorted_merge_sort; apply _.
  - rewrite <- list_fmap_compose.
    rewrite (list_fmap_ext _ id (merge_sort key_le (map_to_list m)))
      by (intros; apply read_back_J_result_of).
    rewrite list_fmap_id.
    rewrite (list_to_map_proper _ (map_to_list m) Hnd Hperm).
    apply list_to_map_to_list.
Qed.

(** X19. The summary file holds the summary and nothing else: each of its two
    arrays has exactly one entry for each entry of the corresponding map,
    in strictly ascending order of the stamp (seconds, then nanoseconds),
    and reading the entries back gives the map again. *)
Theorem Summary_Save_round_trip output_path (summary : Summary) :
  let file := Summary_Save output_path summary in
  (length (J_submap_refinement file) = size (submap_refinement summary)
   /\ StronglySorted (fun a b => Time_lt (J_stamp a) (J_stamp b))
        (J_submap_refinement file)
   /\ list_to_map (read_back <$> J_submap_refinement file) = submap_refinement summary)
  /\ (length (J_submap_alignment file) = size (submap_alignment summary)
      /\ StronglySorted (fun a b => Time_lt (J_stamp a) (J_stamp b))
           (J_submap_alignment file)
      /\ list_to_map (read_back <$> J_submap_alignment file) = submap_alignment summary).
Proof.
  intros file. split; apply Summary_Save_array.
Qed.

End MoreTheory.

(** * The properties on concrete runs *)

Section Runs.
Import Line LineCases.

(** C1 (what the code does). With a matcher whose every [Match] fails,
    AlignSubmaps still returns true and records a summary entry, so
    RunSubmapAlignment goes through all pairs and returns true: for three
    submaps both pairs are aligned, both failures are ignored, and the
    alignment summary ends with two entries. *)
Theorem RunSubmapAlignment_ignores_match_failure :
  let r := @RunSubmapAlignment geometry (collaborators matcher_fails) "/out"
             (constructed matcher_fails three_submaps) in
  result_of r = Returned true
  /\ events_of r =
     [create_directory "/out/submap_t"; Match_call false;
      SaveResults_call "/out/submap_t" "submap_cloud_";
      create_directory "/out/submap_t"; Match_call false;
      SaveResults_call "/out/submap_t" "submap_cloud_"]
  /\ size (submap_alignment (summary_ (state_of r))) = 2%nat
  /\ T_WORLD_SUBMAP <$> global_map_ (state_of r) = [0; 11; 22].
Proof. vm_compute. repeat split. Qed.

(** C2, a run without a baseline solve: three submaps, none skipped, no
    candidate found.  The function returns true after two searches and the
    graph is never solved, neither before the sweep nor in it. *)
Lemma RunPoseGraphOptimization_no_baseline_solve :
  let r := @RunPoseGraphOptimization geometry (collaborators sweep_finds_nothing)
             "/out" (constructed sweep_finds_nothing three_submaps) in
  result_of r = Returned true
  /\ find_calls (events_of r) = [(0, 4); (1, 3)]
  /\ solves (before_first_search (events_of r)) <> 1%nat
  /\ solves (events_of r) = 0%nat.
Proof. vm_compute. repeat split. discriminate. Qed.

Lemma RunPoseGraphOptimization_solves_witness :
  let r := @RunPoseGraphOptimization geometry (collaborators sweep_finds_loop)
             "/out" (constructed sweep_finds_loop four_submaps) in
  let pre :=
    [create_directory "/out/refinement"; create_directory "/out/candidate_search";
     graph_update 1 1; graph_update 1 1; graph_update 1 1; graph_update 1 1;
     FindRelocCandidates_call 0 5 false 0; FindRelocCandidates_call 1 4 false 0;
     FindRelocCandidates_call 2 3 false 3; RunRefinement_call 0 2 true;
     rejection; rejection; graph_update 0 1] in
  result_of r = Returned true
  /\ events_of r = pre ++ graph_optimize :: [UpdateSubmapPoses_call]
  /\ solves (before_first_search (events_of r)) = 0%nat
  /\ solves (events_of r) = fruitful_searches (events_of r)
  /\ solves (events_of r) = 1%nat
  /\ (exists head sweep,
        events_of r = head ++ sweep /\ Forall quiet head /\ sweep_trace sweep)
  /\ exists pre' q n k ce,
       pre = pre' ++ FindRelocCandidates_call q n false (S k)
                     :: ce ++ [graph_update 0 (successful_refinements ce)]
       /\ Forall (candidate_trace q) ce.
Proof.
  intros r pre.
  pose proof (@RunPoseGraphOptimization_solves geometry (collaborators sweep_finds_loop)
                "/out" (constructed sweep_finds_loop four_submaps))
    as (Hb & _ & Heq & Htrace & Hsolve).
  assert (Hr : result_of r = Returned true) by (vm_compute; reflexivity).
  assert (Hev : events_of r = pre ++ graph_optimize :: [UpdateSubmapPoses_call])
    by (vm_compute; reflexivity).
  split; [exact Hr|]. split; [exact Hev|]. split; [exact Hb|].
  split; [exact (Heq Hr)|]. split; [vm_compute; reflexivity|].
  split; [exact Htrace|].
  exact (Hsolve pre [UpdateSubmapPoses_call] Hev).
Defined.

Lemma RunPoseGraphOptimization_searches_witness :
  let self := constructed sweep_finds_loop four_submaps in
  let r := @RunPoseGraphOptimization geometry (collaborators sweep_finds_loop)
             "/out" self in
  0 <= pgo_skip_first_n_submaps_ self < 2 ^ 31
  /\ Z.of_nat (length (global_map_ self)) < 2 ^ 31 - 1
  /\ find_calls (events_of r) = [(0, 5); (1, 4); (2, 3)].
Proof.
  intros self r.
  assert (Hskip : 0 <= pgo_skip_first_n_submaps_ self < 2 ^ 31)
    by (vm_compute; split; [discriminate | reflexivity]).
  assert (Hn : Z.of_nat (length (global_map_ self)) < 2 ^ 31 - 1)
    by (vm_compute; reflexivity).
  split; [exact Hskip|]. split; [exact Hn|].
  destruct (@RunPoseGraphOptimization_searches geometry
              (collaborators sweep_finds_loop) "/out" self Hskip Hn) as (_ & Heq & _).
  subst r. rewrite Heq; [|vm_compute; reflexivity].
  vm_compute. reflexivity.
Defined.

Lemma pgo_candidates_rejects_witness :
  let self := constructed sweep_finds_loop four_submaps in
  2 - 1 <= 2
  /\ pgo_candidates 4 "/out/refinement" 2 [(2, 5)] Transaction_new self =
     (Returned Transaction_new, self,
      [BEAM_ERROR "Error in candidate search implementation, please fix!"])
  /\ Forall (fun c => fst c < 2 - 1 /\ snd c = 2)
       (refinement_calls
          (events_of
             (pgo_candidates 4 "/out/refinement" 2
                ([(0, -20)] ++ (2, 5) :: [(1, 3)]) Transaction_new self))).
Proof.
  intros self.
  assert (Hm : 2 - 1 <= 2) by (vm_compute; discriminate).
  split; [exact Hm|].
  destruct (@pgo_candidates_rejects geometry 4
              "/out/refinement" 2 [(0, -20)] 2 5 [(1, 3)] Transaction_new self Hm)
    as (_ & Hone & Hall).
  split; [exact Hone | exact Hall].
Defined.

Lemma AlignSubmaps_pose_witness :
  let icp := state_of (@GlobalMapRefinement_new geometry (with_cloud_matcher base)
                         drifted_submaps params0) in
  let lm := state_of (@GlobalMapRefinement_new geometry (with_cloud_matcher loam)
                        drifted_submaps params0) in
  global_map_ icp !! 0%nat = Some drifted_reference
  /\ global_map_ icp !! 1%nat = Some drifted_target
  /\ T_WORLD_SUBMAP drifted_reference <> T_WORLD_SUBMAP_INIT drifted_reference
  /\ T_WORLD_SUBMAP drifted_target <> T_WORLD_SUBMAP_INIT drifted_target
  /\ @invalid_output_path geometry (with_cloud_matcher base) "/out" = false
  /\ @directory_fails geometry (with_cloud_matcher base) "/out" drifted_target = false
  /\ (exists m, matcher_loam_ icp = None /\ matcher_ icp = Some m)
  /\ (exists m, matcher_loam_ lm = Some m)
  /\ T_WORLD_SUBMAP <$>
       global_map_ (state_of (@AlignSubmaps geometry (with_cloud_matcher base)
                                0 1 "/out" icp))
       !! 1%nat = Some (3 + (- 5 + 10 + (8 - 1)))
  /\ T_WORLD_SUBMAP <$>
       global_map_ (state_of (@AlignSubmaps geometry (with_cloud_matcher loam)
                                0 1 "/out" lm))
       !! 1%nat = Some (3 + (- 5 + 10 + (8 - 1))).
Proof.
  intros icp lm.
  split; [reflexivity|]. split; [reflexivity|].
  split; [discriminate|]. split; [discriminate|].
  split; [reflexivity|]. split; [reflexivity|].
  split; [eexists; split; reflexivity|]. split; [eexists; reflexivity|]. split.
  - destruct (@AlignSubmaps_pose geometry (with_cloud_matcher base) icp 0 1
                drifted_reference drifted_target "/out"
                eq_refl eq_refl eq_refl eq_refl) as [_ Hicp].
    destruct (Hicp cloud_matcher eq_refl eq_refl) as [_ Hpose].
    rewrite Hpose. reflexivity.
  - destruct (@AlignSubmaps_pose geometry (with_cloud_matcher loam) lm 0 1
                drifted_reference drifted_target "/out"
                eq_refl eq_refl eq_refl eq_refl) as [Hloam _].
    destruct (Hloam cloud_matcher eq_refl) as [_ Hpose].
    rewrite Hpose. reflexivity.
Defined.

Lemma pgo_chain_graph_constraints_witness :
  let self := constructed base three_submaps in
  global_map_ self =
    submap 100 0 [scan 101 1; scan 102 2]
    :: [submap 200 10 [scan 201 1; scan 202 2]; submap 300 20 [scan 301 1; scan 302 2]]
  /\ Z.of_nat (length (global_map_ self)) < 2 ^ 31
  /\ exists graph,
       pgo_chain_graph 3 self = (Returned graph, self, replicate 3 (graph_update 1 1))
       /\ constraints graph =
          [AbsolutePose3DStampedConstraint (100, 0) 0 1
             "GlobalMapRefinement::RunPoseGraphOptimization";
           RelativePose3DStampedConstraint (100, 0) (200, 0) 10 10
             "GlobalMap::InitiateNewSubmapPose";
           RelativePose3DStampedConstraint (200, 0) (300, 0) 10 10
             "GlobalMap::InitiateNewSubmapPose"].
Proof.
  intros self.
  assert (Hn : Z.of_nat (length (global_map_ self)) < 2 ^ 31) by (vm_compute; reflexivity).
  split; [reflexivity|]. split; [exact Hn|].
  destruct (@pgo_chain_graph_constraints geometry self _ _ eq_refl Hn)
    as (graph & Hrun & _).
  exists graph. split; [exact Hrun|].
  assert (Hg : Returned graph = result_of (pgo_chain_graph 3 self))
    by (change 3%nat with (length (global_map_ self)); by rewrite Hrun).
  vm_compute in Hg. injection Hg as ->. reflexivity.
Defined.


(** C8, a submap refined twice: the first call enters its two scans in the
    summary, the second returns true and adds nothing, so the summary does
    not grow by one entry for each scan of the submap processed. *)
Lemma RefineSubmap_twice_adds_nothing :
  let self := constructed base three_submaps in
  let r1 := @RefineSubmap geometry (collaborators base) 0 "/out" self in
  let r2 := @RefineSubmap geometry (collaborators base) 0 "/out" (state_of r1) in
  result_of r1 = Returned true
  /\ result_of r2 = Returned true
  /\ size (submap_refinement (summary_ (state_of r1))) = 2%nat
  /\ size (submap_refinement (summary_ (state_of r2))) <>
     (size (submap_refinement (summary_ (state_of r1))) + 2)%nat
  /\ size (submap_refinement (summary_ (state_of r2))) = 2%nat.
Proof. vm_compute. repeat split. discriminate. Qed.

Lemma RefineSubmap_summary_witness :
  let self := constructed registration_fails three_submaps in
  let s := submap 100 0 [scan 101 1; scan 102 2] in
  let final :=
    state_of (@RefineSubmap geometry (collaborators registration_fails) 0 "/out" self) in
  global_map_ self !! 0%nat = Some s
  /\ @invalid_output_path geometry (collaborators registration_fails) "/out" = false
  /\ @directory_fails geometry (collaborators registration_fails) "/out" s = false
  /\ (exists sr, @refinement_engine geometry (collaborators registration_fails)
                   "/out" s self = inr sr)
  /\ size (submap_refinement (summary_ final)) = 2%nat
  /\ submap_refinement (summary_ final) !! (102, 0) = Some {| dR := 0; dt := 0 |}.
Proof.
  intros self s final.
  split; [reflexivity|]. split; [reflexivity|]. split; [reflexivity|].
  split; [eexists; reflexivity|].
  destruct (@RefineSubmap_summary geometry (collaborators registration_fails)
              self 0 s "/out" _ eq_refl eq_refl eq_refl eq_refl)
    as (_ & _ & _ & Hfresh & _).
  destruct Hfresh as [Hsize Hentries].
  - apply (bool_decide_unpack _). vm_compute. exact I.
  - repeat (apply List.Forall_cons; [reflexivity|]). apply List.Forall_nil.
  - split; [exact Hsize|].
    destruct (Hentries 1%nat 102 (snd (scan 102 2)) eq_refl)
      as (s' & scan' & Hs' & Hscan' & Hentry).
    fold final in Hs'. vm_compute in Hs'. injection Hs' as <-.
    vm_compute in Hscan'. injection Hscan' as <-.
    exact Hentry.
Defined.

(** C9, an invalid output path met after a stage has run: the object is
    constructed without complaint, the refinement stage runs with a valid
    path and writes six summary entries, and only then does the alignment
    stage, given a path that does not exist, raise "invalid path". *)
Lemma invalid_output_path_after_a_stage :
  let c := @GlobalMapRefinement_new_from_config geometry (collaborators base)
             three_submaps "config.json" in
  let r1 := @RunSubmapRefinement geometry (collaborators base) "/out" (state_of c) in
  let r2 := @RunSubmapAlignment geometry (collaborators base) "/missing" (state_of r1) in
  result_of c = Returned tt
  /\ result_of r1 = Returned true
  /\ result_of r2 = Thrown (runtime_error "invalid path")
  /\ size (submap_refinement (summary_ (state_of r2))) = 6%nat
  /\ global_map_ (state_of r2) <> three_submaps.
Proof. vm_compute. repeat split. discriminate. Qed.

Lemma configuration_errors_witness :
  let r := @GlobalMapRefinement_new_from_config geometry (collaborators missing_key)
             three_submaps "config.json" in
  "config.json" <> ""
  /\ @ReadJson geometry (collaborators missing_key) "config.json"
     = Some config_without_alignment
  /\ required_keys_present config_without_alignment = false
  /\ (exists e, result_of r = Thrown e)
  /\ global_map_ (state_of r) = three_submaps
  /\ summary_ (state_of r) = empty_summary
  /\ @GlobalMapRefinement_new geometry (collaborators unknown_matcher)
       three_submaps params0 =
     (Thrown (invalid_argument "invalid json"),
      @uninitialised geometry (collaborators unknown_matcher) three_submaps params0,
      [BEAM_ERROR "Invalid matcher type"]).
Proof.
  intros r.
  assert (Hne : "config.json" <> "") by discriminate.
  split; [exact Hne|]. split; [reflexivity|]. split; [reflexivity|].
  destruct (@configuration_errors geometry (collaborators missing_key)
              three_submaps "config.json") as ([Hgm Hsm] & _ & Hkeys & _).
  split; [exact (Hkeys config_without_alignment Hne eq_refl eq_refl)|].
  split; [exact Hgm|]. split; [exact Hsm|].
  destruct (@configuration_errors geometry (collaborators unknown_matcher)
              three_submaps "config.json") as (_ & _ & _ & _ & Hunknown & _).
  exact (Hunknown params0 eq_refl).
Defined.

(** C10, no submaps: the count is not above the number skipped, the error
    is logged, and then the prior cannot be placed: the function ends in
    std::out_of_range and does not report success. *)
Lemma RunPoseGraphOptimization_empty_map :
  let self := constructed base [] in
  let r := @RunPoseGraphOptimization geometry (collaborators base) "/out" self in
  Z.of_nat (length (global_map_ self)) <= pgo_skip_first_n_submaps_ self
  /\ result_of r = Thrown out_of_range
  /\ result_of r <> Returned true
  /\ events_of r =
     [BEAM_ERROR "Global map size {} not large enough to run PGO, must have at least {} submaps";
      create_directory "/out/refinement"; create_directory "/out/candidate_search"].
Proof. vm_compute. repeat split; discriminate. Qed.

Lemma RunPoseGraphOptimization_returns_true_witness :
  let self := constructed base (take 2 three_submaps) in
  let r := @RunPoseGraphOptimization geometry (collaborators base) "/out" self in
  let nowhere := @RunPoseGraphOptimization geometry (collaborators base) "" self in
  result_of r = Returned true
  /\ (1 <= length (global_map_ self))%nat
  /\ Z.of_nat (length (global_map_ self)) < 2 ^ 31
  /\ - 2 ^ 31 <= pgo_skip_first_n_submaps_ self < 2 ^ 31
  /\ Z.of_nat (length (global_map_ self)) <= to_size_t (pgo_skip_first_n_submaps_ self)
  /\ @pgo_directories_fail geometry (collaborators base) "/out" = false
  /\ r = (Returned true, self,
          [BEAM_ERROR "Global map size {} not large enough to run PGO, must have at least {} submaps";
           create_directory "/out/refinement";
           create_directory "/out/candidate_search";
           graph_update 1 1; graph_update 1 1])
  /\ @pgo_directories_fail geometry (collaborators base) "" = true
  /\ result_of nowhere = Thrown (filesystem_error "/refinement")
  /\ state_of nowhere = self.
Proof.
  intros self r nowhere.
  destruct (@RunPoseGraphOptimization_returns_true geometry (collaborators base)
              "/out" self) as (Htrue & Hsmall & _).
  destruct (@RunPoseGraphOptimization_returns_true geometry (collaborators base)
              "" self) as (_ & _ & Hfail).
  assert (H1 : (1 <= length (global_map_ self))%nat) by (vm_compute; repeat constructor).
  assert (H2 : Z.of_nat (length (global_map_ self)) < 2 ^ 31) by (vm_compute; reflexivity).
  assert (H3 : - 2 ^ 31 <= pgo_skip_first_n_submaps_ self < 2 ^ 31)
    by (vm_compute; split; [discriminate | reflexivity]).
  assert (H4 : Z.of_nat (length (global_map_ self))
               <= to_size_t (pgo_skip_first_n_submaps_ self))
    by (vm_compute; discriminate).
  assert (H5 : @pgo_directories_fail geometry (collaborators base) "/out" = false)
    by reflexivity.
  assert (H6 : @pgo_directories_fail geometry (collaborators base) "" = true)
    by reflexivity.
  specialize (Hsmall H1 H2 H3 H4 H5).
  destruct (Hfail H6) as (Hthrown & Hstate & _).
  split.
  - destruct (result_of r) as [b| |] eqn:Hb.
    + by rewrite (Htrue b Hb).
    + subst r. rewrite Hsmall in Hb. discriminate.
    + subst r. rewrite Hsmall in Hb. discriminate.
  - repeat (split; [assumption|]). exact Hstate.
Defined.

End Runs.

(** * Further properties on concrete runs *)

Section MoreRuns.
Import Line LineCases.

Lemma RunSubmapAlignment_chain_witness :
  let self := constructed base three_submaps in
  let r := @RunSubmapAlignment geometry (collaborators base) "/out" self in
  (1 <= length [submap 200 10 [scan 201 1; scan 202 2];
                submap 300 20 [scan 301 1; scan 302 2]])%nat
  /\ Z.of_nat (length (global_map_ self)) < 2 ^ 16
  /\ @invalid_output_path geometry (collaborators base) "/out" = false
  /\ Forall (fun t => @directory_fails geometry (collaborators base) "/out" t = false)
       [submap 200 10 [scan 201 1; scan 202 2];
        submap 300 20 [scan 301 1; scan 302 2]]
  /\ result_of r = Returned true
  /\ T_WORLD_SUBMAP <$> global_map_ (state_of r) = [0; 11; 22].
Proof.
  intros self r.
  assert (H1 : (1 <= length [submap 200 10 [scan 201 1; scan 202 2];
                             submap 300 20 [scan 301 1; scan 302 2]])%nat)
    by (simpl; lia).
  assert (Hdir : Forall (fun t => @directory_fails geometry (collaborators base)
                                    "/out" t = false)
                   [submap 200 10 [scan 201 1; scan 202 2];
                    submap 300 20 [scan 301 1; scan 302 2]])
    by (repeat constructor).
  assert (H2 : Z.of_nat (length (global_map_ self)) < 2 ^ 16) by (vm_compute; reflexivity).
  destruct (@RunSubmapAlignment_chain geometry (collaborators base) "/out" self
              (submap 100 0 [scan 101 1; scan 102 2])
              [submap 200 10 [scan 201 1; scan 202 2];
               submap 300 20 [scan 301 1; scan 302 2]]
              _ eq_refl H1 H2 eq_refl Hdir eq_refl) as (Hr & Hmap & _ & _).
  split; [exact H1|]. split; [exact H2|]. split; [reflexivity|].
  split; [exact Hdir|]. split; [exact Hr|]. fold self in Hmap. fold r in Hmap. rewrite Hmap. reflexivity.
Defined.

Lemma RunSubmapRefinement_each_witness :
  let self := constructed base three_submaps in
  let r := @RunSubmapRefinement geometry (collaborators base) "/out" self in
  Z.of_nat (length (global_map_ self)) < 2 ^ 16
  /\ @invalid_output_path geometry (collaborators base) "/out" = false
  /\ Forall (fun s => @setup_fails geometry (collaborators base) "/out" self s = false)
       (global_map_ self)
  /\ result_of r = Returned true
  /\ global_map_ (state_of r)
     = @refined_submap geometry (collaborators base) "/out" self <$> global_map_ self.
Proof.
  intros self r.
  assert (H1 : Z.of_nat (length (global_map_ self)) < 2 ^ 16) by (vm_compute; reflexivity).
  assert (H3 : Forall (fun s => @setup_fails geometry (collaborators base) "/out" self s
                                = false) (global_map_ self)).
  { repeat constructor. }
  destruct (@RunSubmapRefinement_each geometry (collaborators base) "/out" self
              H1 eq_refl H3) as (Hr & Hmap & _ & _).
  split; [exact H1|]. split; [reflexivity|]. split; [exact H3|].
  split; [exact Hr | exact Hmap].
Defined.

Lemma RunSubmapRefinement_first_failure_witness :
  let self := state_of (@GlobalMapRefinement_new geometry (engine_fails_for 200)
                          three_submaps params0) in
  let r := @RunSubmapRefinement geometry (engine_fails_for 200) "/out" self in
  Z.of_nat (length (global_map_ self)) < 2 ^ 16
  /\ @invalid_output_path geometry (engine_fails_for 200) "/out" = false
  /\ @setup_fails geometry (engine_fails_for 200) "/out" self
       (submap 100 0 [scan 101 1; scan 102 2]) = false
  /\ @directory_fails geometry (engine_fails_for 200) "/out"
       (submap 200 10 [scan 201 1; scan 202 2]) = false
  /\ @refinement_engine geometry (engine_fails_for 200) "/out"
       (submap 200 10 [scan 201 1; scan 202 2]) self
     = inl (runtime_error "no engine")
  /\ result_of r = Thrown (runtime_error "no engine")
  /\ (fun s => T_REFFRAME_BASELINK <$> (snd <$> lidar_keyframe_poses s))
       <$> global_map_ (state_of r)
     = [[2; 3]; [1; 2]; [1; 2]].
Proof.
  intros self r.
  assert (H1 : Z.of_nat (length (global_map_ self)) < 2 ^ 16) by (vm_compute; reflexivity).
  assert (H3 : Forall (fun s => @setup_fails geometry (engine_fails_for 200) "/out" self s
                                = false) [submap 100 0 [scan 101 1; scan 102 2]]).
  { repeat constructor. }
  destruct (@RunSubmapRefinement_first_failure geometry (engine_fails_for 200) "/out"
              self [submap 100 0 [scan 101 1; scan 102 2]]
              (submap 200 10 [scan 201 1; scan 202 2])
              [submap 300 20 [scan 301 1; scan 302 2]]
              (runtime_error "no engine") eq_refl H1 eq_refl H3 eq_refl eq_refl)
    as (Hr & Hmap & _ & _).
  split; [exact H1|]. split; [reflexivity|]. split; [reflexivity|].
  split; [reflexivity|]. split; [reflexivity|].
  split; [exact Hr|]. fold self in Hmap. fold r in Hmap. rewrite Hmap. reflexivity.
Defined.

Lemma stages_invalid_output_path_witness :
  let self := constructed base three_submaps in
  @invalid_output_path geometry (collaborators base) "/nowhere" = true
  /\ @RunSubmapRefinement geometry (collaborators base) "/nowhere" self
     = (Thrown (runtime_error "invalid path"), self,
        [BEAM_ERROR "Invalid output path for submap refinement: {}"])
  /\ @RunSubmapAlignment geometry (collaborators base) "/nowhere" self
     = (Thrown (runtime_error "invalid path"), self,
        [BEAM_ERROR "Invalid output path for submap alignment: {}"]).
Proof.
  intros self.
  destruct (@stages_invalid_output_path geometry (collaborators base) "/nowhere" self
              eq_refl) as [Hr Ha].
  split; [reflexivity|]. split; [exact Hr | exact Ha].
Defined.

Lemma RunPoseGraphOptimization_poses_witness :
  let self := constructed sweep_finds_loop four_submaps in
  let r := @RunPoseGraphOptimization geometry (collaborators sweep_finds_loop)
             "/out" self in
  Z.of_nat (length (global_map_ self)) < 2 ^ 31
  /\ state_of r <> self
  /\ exists graph,
       @chain_with_loop_closures geometry self graph
       /\ @poses_solved_by geometry (collaborators sweep_finds_loop) graph (state_of r).
Proof.
  intros self r.
  assert (H1 : Z.of_nat (length (global_map_ self)) < 2 ^ 31) by (vm_compute; reflexivity).
  assert (Hne : state_of r <> self).
  { intros E. apply (f_equal (fun s => T_WORLD_SUBMAP <$> global_map_ s)) in E.
    vm_compute in E. discriminate E. }
  split; [exact H1|]. split; [exact Hne|].
  destruct (@RunPoseGraphOptimization_poses geometry (collaborators sweep_finds_loop)
              "/out" self (submap 100 0 [scan 101 1; scan 102 2])
              [submap 200 10 [scan 201 1; scan 202 2];
               submap 300 20 [scan 301 1; scan 302 2];
               submap 400 30 []]
              eq_refl H1) as [E|Hg].
  - contradiction.
  - exact Hg.
Defined.

Lemma many_submaps_length : Z.of_nat (length many_submaps) = 2 ^ 16.
Proof.
  unfold many_submaps, after_the_first.
  rewrite length_cons, length_app, length_replicate. simpl length. lia.
Qed.

Lemma RunSubmapRefinement_never_ends_witness :
  let self := constructed base many_submaps in
  2 ^ 16 <= Z.of_nat (length (global_map_ self))
  /\ @invalid_output_path geometry (collaborators base) "/out" = false
  /\ (forall fuel,
        result_of (@refinement_loop geometry (collaborators base) "/out"
                     (length (global_map_ self)) fuel 0 self) = Timeout)
  /\ result_of (@RunSubmapRefinement geometry (collaborators base) "/out" self)
     = Timeout.
Proof.
  intros self.
  assert (Hmap : global_map_ self = many_submaps) by reflexivity.
  assert (H1 : 2 ^ 16 <= Z.of_nat (length (global_map_ self))).
  { rewrite Hmap, many_submaps_length. lia. }
  assert (H3 : Forall (fun s => @setup_fails geometry (collaborators base) "/out" self s
                                = false) (global_map_ self)).
  { rewrite Hmap. unfold many_submaps, after_the_first.
    apply List.Forall_cons; [reflexivity|].
    apply Forall_app. split; [|apply List.Forall_nil].
    apply Forall_replicate. reflexivity. }
  split; [exact H1|]. split; [reflexivity|].
  exact (@RunSubmapRefinement_never_ends geometry (collaborators base) "/out" self
           H1 eq_refl H3).
Defined.

Lemma RunSubmapAlignment_counter_wraps_witness :
  let self := constructed base many_submaps in
  Z.of_nat (length after_the_first) = 2 ^ 16 - 1
  /\ Z.of_nat (length (global_map_ self)) < 2 ^ 64
  /\ @invalid_output_path geometry (collaborators base) "/out" = false
  /\ result_of (@RunSubmapAlignment geometry (collaborators base) "/out" self)
     = Thrown out_of_range.
Proof.
  intros self.
  assert (Hmap : global_map_ self = plain :: after_the_first ++ []) by reflexivity.
  assert (H1 : Z.of_nat (length after_the_first) = 2 ^ 16 - 1).
  { unfold after_the_first. rewrite length_replicate. lia. }
  assert (H2 : Z.of_nat (length (global_map_ self)) < 2 ^ 64).
  { change (global_map_ self) with many_submaps. rewrite many_submaps_length. lia. }
  assert (Hdir : Forall (fun t => @directory_fails geometry (collaborators base)
                                    "/out" t = false) after_the_first)
    by (apply Forall_replicate; reflexivity).
  destruct (@RunSubmapAlignment_counter_wraps geometry (collaborators base) "/out" self
              plain after_the_first [] _ Hmap H1 H2 eq_refl Hdir eq_refl) as (Hr & _ & _).
  split; [exact H1|]. split; [exact H2|]. split; [reflexivity | exact Hr].
Defined.

Lemma RunSubmapAlignment_again_witness :
  let self := constructed base three_submaps in
  let once := state_of (@RunSubmapAlignment geometry (collaborators base) "/out" self) in
  let twice := state_of (@RunSubmapAlignment geometry (collaborators base) "/out" once) in
  Z.of_nat (length (global_map_ self)) < 2 ^ 16
  /\ @invalid_output_path geometry (collaborators base) "/out" = false
  /\ Forall (fun t => @directory_fails geometry (collaborators base) "/out" t = false)
       [submap 200 10 [scan 201 1; scan 202 2];
        submap 300 20 [scan 301 1; scan 302 2]]
  /\ T_WORLD_SUBMAP <$> global_map_ once = [0; 11; 22]
  /\ T_WORLD_SUBMAP <$> global_map_ twice = [0; 11; 22]
  /\ submap_alignment (summary_ twice) = submap_alignment (summary_ once).
Proof.
  intros self once twice.
  assert (H1 : (1 <= length [submap 200 10 [scan 201 1; scan 202 2];
                             submap 300 20 [scan 301 1; scan 302 2]])%nat)
    by (simpl; lia).
  assert (Hdir : Forall (fun t => @directory_fails geometry (collaborators base)
                                    "/out" t = false)
                   [submap 200 10 [scan 201 1; scan 202 2];
                    submap 300 20 [scan 301 1; scan 302 2]])
    by (repeat constructor).
  assert (H2 : Z.of_nat (length (global_map_ self)) < 2 ^ 16) by (vm_compute; reflexivity).
  destruct (@RunSubmapAlignment_again geometry (collaborators base) "/out" self
              (submap 100 0 [scan 101 1; scan 102 2])
              [submap 200 10 [scan 201 1; scan 202 2];
               submap 300 20 [scan 301 1; scan 302 2]]
              _ eq_refl H1 H2 eq_refl Hdir eq_refl) as (_ & Hmap & Hsum).
  split; [exact H2|]. split; [reflexivity|]. split; [exact Hdir|].
  split; [vm_compute; reflexivity|].
  split; [|exact Hsum].
  fold self in Hmap. fold once in Hmap. fold twice in Hmap. rewrite Hmap. reflexivity.
Defined.

Lemma LoadJson_loads_witness :
  "config.json" <> ""
  /\ @ReadJson geometry (collaborators base) "config.json" = Some good_config
  /\ @LoadJson geometry (collaborators base) "config.json" params0 =
     (Returned tt,
      {| loop_closure :=
           {| candidate_search_config := ""; refinement_config := "";
              local_mapper_covariance := 10; loop_closure_covariance := 1 |};
         submap_refinement_params :=
           {| scan_registration_config := ""; refinement_matcher_config := "" |};
         submap_alignment_params :=
           {| alignment_matcher_config := "/config/icp.json" |} |},
      []).
Proof.
  assert (Hne : "config.json" <> "") by discriminate.
  split; [exact Hne|]. split; [reflexivity|].
  destruct (@LoadJson_loads geometry (collaborators base) "config.json" params0
              good_config "" "" 10 1 "" "" "icp.json" Hne eq_refl
              (conj eq_refl (conj eq_refl (conj eq_refl eq_refl)))
              eq_refl eq_refl eq_refl) as [_ Hload].
  rewrite Hload. reflexivity.
Defined.

Lemma LoadJson_partial_witness :
  "config.json" <> ""
  /\ @ReadJson geometry (collaborators mistyped) "config.json" = Some config_with_number
  /\ @required_keys_present geometry config_with_number = true
  /\ @LoadJson geometry (collaborators mistyped) "config.json" params0 =
     (Thrown json_type_error,
      {| loop_closure :=
           {| candidate_search_config := "/config/search.json"; refinement_config := "";
              local_mapper_covariance := 10; loop_closure_covariance := 1 |};
         submap_refinement_params := submap_refinement_params params0;
         submap_alignment_params := submap_alignment_params params0 |},
      []).
Proof.
  assert (Hne : "config.json" <> "") by discriminate.
  assert (Hbad : forall str,
            @json_section geometry (@json_section geometry config_with_number
                                      "submap_refinement") "scan_registration_config"
            <> json_string str) by (intros str; discriminate).
  split; [exact Hne|]. split; [reflexivity|]. split; [reflexivity|].
  rewrite (@LoadJson_partial geometry (collaborators mistyped) "config.json" params0
             config_with_number "search.json" "" 10 1 Hne eq_refl eq_refl
             (conj eq_refl (conj eq_refl (conj eq_refl eq_refl))) Hbad).
  reflexivity.
Defined.

Lemma RunPoseGraphOptimization_completes_witness :
  let self := constructed sweep_finds_loop four_submaps in
  Z.of_nat (length (global_map_ self)) < 2 ^ 31 - 1
  /\ 0 <= pgo_skip_first_n_submaps_ self < 2 ^ 31
  /\ @pgo_directories_fail geometry (collaborators sweep_finds_loop) "/out" = false
  /\ result_of (@RunPoseGraphOptimization geometry (collaborators sweep_finds_loop)
                  "/out" self) = Returned true.
Proof.
  intros self.
  assert (H1 : Z.of_nat (length (global_map_ self)) < 2 ^ 31 - 1)
    by (vm_compute; reflexivity).
  assert (H2 : 0 <= pgo_skip_first_n_submaps_ self < 2 ^ 31)
    by (split; vm_compute; [discriminate | reflexivity]).
  assert (H3 : forall submaps query ign use path,
            Forall (fun c : Z * Z => 0 <= fst c)
              (@RelocCandidateSearchBase_Create geometry (collaborators sweep_finds_loop)
                 "" submaps query ign use path)).
  { intros submaps query ign use path. simpl.
    destruct (fst (Stamp query) =? 300); repeat constructor; simpl; lia. }
  split; [exact H1|]. split; [exact H2|]. split; [reflexivity|].
  exact (@RunPoseGraphOptimization_completes geometry (collaborators sweep_finds_loop)
           "/out" self (submap 100 0 [scan 101 1; scan 102 2])
           [submap 200 10 [scan 201 1; scan 202 2];
            submap 300 20 [scan 301 1; scan 302 2];
            submap 400 30 []]
           _ _ eq_refl H1 H2 eq_refl eq_refl H3 eq_refl).
Defined.

Lemma GlobalMapRefinement_new_complete_witness :
  let self := constructed base three_submaps in
  @GetTypeFromConfig geometry (collaborators base)
    (alignment_matcher_config (submap_alignment_params params0)) <> UNKNOWN
  /\ @GlobalMapRefinement_new geometry (collaborators base) three_submaps params0
     = (Returned tt, self, [])
  /\ matcher_loam_ self = None
  /\ is_Some (@alignment_matcher geometry (collaborators base) self).
Proof.
  intros self.
  assert (Hty : @GetTypeFromConfig geometry (collaborators base)
                  (alignment_matcher_config (submap_alignment_params params0))
                <> UNKNOWN) by discriminate.
  destruct (@GlobalMapRefinement_new_complete geometry (collaborators base)
              three_submaps params0 Hty)
    as (Hr & _ & _ & _ & _ & _ & Hm & _).
  split; [exact Hty|]. split; [exact Hr|]. split; [reflexivity | exact Hm].
Defined.

Lemma RunPoseGraphOptimization_without_candidates_witness :
  let self := constructed sweep_finds_nothing three_submaps in
  let r := @RunPoseGraphOptimization geometry (collaborators sweep_finds_nothing)
             "/out" self in
  find_calls (events_of r) = [(0, 4); (1, 3)] /\ state_of r = self.
Proof.
  intros self r. split; [vm_compute; reflexivity|].
  apply (@RunPoseGraphOptimization_without_candidates geometry
           (collaborators sweep_finds_nothing) "/out" self).
  intros search submaps query ign use path Hs.
  injection Hs as <-. reflexivity.
Defined.

End MoreRuns.
